(** * Estudio del canal: medias de conjunto tras un filtro FIR y un sistema cuadratico

    Shallow embedding of [Examen_2/Punto 3 - Estacionariedad y Filtros/punto_3.py].

    The script builds an ensemble of realizations (a 2-D array, one row per
    realization, 1000 samples per row), passes it through an FIR filter
    ([scipy.signal.lfilter] with denominator [[1]]) and through the
    square-law system [x ** 2], and animates the ensemble means at two time
    instants [t1] and [t2 = t1 + tau].

    Numbers.  The program computes on binary64 floats.  The embedding is
    written once over an abstract numeric type (class [Num]) and used at
    the primitive binary64 floats, the numbers of the program, and at exact
    rationals [Q].  Statements over every [Num] hold of both; those that
    need the laws of arithmetic (a sum regrouped, a product distributed)
    are stated on [Q], where rounding is not part of them.

    Library calls ([np.array], [np.convolve], [lfilter], [np.mean],
    [np.random.normal], [range], array indexing, [FuncAnimation]) are
    embedded by their behaviour on the arguments the script passes to
    them, the order of the floating-point additions included; Python
    exceptions are values of [exn]. *)

From Stdlib Require Import ZArith QArith Qabs List Sorted String Lia Lqa Floats Uint63.
From stdpp Require Import base option list gmap pretty.
Import ListNotations.

Local Open Scope Z_scope.

(** ** Numbers *)

Class Num (T : Type) := {
  num_of_Z : Z -> T;          (* an [int] used in float arithmetic *)
  nadd : T -> T -> T;
  nsub : T -> T -> T;
  nmul : T -> T -> T;
  ndiv : T -> T -> T;         (* numpy division of array entries *)
  nabs : T -> T;              (* [np.abs] *)
  is_zero : T -> bool;        (* [v == 0] *)
  raises_on_zero : bool;      (* whether [1/a] raises on [a == 0]: Python's own
                                 numbers do, numpy's scalars follow IEEE 754 *)
  is_neg : T -> bool;         (* [np.signbit(v)] of a number that is not NaN *)
  fmt3f : T -> string         (* the format specification [:.3f] *)
}.

(** [:.3f] prints the decimal expansion rounded to three places, ties to
    even, and keeps the sign of a negative number that rounds to zero. *)

Definition round_half_even (q : Q) : Z :=
  let n := Qnum q in
  let d := Z.pos (Qden q) in
  let fl := n / d in
  let r2 := 2 * (n mod d) in
  if r2 <? d then fl
  else if d <? r2 then fl + 1
  else if Z.even fl then fl else fl + 1.

Definition pad3 (n : Z) : string :=
  (if n <? 10 then "00"%string else if n <? 100 then "0"%string else ""%string)
    +:+ pretty n.

Definition fixed3 (neg : bool) (mag : Q) : string :=
  let m := round_half_even (Qmult mag (1000 # 1)) in
  (if neg then "-"%string else ""%string)
    +:+ pretty (m / 1000) +:+ "."%string +:+ pad3 (m mod 1000).

Definition fmt3f_Q (q : Q) : string := fixed3 (Qnum q <? 0) (Qabs q).

#[export] Instance Q_Num : Num Q := {|
  num_of_Z := inject_Z;
  nadd := Qplus;
  nsub := Qminus;
  nmul := Qmult;
  ndiv := Qdiv;
  nabs := Qabs;
  is_zero := fun q => Qeq_bool q 0;
  raises_on_zero := true;
  is_neg := fun q => Qnum q <? 0;
  fmt3f := fmt3f_Q
|}.

(** Binary64.  [float_of_Z] is exact on the integers the script converts
    (filter constants, realization counts, realization indices). *)

Definition float_of_Z (z : Z) : float :=
  match z with
  | Z0 => PrimFloat.zero
  | Z.pos _ => PrimFloat.of_uint63 (Uint63.of_Z z)
  | Z.neg p => PrimFloat.opp (PrimFloat.of_uint63 (Uint63.of_Z (Z.pos p)))
  end.

Definition Q_of_mantissa (m : positive) (e : Z) : Q :=
  match e with
  | Z0 => Z.pos m # 1
  | Z.pos k => Z.pos (m * Pos.pow 2 k) # 1
  | Z.neg k => Z.pos m # Pos.pow 2 k
  end.

Definition fmt3f_float (x : float) : string :=
  match Prim2SF x with
  | S754_zero s => fixed3 s 0
  | S754_infinity s => if s then "-inf"%string else "inf"%string
  | S754_nan => "nan"%string
  | S754_finite s m e => fixed3 s (Q_of_mantissa m e)
  end.

(** The sign bit of a float that is not NaN: set on negative numbers and
    on [-0.0]. *)
Definition signbit (x : float) : bool :=
  match Prim2SF x with
  | S754_zero s => s
  | S754_infinity s => s
  | S754_nan => false
  | S754_finite s _ _ => s
  end.

(** Python's [float] for the parameter [a], binary64 for the arrays. *)
#[export] Instance float_Num : Num float := {|
  num_of_Z := float_of_Z;
  nadd := PrimFloat.add;
  nsub := PrimFloat.sub;
  nmul := PrimFloat.mul;
  ndiv := PrimFloat.div;
  nabs := PrimFloat.abs;
  is_zero := fun x => PrimFloat.eqb x PrimFloat.zero;
  raises_on_zero := true;
  is_neg := signbit;
  fmt3f := fmt3f_float
|}.


(** ** Exceptions *)

(** [EventLoop e]: the exception [e] was raised by a callback that the GUI
    event loop ran.  It is not raised at the caller of [plt.show()]; what
    becomes of it (a traceback, a stopped timer, the end of the process) is
    the backend's business, and the embedding follows the run no
    further. *)
Inductive exn : Set :=
| ZeroDivisionError
| IndexError
| ValueError
| NameError
| EventLoop (e : exn).

Inductive res (A : Type) : Type :=
| Ok (a : A)
| Raise (e : exn).
Arguments Ok {A} a.
Arguments Raise {A} e.

#[export] Instance res_ret : MRet res := fun A a => Ok a.
#[export] Instance res_bind : MBind res := fun A B f m =>
  match m with
  | Ok a => f a
  | Raise e => Raise e
  end.

(** [[f(v) for v in l]], stopping at the first exception. *)
Fixpoint traverse {A B : Type} (f : A -> res B) (l : list A) : res (list B) :=
  match l with
  | [] => Ok []
  | v :: l' => y ← f v; ys ← traverse f l'; Ok (y :: ys)
  end.

(** ** Python's [range] and index normalisation *)

(** [range(start, stop, step)] for a positive [step]. *)
Definition py_range (start stop : Z) (step : positive) : list Z :=
  map (fun k : nat => start + Z.of_nat k * Z.pos step)
      (seq 0 (Z.to_nat ((stop - start + Z.pos step - 1) / Z.pos step))).

(** An index [t] into an axis of length [n]: negative indices count from
    the end, anything outside [-n, n) is an [IndexError]. *)
Definition norm_index (t : Z) (n : nat) : res nat :=
  if 0 <=? t then
    if t <? Z.of_nat n then Ok (Z.to_nat t) else Raise IndexError
  else
    if - Z.of_nat n <=? t then Ok (Z.to_nat (t + Z.of_nat n)) else Raise IndexError.

Section Arrays.
Context {T : Type} `{Num T}.

Definition num0 : T := num_of_Z 0.
Definition num1 : T := num_of_Z 1.

(** ** Arrays *)

(** The arrays of the script have one or two axes.  [Arr2 c rows] has shape
    [(length rows, c)]; every row has [c] entries ([wf]). *)
Inductive ndarray : Type :=
| Arr1 (v : list T)
| Arr2 (ncols : nat) (rows : list (list T)).

Definition shape (y : ndarray) : list nat :=
  match y with
  | Arr1 v => [length v]
  | Arr2 c rows => [length rows; c]
  end.

Definition wf (y : ndarray) : Prop :=
  match y with
  | Arr1 _ => True
  | Arr2 c rows => Forall (fun r => length r = c) rows
  end.

(** [np.array(rows)] on a list of 1-D rows.  The empty list gives the 1-D
    array of shape [(0,)]; rows of unequal length are refused. *)
Definition np_array (rows : list (list T)) : res ndarray :=
  match rows with
  | [] => Ok (Arr1 [])
  | r :: _ =>
      if forallb (fun r' => Nat.eqb (length r') (length r)) rows
      then Ok (Arr2 (length r) rows)
      else Raise ValueError
  end.

(** [y[i]]: an entry of a 1-D array, a row of a 2-D array.  The row is a
    view of [y]; the script hands it to [lfilter] and to [plot], which read
    it and write nothing into it. *)
Inductive item : Type :=
| Scalar (v : T)
| Row (r : list T).

Definition getitem (y : ndarray) (i : Z) : res item :=
  match y with
  | Arr1 v =>
      k ← norm_index i (length v);
      match v !! k with Some e => Ok (Scalar e) | None => Raise IndexError end
  | Arr2 _ rows =>
      k ← norm_index i (length rows);
      match rows !! k with Some r => Ok (Row r) | None => Raise IndexError end
  end.

(** [y[:, t]]: column [t] of a 2-D array; a 1-D array has too few axes. *)
Definition column (y : ndarray) (t : Z) : res (list T) :=
  match y with
  | Arr1 _ => Raise IndexError
  | Arr2 c rows => k ← norm_index t c; Ok (map (fun r => nth k r num0) rows)
  end.

(** [y ** 2], entry by entry. *)
Definition square (v : T) : T := nmul v v.

Definition power2 (y : ndarray) : ndarray :=
  match y with
  | Arr1 v => Arr1 (map square v)
  | Arr2 c rows => Arr2 c (map (map square) rows)
  end.

(** The sum of a 1-D array as numpy's [add.reduce] computes it
    ([pairwise_sum]), the order of the additions being what the rounding
    of floats depends on.  Fewer than 8 entries are added one after the
    other, from the first.  Up to 128 entries are added on 8 running sums,
    entry [i] on sum [i mod 8]; the 8 sums are then added as
    [((r0 + r1) + (r2 + r3)) + ((r4 + r5) + (r6 + r7))] and the entries
    left over, fewer than 8, one after the other.  A longer array is cut
    in two, the first part a multiple of 8 long, and the sums of the two
    parts are added. *)
Fixpoint running_sums (k : nat) (r l : list T) : list T * list T :=
  match k with
  | O => (r, l)
  | S k' => running_sums k' (zip_with nadd r (take 8 l)) (drop 8 l)
  end.

Definition sum_of_8 (r : list T) : T :=
  match r with
  | [r0; r1; r2; r3; r4; r5; r6; r7] =>
      nadd (nadd (nadd r0 r1) (nadd r2 r3)) (nadd (nadd r4 r5) (nadd r6 r7))
  | _ => num0
  end.

Definition block_sum (a : list T) : T :=
  let '(r, rest) := running_sums (length a / 8 - 1) (take 8 a) (drop 8 a) in
  fold_left nadd rest (sum_of_8 r).

(** [fuel] bounds the depth of the recursion; both parts of an array of
    more than 128 entries are shorter than the array, so that the length
    of the array is fuel enough ([pairwise_sum_fuel]). *)
Fixpoint pairwise_sum (fuel : nat) (a : list T) : T :=
  let n := length a in
  if (n <? 8)%nat then fold_left nadd a num0
  else if (n <=? 128)%nat then block_sum a
  else
    match fuel with
    | O => fold_left nadd a num0
    | S fuel' =>
        let n2 := (n / 2 - (n / 2) mod 8)%nat in
        nadd (pairwise_sum fuel' (take n2 a)) (pairwise_sum fuel' (drop n2 a))
    end.

(** [np.add.reduce] of a 1-D array: the result starts as the identity 0,
    and the pairwise sum of the entries is added to it. *)
Definition np_sum (l : list T) : T := nadd num0 (pairwise_sum (length l) l).

(** [np.mean] of a 1-D array: the sum of the entries over their number. *)

Definition np_mean (l : list T) : T :=
  ndiv (np_sum l) (num_of_Z (Z.of_nat (length l))).

(** ** The FIR filter *)

(** Sample [k] of the full convolution of [b] and [x]:
    the sum over [j] of [b[j] * x[k - j]], the terms outside [x] left out. *)
Fixpoint conv_at (b : list T) (x : list T) (k : nat) : T :=
  match b with
  | [] => num0
  | bj :: b' =>
      nadd (nmul bj (nth k x num0))
           (match k with
            | O => num0
            | S k' => conv_at b' x k'
            end)
  end.

(** [np.convolve(b, x)] (mode "full"): empty operands are refused. *)
Definition convolve (b x : list T) : res (list T) :=
  match b, x with
  | [], _ | _, [] => Raise ValueError
  | _, _ => Ok (map (conv_at b x) (seq 0 (length b + length x - 1)))
  end.

(** [lfilter(b, [a0], x)], the single-coefficient denominator of the
    script: [b] is divided by [a0], convolved with [x], and the result, a
    new array, is cut to the length of [x].  A 0-d [x] is refused. *)
Definition lfilter (b : list T) (a0 : T) (x : item) : res (list T) :=
  match x with
  | Scalar _ => Raise ValueError
  | Row xs =>
      let b' := map (fun c => ndiv c a0) b in
      out_full ← convolve b' xs;
      Ok (firstn (length out_full - length b' + 1) out_full)
  end.

(** ** The processing step of [animar_medias_tiempo] *)

(** Line 27: [b = [1, -1/a, 1/(2*a)]].  With a Python number [a] that is
    0 the division [-1/a] raises; with a numpy scalar it gives an
    infinity. *)
Definition b (a : T) : res (list T) :=
  if raises_on_zero && is_zero a then Raise ZeroDivisionError
  else Ok [num1; ndiv (num_of_Z (-1)) a; ndiv num1 (nmul (num_of_Z 2) a)].

(** Line 30: [np.array([lfilter(b, [1], x[i]) for i in range(n_realizaciones)])]. *)
Definition y_fir (x : ndarray) (n_realizaciones : Z) (a : T) : res ndarray :=
  bs ← b a;
  rows ← traverse (fun i => xi ← getitem x i; lfilter bs num1 xi)
                  (py_range 0 n_realizaciones 1);
  np_array rows.

(** Line 33: [x ** 2]. *)
Definition y_nl (x : ndarray) : ndarray := power2 x.

End Arrays.

Arguments ndarray T : clear implicits.
Arguments item T : clear implicits.

(** ** The store and the figure *)

(** Arrays are objects: a variable of the script holds a reference [loc]
    into the store, and two variables may hold the same reference. *)
Definition loc := positive.

(** The artists that [update] hands back to the animation. *)
Inductive artist : Set :=
| FirLine (i : nat)
| NlLine (i : nat)
| VLine1Fir
| VLine2Fir
| VLine1Nl
| VLine2Nl
| Txt1
| Txt2.

Definition newline : string := String (Ascii.ascii_of_nat 10) EmptyString.

Section Animation.
Context {T : Type} `{Num T}.

(** What the two panels show: the drawn traces, the x-data of the four
    vertical markers and the two annotations. *)
Record figure : Type := Figure {
  fir_lines : list (list T);
  nl_lines : list (list T);
  vline1_fir : list Z;
  vline2_fir : list Z;
  vline1_nl : list Z;
  vline2_nl : list Z;
  txt1 : string;
  txt2 : string
}.

Record world : Type := World {
  heap : gmap loc (ndarray T);
  fig : figure
}.

Definition blank : figure := Figure [] [] [] [] [] [] "" "".

(** Computations of the script: they read and extend the store, redraw the
    figure, and may raise; an exception leaves the world as it was when it
    was raised. *)
Definition M (A : Type) : Type := world -> res A * world.

#[export] Instance M_ret : MRet M := fun A a w => (Ok a, w).
#[export] Instance M_bind : MBind M := fun A B f m w =>
  match m w with
  | (Ok a, w') => f a w'
  | (Raise e, w') => (Raise e, w')
  end.

Definition lift {A : Type} (r : res A) : M A := fun w => (r, w).

Definition read (l : loc) : M (ndarray T) := fun w =>
  match heap w !! l with
  | Some y => (Ok y, w)
  | None => (Raise NameError, w)
  end.

Definition alloc (y : ndarray T) : M loc := fun w =>
  let l := fresh (dom (heap w)) in
  (Ok l, World (<[l := y]> (heap w)) (fig w)).

Definition get_fig : M figure := fun w => (Ok (fig w), w).
Definition set_fig (g : figure) : M unit := fun w => (Ok tt, World (heap w) g).

(** [for v in l: body(v)]. *)
Fixpoint for_each {A : Type} (body : A -> M (list artist)) (l : list A) : M unit :=
  match l with
  | [] => mret tt
  | v :: l' => _ ← body v; for_each body l'
  end.

(** ** Lines 27-33: the two processed ensembles *)

(** [np.array(...)] and [x ** 2] build new arrays; [y_fir] and [y_nl] are
    bound to their references. *)
Definition procesar (x : loc) (n_realizaciones : Z) (a : T) : M (loc * loc) :=
  xv ← read x;
  yf ← lift (y_fir xv n_realizaciones a);
  ly_fir ← alloc yf;
  xv' ← read x;
  ly_nl ← alloc (y_nl xv');
  mret (ly_fir, ly_nl).

(** ** Lines 36-64: the figure *)

(** [ax.plot(tiempo, y)[0]] with [tiempo = np.arange(1000)]: the trace
    keeps the data [y], which must have 1000 entries. *)
Definition plot (y : item T) : res (list T) :=
  match y with
  | Scalar _ => Raise ValueError
  | Row r => if Nat.eqb (length r) 1000 then Ok r else Raise ValueError
  end.

Definition crear_figura (ly_fir ly_nl : loc) (n_realizaciones : Z) : M unit :=
  yf ← read ly_fir;
  fl ← lift (traverse (fun i => r ← getitem yf i; plot r)
                      (py_range 0 (Z.min n_realizaciones 10) 1));
  yn ← read ly_nl;
  nl ← lift (traverse (fun i => r ← getitem yn i; plot r)
                      (py_range 0 (Z.min n_realizaciones 10) 1));
  set_fig (Figure fl nl [0; 0] [0; 0] [0; 0] [0; 0] "" "").

(** ** Lines 69-92: [update] *)

(** The annotation of a panel. *)
Definition texto (titulo : string) (t1 t2 : Z) (media_t1 media_t2 : T) : string :=
  titulo +:+ newline
    +:+ "μ(t1="%string +:+ pretty t1 +:+ ")="%string +:+ fmt3f media_t1
    +:+ ", μ(t2="%string +:+ pretty t2 +:+ ")="%string +:+ fmt3f media_t2
    +:+ ", diferencia="%string +:+ fmt3f (nabs (nsub media_t2 media_t1)).

Definition artistas (g : figure) : list artist :=
  map FirLine (seq 0 (length (fir_lines g)))
    ++ map NlLine (seq 0 (length (nl_lines g)))
    ++ [VLine1Fir; VLine2Fir; VLine1Nl; VLine2Nl; Txt1; Txt2].

Definition t1 (frame : Z) : Z := frame.
Definition t2 (frame tau : Z) : Z := frame + tau.

Definition update (ly_fir ly_nl : loc) (tau : Z) (frame : Z) : M (list artist) :=
  let t1 := t1 frame in
  let t2 := t2 frame tau in
  if t2 >=? 1000 then mret []
  else
    yf ← read ly_fir;
    c_fir_t1 ← lift (column yf t1);
    let media_fir_t1 := np_mean c_fir_t1 in
    c_fir_t2 ← lift (column yf t2);
    let media_fir_t2 := np_mean c_fir_t2 in
    yn ← read ly_nl;
    c_nl_t1 ← lift (column yn t1);
    let media_nl_t1 := np_mean c_nl_t1 in
    c_nl_t2 ← lift (column yn t2);
    let media_nl_t2 := np_mean c_nl_t2 in
    g ← get_fig;
    let g' :=
      Figure (fir_lines g) (nl_lines g)
             [t1; t1] [t2; t2] [t1; t1] [t2; t2]
             (texto "Media FIR" t1 t2 media_fir_t1 media_fir_t2)
             (texto "Media x²" t1 t2 media_nl_t1 media_nl_t2) in
    _ ← set_fig g';
    mret (artistas g').

(** ** Line 95: the animation *)

Record animation : Type := Animation {
  func : Z -> M (list artist);
  frames : list Z;
  interval : Z;
  blit : bool
}.

Definition FuncAnimation (ly_fir ly_nl : loc) (tau : Z) : animation :=
  Animation (update ly_fir ly_nl tau) (py_range 0 (1000 - tau) 10) 200 true.

(** The frames that the timer hands to [func], one per tick: the frames
    of the sequence in order; the tick that finds the sequence exhausted
    draws the initial picture again, that is the first frame (there is no
    [init_func]), and the sequence starts over on the tick after it
    ([repeat] is left at its default).  A sequence of [L] frames comes
    round every [L + 1] ticks. *)
Definition on_ticks (fs : list Z) (ticks : nat) : list Z :=
  firstn ticks (concat (repeat (fs ++ firstn 1 fs) ticks)).

(** The frames an animation hands to [func] in all: the first frame, for
    the initial picture drawn when the animation is created, then those of
    the timer ticks.  (The initial picture may be drawn again when the
    window appears or is resized; the same frame gives the same
    picture.) *)
Definition delivered (fs : list Z) (ticks : nat) : list Z :=
  firstn 1 fs ++ on_ticks fs ticks.

(** A callback of the event loop: an exception it raises stays in the
    event loop. *)
Definition in_event_loop {A : Type} (m : M A) : M A := fun w =>
  match m w with
  | (Ok v, w') => (Ok v, w')
  | (Raise e, w') => (Raise (EventLoop e), w')
  end.

(** Lines 95-97 for the animation [ani].  Creating it draws the initial
    picture ([blit=True] sets up blitting in the constructor), so that an
    exception of the first frame is raised at line 95; [plt.show()] then
    runs the event loop, the window being closed after [ticks] timer
    ticks. *)
Definition show (ani : animation) (ticks : nat) : M unit :=
  _ ← for_each (func ani) (firstn 1 (frames ani));
  for_each (fun f => in_event_loop (func ani f)) (on_ticks (frames ani) ticks).

(** ** [animar_medias_tiempo] *)

(** Lines 27-64: everything before the animation starts. *)
Definition preparar (x : loc) (n_realizaciones : Z) (a : T) : M (loc * loc) :=
  '(ly_fir, ly_nl) ← procesar x n_realizaciones a;
  _ ← crear_figura ly_fir ly_nl n_realizaciones;
  mret (ly_fir, ly_nl).

Definition animar_medias_tiempo (x : loc) (n_realizaciones : Z) (a : T) (tau : Z)
    (ticks : nat) : M unit :=
  '(ly_fir, ly_nl) ← preparar x n_realizaciones a;
  let ani := FuncAnimation ly_fir ly_nl tau in
  show ani ticks.

End Animation.

(** ** Line 124: the ensemble of the non-stationary channel *)

Section Canal_no_estacionario.
Context {T : Type} `{Num T}.

(** The global generator: [gauss k] is its [k]-th standard normal variate,
    and a cursor counts the variates already handed out. *)
Variable gauss : N -> T.

(** [np.random.normal(loc, scale, size)]: [size] fresh variates, each
    multiplied by [scale] and shifted by [loc] ([scale] is the standard
    deviation of the result); a [scale] with the sign bit set is refused
    ([-0.0] too). *)
Definition normal (loc scale : T) (size : nat) (cursor : N) : res (list T) * N :=
  if is_neg scale then (Raise ValueError, cursor)
  else (Ok (map (fun k => nadd loc (nmul scale (gauss (cursor + N.of_nat k)%N))) (seq 0 size)),
        (cursor + N.of_nat size)%N).

Definition n_realizaciones : Z := 3000.

(** [0.5 + 0.01 * t]. *)
Definition escala (t : Z) : T :=
  nadd (ndiv num1 (num_of_Z 2)) (nmul (ndiv num1 (num_of_Z 100)) (num_of_Z t)).

(** [[np.random.normal(0, 0.5 + 0.01 * t, 1000) for t in ts]]. *)
Fixpoint filas_variante (ts : list Z) (cursor : N) : res (list (list T)) * N :=
  match ts with
  | [] => (Ok [], cursor)
  | t :: ts' =>
      match normal num0 (escala t) 1000 cursor with
      | (Ok r, c) =>
          match filas_variante ts' c with
          | (Ok rs, c') => (Ok (r :: rs), c')
          | (Raise e, c') => (Raise e, c')
          end
      | (Raise e, c) => (Raise e, c)
      end
  end.

Definition x_variante (cursor : N) : res (ndarray T) * N :=
  match filas_variante (py_range 0 n_realizaciones 1) cursor with
  | (Ok rows, c) => (np_array rows, c)
  | (Raise e, c) => (Raise e, c)
  end.

End Canal_no_estacionario.

Arguments figure T : clear implicits.
Arguments world T : clear implicits.
Arguments animation T : clear implicits.

(** ** Lines 104-126: the three experiments of the script *)

Section Experimentos.
Context {T : Type} `{Num T}.

Variable gauss : N -> T.

(** [np.pi], [np.sin] and [np.cos], taken as given. *)
Variable pi : T.
Variable sin : T -> T.
Variable cos : T -> T.

(** [np.random.normal(loc, scale, (rows, cols))]: the array is filled row
    by row; a negative dimension or a [scale] with the sign bit set is
    refused. *)
Definition normal_2d (loc scale : T) (rows : Z) (cols : nat) (cursor : N)
    : res (ndarray T) * N :=
  if (rows <? 0) || is_neg scale then (Raise ValueError, cursor)
  else
    (Ok (Arr2 cols
           (map (fun i : nat =>
                   map (fun k : nat =>
                          nadd loc (nmul scale
                            (gauss (cursor + N.of_nat i * N.of_nat cols + N.of_nat k)%N)))
                       (seq 0 cols))
                (seq 0 (Z.to_nat rows)))),
     (cursor + Z.to_N rows * N.of_nat cols)%N).

(** Line 105. *)
Definition x_ruido (cursor : N) : res (ndarray T) * N :=
  normal_2d num0 (num_of_Z 4) n_realizaciones 1000 cursor.

(** An arithmetic operation on two 1-D arrays: entry by entry when they
    have the same length, a one-entry array being stretched otherwise. *)
Definition ewise (op : T -> T -> T) (u v : list T) : res (list T) :=
  if Nat.eqb (length u) (length v) then Ok (zip_with op u v)
  else
    match u, v with
    | [c], _ => Ok (map (op c) v)
    | _, [c] => Ok (map (fun e => op e c) u)
    | _, _ => Raise ValueError
    end.

(** Line 113: [t = np.arange(1000)]. *)
Definition t : list Z := py_range 0 1000 1.

(** Line 114: [mensaje = 0.5 * np.sin(2 * np.pi * 0.01 * t)]. *)
Definition mensaje : list T :=
  map (fun k =>
         nmul (ndiv num1 (num_of_Z 2))
              (sin (nmul (nmul (nmul (num_of_Z 2) pi) (ndiv num1 (num_of_Z 100)))
                         (num_of_Z k))))
      t.

(** Line 115: [portadora = np.cos(2 * np.pi * 0.1 * t)]. *)
Definition portadora : list T :=
  map (fun k =>
         cos (nmul (nmul (nmul (num_of_Z 2) pi) (ndiv num1 (num_of_Z 10)))
                   (num_of_Z k)))
      t.

(** Line 116, one pass of the comprehension:
    [(1 + mensaje) * portadora + np.random.normal(0, 0.5, 1000)]. *)
Definition fila_am (cursor : N) : res (list T) * N :=
  match ewise nmul (map (nadd num1) mensaje) portadora with
  | Raise e => (Raise e, cursor)
  | Ok senal =>
      match normal gauss num0 (ndiv num1 (num_of_Z 2)) 1000 cursor with
      | (Raise e, c) => (Raise e, c)
      | (Ok ruido, c) => (ewise nadd senal ruido, c)
      end
  end.

Fixpoint filas_am (ts : list Z) (cursor : N) : res (list (list T)) * N :=
  match ts with
  | [] => (Ok [], cursor)
  | _ :: ts' =>
      match fila_am cursor with
      | (Ok r, c) =>
          match filas_am ts' c with
          | (Ok rs, c') => (Ok (r :: rs), c')
          | (Raise e, c') => (Raise e, c')
          end
      | (Raise e, c) => (Raise e, c)
      end
  end.

Definition x_am (cursor : N) : res (ndarray T) * N :=
  match filas_am (py_range 0 n_realizaciones 1) cursor with
  | (Ok rows, c) => (np_array rows, c)
  | (Raise e, c) => (Raise e, c)
  end.

(** One experiment: the ensemble is drawn, bound to a name of the script,
    and handed to [animar_medias_tiempo] with [a=2] and [tau=100]. *)
Definition experimento (ensemble : N -> res (ndarray T) * N) (ticks : nat)
    (st : N * world T) : res unit * (N * world T) :=
  match ensemble (fst st) with
  | (Raise e, c) => (Raise e, (c, snd st))
  | (Ok x, c) =>
      let '(r, w) :=
        (lx ← alloc x;
         animar_medias_tiempo lx n_realizaciones (num_of_Z 2) 100 ticks) (snd st) in
      (r, (c, w))
  end.

(** The script: the three experiments one after the other, each window
    closed after its number of timer ticks; an exception ends the script. *)
Definition script (ticks1 ticks2 ticks3 : nat) (st : N * world T)
    : res unit * (N * world T) :=
  match experimento x_ruido ticks1 st with
  | (Raise e, st1) => (Raise e, st1)
  | (Ok _, st1) =>
      match experimento x_am ticks2 st1 with
      | (Raise e, st2) => (Raise e, st2)
      | (Ok _, st2) => experimento (x_variante gauss) ticks3 st2
      end
  end.

End Experimentos.

(** * Properties *)

(** ** Vocabulary of the statements *)

Section Vocabulary.
Context {T : Type} `{Num T}.

(** [y] is a 2-D array of shape [(R, C)]. *)
Definition has_shape (y : ndarray T) (R C : nat) : Prop :=
  shape y = [R; C] /\ wf y.

(** [y[i][n]] for indices inside the array. *)
Definition entry (y : ndarray T) (i n : nat) : option T :=
  match y with
  | Arr1 _ => None
  | Arr2 _ rows => r ← rows !! i; r !! n
  end.

(** [x[i][k]] read as 0 before the first sample. *)
Definition muestra (x : ndarray T) (i : nat) (k : Z) : T :=
  if k <? 0 then num0 else default num0 (entry x i (Z.to_nat k)).

(** The entries of column [k], one per realization. *)
Definition columna (y : ndarray T) (k : nat) : list T :=
  match y with
  | Arr1 _ => []
  | Arr2 _ rows => map (fun r => nth k r num0) rows
  end.

(** The ensemble mean at column [t], a negative [t] counting from the end
    of the 1000-sample axis. *)
Definition media_conjunto (y : ndarray T) (t : Z) : T :=
  np_mean (columna y (Z.to_nat (t mod 1000))).

(** One row of the FIR output, as [lfilter] computes it. *)
Definition fir_fila (bs : list T) (r : list T) : list T :=
  map (conv_at (map (fun c => ndiv c num1) bs) r) (seq 0 (length r)).

Definition coeficientes (a : T) : list T :=
  [num1; ndiv (num_of_Z (-1)) a; ndiv num1 (nmul (num_of_Z 2) a)].

(** Sample [n] of the FIR output of row [i], operation by operation: the
    coefficients are computed first, [c0 = 1/1], [c1 = (-1/a)/1] and
    [c2 = (1/(2a))/1]; the products [c2 * x[i][n-2]], [c1 * x[i][n-1]] and
    [c0 * x[i][n]] are added to 0 in that order, the products of samples
    before the first one being left out. *)
Definition fir_sample (a : T) (x : ndarray T) (i : nat) (n : Z) : T :=
  let c0 := ndiv num1 num1 in
  let c1 := ndiv (ndiv (num_of_Z (-1)) a) num1 in
  let c2 := ndiv (ndiv num1 (nmul (num_of_Z 2) a)) num1 in
  let p0 := nmul c0 (muestra x i n) in
  let p1 := nmul c1 (muestra x i (n - 1)) in
  let p2 := nmul c2 (muestra x i (n - 2)) in
  if n =? 0 then nadd p0 num0
  else if n =? 1 then nadd p0 (nadd p1 num0)
  else nadd p0 (nadd p1 (nadd p2 num0)).

(** A computation that leaves every array of the store as it found it
    (it may add new ones). *)
Definition preserva {A : Type} (m : M A) : Prop :=
  forall w : world T, heap w ⊆ heap (snd (m w)).

(** The store after the processing step: the two new arrays sit at two
    references that were not in use. *)
Definition ref_fir (w : world T) : loc := fresh (dom (heap w)).
Definition ref_nl (w : world T) (yf : ndarray T) : loc :=
  fresh (dom (<[ref_fir w := yf]> (heap w))).

Definition procesado (w : world T) (yf yn : ndarray T) : world T :=
  World (<[ref_nl w yf := yn]> (<[ref_fir w := yf]> (heap w))) (fig w).

(** The picture before the first frame. *)
Definition lienzo (yf_rows yn_rows : list (list T)) (n : Z) : figure T :=
  Figure (take (Z.to_nat (Z.min n 10)) yf_rows) (take (Z.to_nat (Z.min n 10)) yn_rows)
         [0; 0] [0; 0] [0; 0] [0; 0] "" "".

(** The world when the animation starts, for an ensemble with one
    realization at least. *)
Definition preparado (w : world T) (yf yn : ndarray T) (n : Z) : world T :=
  match yf, yn with
  | Arr2 _ frows, Arr2 _ nrows =>
      World (heap (procesado w yf yn)) (lienzo frows nrows n)
  | _, _ => procesado w yf yn
  end.

(** The picture of a frame that is drawn: the traces stay, the markers of
    both panels stand at [t1] and [t2], and each annotation reports the
    two ensemble means of its panel and the absolute difference. *)
Definition dibujo (g : figure T) (yf yn : ndarray T) (tau frame : Z) : figure T :=
  Figure (fir_lines g) (nl_lines g)
         [t1 frame; t1 frame] [t2 frame tau; t2 frame tau]
         [t1 frame; t1 frame] [t2 frame tau; t2 frame tau]
         (texto "Media FIR" (t1 frame) (t2 frame tau)
                (media_conjunto yf (t1 frame)) (media_conjunto yf (t2 frame tau)))
         (texto "Media x²" (t1 frame) (t2 frame tau)
                (media_conjunto yn (t1 frame)) (media_conjunto yn (t2 frame tau))).

(** The four markers stand where [axvline(0)] put them. *)
Definition sin_mover (g : figure T) : Prop :=
  vline1_fir g = [0; 0] /\ vline2_fir g = [0; 0]
  /\ vline1_nl g = [0; 0] /\ vline2_nl g = [0; 0].

(** The markers of both panels stand at [t] and [t + tau]. *)
Definition marcados (tau t : Z) (g : figure T) : Prop :=
  vline1_fir g = [t; t] /\ vline2_fir g = [t + tau; t + tau]
  /\ vline1_nl g = [t; t] /\ vline2_nl g = [t + tau; t + tau].

(** The row that one call of [normal] with mean 0 and scale [s] returns
    when the generator has handed out [c] variates. *)
Definition fila_normal (gauss : N -> T) (s : T) (c : N) : list T :=
  map (fun k => nadd num0 (nmul s (gauss (c + N.of_nat k)%N))) (seq 0 1000).

Fixpoint filas_desde (gauss : N -> T) (ts : list Z) (c : N) : list (list T) :=
  match ts with
  | [] => []
  | t :: ts' => fila_normal gauss (escala t) c :: filas_desde gauss ts' (c + 1000)%N
  end.

End Vocabulary.

Arguments preserva T {A} m.

(** The row [[1, 2, 3, 4, ...]] of 1000 samples, as an ensemble of one
    realization. *)
Definition rampa {T : Type} `{Num T} : ndarray T :=
  Arr2 1000 [map (fun k => num_of_Z (Z.of_nat k)) (seq 1 1000)].

(** One realization that starts with 4, [-2^54], 1 and goes on with
    zeros. *)
Definition cancelacion {T : Type} `{Num T} : ndarray T :=
  Arr2 1000 [map num_of_Z ([4; -18014398509481984; 1] ++ repeat 0 997)].

(** Three realizations that are 0 after their first sample; the first
    samples are 1, [2^60] and [-2^60]. *)
Definition tres_filas {T : Type} `{Num T} : ndarray T :=
  Arr2 1000 [map num_of_Z (1 :: repeat 0 999);
             map num_of_Z (1152921504606846976 :: repeat 0 999);
             map num_of_Z (-1152921504606846976 :: repeat 0 999)].

(** The integer [m] is within one half of [q]. *)
Definition cerca (m : Z) (q : Q) : Prop :=
  2 * Z.abs (m * Z.pos (Qden q) - Qnum q) <= Z.pos (Qden q).

(** Statements about exact rationals. *)

Section Vocabulary_exact.
Local Open Scope Q_scope.

(** The sample of [r] that lies [d] places before place [k], 0 before the
    first sample. *)
Definition atras (r : list Q) (k d : nat) : Q :=
  if (k <? d)%nat then 0 else nth (k - d) r 0.

(** [r] is a sample of the Gaussian with mean [media] and standard
    deviation [desviacion]: the standard normal variates that the
    generator hands out from [cursor] on, each multiplied by [desviacion]
    and shifted by [media].  There is one [desviacion] for the whole of
    [r]. *)
Definition muestra_normal (gauss : N -> Q) (cursor : N) (media desviacion : Q)
    (r : list Q) : Prop :=
  0 <= desviacion
  /\ Forall2 Qeq r
       (map (fun k => media + desviacion * gauss (cursor + N.of_nat k)%N)
            (seq 0 (length r))).


(** The sum of a list of rationals. *)
Definition suma (l : list Q) : Q := fold_right Qplus 0 l.

End Vocabulary_exact.

(** ** Vocabulary of the further properties *)

(** The rows of a 2-D array. *)
Definition filas {T : Type} (y : ndarray T) : list (list T) :=
  match y with
  | Arr1 _ => []
  | Arr2 _ rows => rows
  end.

(** Two realizations: the row [1, 2, 3, ...] and the row [2, 3, 4, ...]. *)
Definition dos_rampas {T : Type} `{Num T} : ndarray T :=
  Arr2 1000 [map (fun k => num_of_Z (Z.of_nat k)) (seq 1 1000);
             map (fun k => num_of_Z (Z.of_nat k)) (seq 2 1000)].

(** The ensemble mean of [x] at column [k], read as 0 before the first
    sample. *)
Definition media_previa (x : ndarray Q) (k : Z) : Q :=
  if k <? 0 then 0%Q else media_conjunto x k.

(** Two realizations that mirror each other: the row [1, 2, ..., 1000] and
    the row [1000, 999, ..., 1]; their ensemble mean is 1001/2 at every
    column. *)
Definition espejo : ndarray Q :=
  Arr2 1000 [map (fun k => inject_Z (Z.of_nat k)) (seq 1 1000);
             map (fun k => inject_Z (1001 - Z.of_nat k)) (seq 1 1000)].

(** The waveform that the realizations of the AM experiment share: entry
    [k] is [(1 + 0.5 * sin(2 * pi * 0.01 * k)) * cos(2 * pi * 0.1 * k)]. *)
Definition senal_am {T : Type} `{Num T} (pi : T) (sin cos : T -> T) : list T :=
  zip_with nmul (map (nadd num1) (mensaje pi sin)) (portadora pi cos).

(** The rows of the AM ensemble: the shared waveform plus, in each row,
    1000 fresh variates scaled by 0.5. *)
Fixpoint filas_am_desde {T : Type} `{Num T} (gauss : N -> T) (pi : T) (sin cos : T -> T)
    (k : nat) (c : N) : list (list T) :=
  match k with
  | O => []
  | S k' =>
      zip_with nadd (senal_am pi sin cos) (fila_normal gauss (ndiv num1 (num_of_Z 2)) c)
      :: filas_am_desde gauss pi sin cos k' (c + 1000)%N
  end.

(** The rows of the thermal-noise ensemble. *)
Definition filas_ruido {T : Type} `{Num T} (gauss : N -> T) (c : N) : list (list T) :=
  map (fun i : nat =>
         map (fun k : nat =>
                nadd num0 (nmul (num_of_Z 4)
                  (gauss (c + N.of_nat i * N.of_nat 1000 + N.of_nat k)%N)))
             (seq 0 1000))
      (seq 0 3000).

(** ** Ranges and indices *)

Lemma py_range_unit (R : nat) : py_range 0 (Z.of_nat R) 1 = map Z.of_nat (seq 0 R).
Proof.
  unfold py_range.
  replace ((Z.of_nat R - 0 + 1 - 1) / 1) with (Z.of_nat R) by (rewrite Z.div_1_r; lia).
  rewrite Nat2Z.id. apply map_ext. intros k. lia.
Qed.

Lemma py_range_nonpos (n : Z) : n <= 0 -> py_range 0 n 1 = [].
Proof.
  intros Hn. unfold py_range.
  replace (Z.to_nat ((n - 0 + 1 - 1) / 1)) with O; [reflexivity|].
  rewrite Z.div_1_r. lia.
Qed.

Lemma py_range_length (stop : Z) (step : positive) :
  Z.of_nat (length (py_range 0 stop step)) = Z.max 0 ((stop + Z.pos step - 1) / Z.pos step).
Proof.
  unfold py_range. rewrite length_map, length_seq.
  replace (stop - 0 + Z.pos step - 1) with (stop + Z.pos step - 1) by lia.
  lia.
Qed.

Lemma py_range_lookup (stop : Z) (step : positive) (k : nat) (f : Z) :
  py_range 0 stop step !! k = Some f ->
  f = Z.of_nat k * Z.pos step /\ f < stop.
Proof.
  unfold py_range. rewrite list_lookup_fmap.
  destruct (seq 0 _ !! k) as [j|] eqn:E; [|discriminate].
  apply lookup_seq in E as [-> Hlt]. simpl. intros [= <-].
  split; [lia|].
  assert (Hk : Z.of_nat k < (stop - 0 + Z.pos step - 1) / Z.pos step) by lia.
  assert (Hk' : Z.of_nat k + 1 <= (stop - 0 + Z.pos step - 1) / Z.pos step) by lia.
  apply (Z.mul_le_mono_nonneg_r _ _ (Z.pos step)) in Hk'; [|lia].
  pose proof (Z.mul_div_le (stop - 0 + Z.pos step - 1) (Z.pos step) ltac:(lia)).
  lia.
Qed.

Lemma py_range_elem (stop : Z) (step : positive) (f : Z) :
  In f (py_range 0 stop step) <-> (0 <= f < stop /\ (Z.pos step | f)).
Proof.
  split.
  - intros Hin. apply list_elem_of_In, list_elem_of_lookup in Hin as [k Hk].
    apply py_range_lookup in Hk as [-> Hlt].
    repeat split; [lia|lia|]. exists (Z.of_nat k). reflexivity.
  - intros [[H0 Hlt] [q ->]]. unfold py_range. apply in_map_iff.
    exists (Z.to_nat q).
    assert (Hq : 0 <= q) by nia.
    split; [lia|]. apply in_seq. split; [lia|]. simpl.
    assert (q + 1 <= (stop - 0 + Z.pos step - 1) / Z.pos step); [|lia].
    apply Z.div_le_lower_bound; lia.
Qed.

Lemma py_range_sorted (stop : Z) (step : positive) :
  StronglySorted Z.lt (py_range 0 stop step).
Proof.
  unfold py_range. generalize (Z.to_nat ((stop - 0 + Z.pos step - 1) / Z.pos step)).
  intros n. generalize 0%nat as s.
  induction n as [|n IH]; intros s; simpl; constructor.
  - apply IH.
  - apply List.Forall_forall. intros v Hv. apply in_map_iff in Hv as [k [<- Hk]].
    apply in_seq in Hk. nia.
Qed.

Lemma norm_index_nat (k n : nat) : (k < n)%nat -> norm_index (Z.of_nat k) n = Ok k.
Proof.
  intros Hk. unfold norm_index.
  destruct (Z.leb_spec 0 (Z.of_nat k)); [|lia].
  destruct (Z.ltb_spec (Z.of_nat k) (Z.of_nat n)); [|lia].
  rewrite Nat2Z.id. reflexivity.
Qed.

Lemma norm_index_mod (t : Z) (n : nat) :
  - Z.of_nat n <= t < Z.of_nat n -> norm_index t n = Ok (Z.to_nat (t mod Z.of_nat n)).
Proof.
  intros Ht. unfold norm_index.
  destruct (Z.leb_spec 0 t).
  - destruct (Z.ltb_spec t (Z.of_nat n)); [|lia].
    rewrite Z.mod_small by lia. reflexivity.
  - destruct (Z.leb_spec (- Z.of_nat n) t); [|lia].
    replace (t mod Z.of_nat n) with (t + Z.of_nat n); [reflexivity|].
    apply Z.mod_unique with (q := -1); lia.
Qed.

Lemma norm_index_out (t : Z) (n : nat) :
  Z.of_nat n <= t -> norm_index t n = Raise IndexError.
Proof.
  intros Ht. unfold norm_index.
  destruct (Z.leb_spec 0 t); [|lia].
  destruct (Z.ltb_spec t (Z.of_nat n)); [lia|reflexivity].
Qed.

Lemma py_range_last (stop : Z) :
  0 < stop -> last (py_range 0 stop 10) = Some (10 * ((stop - 1) / 10)).
Proof.
  intros Hs. rewrite last_lookup. unfold py_range.
  rewrite length_map, length_seq, list_lookup_fmap.
  replace (stop - 0 + Z.pos 10 - 1) with ((stop - 1) + 1 * 10) by lia.
  rewrite Z.div_add by lia.
  assert (0 <= (stop - 1) / 10) by (apply Z.div_pos; lia).
  rewrite (proj2 (lookup_seq 0 _ _ (Nat.pred (Z.to_nat ((stop - 1) / 10 + 1))))) by lia.
  simpl. f_equal. lia.
Qed.

(** ** Three decimals *)

Lemma round_half_even_cerca (q : Q) : cerca (round_half_even q) q.
Proof.
  unfold cerca, round_half_even.
  pose proof (Z.div_mod (Qnum q) (Z.pos (Qden q)) ltac:(lia)) as Hdm.
  pose proof (Z.mod_pos_bound (Qnum q) (Z.pos (Qden q)) ltac:(lia)) as Hb.
  set (d := Z.pos (Qden q)) in *. set (n := Qnum q) in *.
  set (fl := n / d) in *. set (r := n mod d) in *.
  destruct (Z.ltb_spec (2 * r) d); [nia|].
  destruct (Z.ltb_spec d (2 * r)); [nia|].
  destruct (Z.even fl); nia.
Qed.

Lemma round_half_even_nonneg (q : Q) : 0 <= Qnum q -> 0 <= round_half_even q.
Proof.
  intros Hq. unfold round_half_even.
  assert (0 <= Qnum q / Z.pos (Qden q)) by (apply Z.div_pos; lia).
  repeat match goal with |- context [if ?c then _ else _] => destruct c end; lia.
Qed.

(** The fractional part is printed with three digits, whatever it is. *)
Lemma pad3_length (n : Z) : 0 <= n < 1000 -> String.length (pad3 n) = 3%nat.
Proof.
  intros Hn.
  assert (Hall : forallb (fun k => Nat.eqb (String.length (pad3 (Z.of_nat k))) 3)
                         (seq 0 1000) = true) by (vm_compute; reflexivity).
  rewrite forallb_forall in Hall.
  specialize (Hall (Z.to_nat n)). rewrite Z2Nat.id in Hall by lia.
  apply Nat.eqb_eq, Hall. apply in_seq. lia.
Qed.

Lemma fmt3f_Q_decimals (q : Q) :
  exists m : Z,
    0 <= m /\ cerca m (Qmult (Qabs q) (1000 # 1))
    /\ String.length (pad3 (m mod 1000)) = 3%nat
    /\ fmt3f q = (if Qnum q <? 0 then "-"%string else ""%string)
                   +:+ pretty (m / 1000) +:+ "."%string +:+ pad3 (m mod 1000).
Proof.
  exists (round_half_even (Qmult (Qabs q) (1000 # 1))).
  split; [|split; [|split]].
  - apply round_half_even_nonneg. destruct q as [[|n|n] d]; simpl; lia.
  - apply round_half_even_cerca.
  - apply pad3_length. apply Z.mod_pos_bound. lia.
  - reflexivity.
Qed.

(** ** Comprehensions *)

Lemma traverse_map {A B : Type} (f : A -> res B) (g : A -> B) (l : list A) :
  (forall v, In v l -> f v = Ok (g v)) -> traverse f l = Ok (map g l).
Proof.
  induction l as [|v l IH]; intros Hf; simpl; [reflexivity|].
  rewrite (Hf v) by (left; reflexivity). simpl.
  rewrite IH by (intros u Hu; apply Hf; right; exact Hu). reflexivity.
Qed.

(** ** The order of the additions *)

Section Sums.
Context {T : Type} `{Num T}.

Lemma halves_shorter (n : nat) :
  (128 < n)%nat ->
  (0 < n / 2 - (n / 2) mod 8 < n)%nat.
Proof.
  intros Hn.
  pose proof (Nat.div_mod_eq n 2) as E2.
  pose proof (Nat.mod_upper_bound n 2 ltac:(lia)) as B2.
  pose proof (Nat.div_mod_eq (n / 2) 8) as E8.
  pose proof (Nat.mod_upper_bound (n / 2) 8 ltac:(lia)) as B8.
  lia.
Qed.

(** Fuel beyond the length of the array changes nothing. *)
Lemma pairwise_sum_fuel (f1 f2 : nat) (a : list T) :
  (length a <= f1)%nat -> (length a <= f2)%nat ->
  pairwise_sum f1 a = pairwise_sum f2 a.
Proof.
  revert f2 a. induction f1 as [|f1 IH]; intros f2 a H1 H2.
  - destruct a; [|simpl in H1; lia]. destruct f2; reflexivity.
  - destruct f2 as [|f2].
    { destruct a; [reflexivity|simpl in H2; lia]. }
    cbn [pairwise_sum].
    destruct (Nat.ltb_spec (length a) 8); [reflexivity|].
    destruct (Nat.leb_spec (length a) 128); [reflexivity|].
    destruct (halves_shorter (length a) ltac:(lia)) as [Hpos Hlt].
    f_equal; apply IH; rewrite ?length_take, ?length_drop; lia.
Qed.

End Sums.

Section Sums_exact.
Local Open Scope Q_scope.

Lemma suma_nil : suma [] = 0.
Proof. reflexivity. Qed.

Lemma suma_cons (v : Q) (l : list Q) : suma (v :: l) = v + suma l.
Proof. reflexivity. Qed.

Lemma suma_app (l1 l2 : list Q) : suma (l1 ++ l2) == suma l1 + suma l2.
Proof.
  induction l1 as [|v l1 IH]; cbn [app].
  - rewrite suma_nil. ring.
  - rewrite !suma_cons, IH. ring.
Qed.

Lemma fold_left_suma (l : list Q) (acc : Q) : fold_left Qplus l acc == acc + suma l.
Proof.
  revert acc. induction l as [|v l IH]; intros acc; cbn [fold_left].
  - rewrite suma_nil. ring.
  - rewrite IH, suma_cons. ring.
Qed.

Lemma suma_zip_with (r l : list Q) :
  length r = length l -> suma (zip_with Qplus r l) == suma r + suma l.
Proof.
  revert l. induction r as [|u r IH]; intros [|v l] Hlen; try discriminate.
  - cbn [zip_with]. rewrite suma_nil. ring.
  - cbn [zip_with]. rewrite !suma_cons, IH by (simpl in Hlen; lia). ring.
Qed.

Lemma running_sums_suma (k : nat) (r l : list Q) :
  length r = 8%nat -> (8 * k <= length l)%nat ->
  length (fst (running_sums k r l)) = 8%nat
  /\ suma (fst (running_sums k r l)) + suma (snd (running_sums k r l)) == suma r + suma l.
Proof.
  revert r l. induction k as [|k IH]; intros r l Hr Hl; cbn [running_sums fst snd].
  - split; [exact Hr|reflexivity].
  - assert (Ht : length (take 8 l) = 8%nat) by (rewrite length_take; lia).
    destruct (IH (zip_with nadd r (take 8 l)) (drop 8 l)) as [H8 Hs].
    + rewrite length_zip_with. lia.
    + rewrite length_drop. lia.
    + split; [exact H8|]. rewrite Hs.
      change (@nadd Q Q_Num) with Qplus.
      rewrite suma_zip_with by lia.
      rewrite <- (take_drop 8 l) at 3. rewrite suma_app. ring.
Qed.

Lemma sum_of_8_suma (r : list Q) : length r = 8%nat -> sum_of_8 r == suma r.
Proof.
  intros Hr. do 8 (destruct r as [|? r]; [discriminate|]).
  destruct r; [|discriminate]. cbn [sum_of_8]. change (@nadd Q Q_Num) with Qplus.
  rewrite !suma_cons, suma_nil. ring.
Qed.

Lemma block_sum_suma (a : list Q) : (8 <= length a)%nat -> block_sum a == suma a.
Proof.
  intros Ha. unfold block_sum.
  destruct (running_sums_suma (length a / 8 - 1) (take 8 a) (drop 8 a)) as [H8 Hs].
  - rewrite length_take. lia.
  - rewrite length_drop.
    pose proof (Nat.div_mod_eq (length a) 8). lia.
  - destruct (running_sums (length a / 8 - 1) (take 8 a) (drop 8 a)) as [r rest].
    cbn [fst snd] in *. change (@nadd Q Q_Num) with Qplus.
    rewrite fold_left_suma, (sum_of_8_suma r H8), Hs.
    rewrite <- (take_drop 8 a) at 3. rewrite suma_app. reflexivity.
Qed.

Lemma pairwise_sum_suma (fuel : nat) (a : list Q) : pairwise_sum fuel a == suma a.
Proof.
  revert a. induction fuel as [|fuel IH]; intros a; cbn [pairwise_sum];
    change (@nadd Q Q_Num) with Qplus; change (@num0 Q Q_Num) with 0.
  - destruct (Nat.ltb_spec (length a) 8); [rewrite fold_left_suma; ring|].
    destruct (Nat.leb_spec (length a) 128); [apply block_sum_suma; lia|].
    rewrite fold_left_suma. ring.
  - destruct (Nat.ltb_spec (length a) 8); [rewrite fold_left_suma; ring|].
    destruct (Nat.leb_spec (length a) 128); [apply block_sum_suma; lia|].
    rewrite !IH, <- suma_app, take_drop. reflexivity.
Qed.

(** On exact rationals [np.sum] is the sum, whatever the order. *)
Lemma np_sum_suma (l : list Q) : np_sum l == suma l.
Proof.
  unfold np_sum. change (@nadd Q Q_Num) with Qplus. change (@num0 Q Q_Num) with 0.
  rewrite pairwise_sum_suma. ring.
Qed.

Lemma np_sum_cons (v : Q) (l : list Q) : np_sum (v :: l) == v + np_sum l.
Proof. rewrite !np_sum_suma. reflexivity. Qed.

Lemma np_sum_nil : np_sum ([] : list Q) == 0.
Proof. rewrite np_sum_suma. reflexivity. Qed.

End Sums_exact.

(** ** The processing step *)

Section Processing_facts.
Context {T : Type} `{Num T}.

Lemma has_shape_inv (y : ndarray T) (R C : nat) :
  has_shape y R C ->
  exists rows, y = Arr2 C rows /\ length rows = R /\ Forall (fun r => length r = C) rows.
Proof.
  intros [Hs Hw]. destruct y as [v|c rows]; simpl in Hs; [discriminate|].
  injection Hs as HR HC. subst c. exists rows. auto.
Qed.

Lemma has_shape_intro (C : nat) (rows : list (list T)) :
  Forall (fun r => length r = C) rows -> has_shape (Arr2 C rows) (length rows) C.
Proof. intros Hw. split; [reflexivity|exact Hw]. Qed.

Lemma b_ok (a : T) : is_zero a = false -> b a = Ok (coeficientes a).
Proof. intros Ha. unfold b. rewrite Ha, andb_false_r. reflexivity. Qed.


Lemma fir_fila_length (bs r : list T) : length (fir_fila bs r) = length r.
Proof. unfold fir_fila. rewrite length_map, length_seq. reflexivity. Qed.

Lemma lfilter_row (bs r : list T) :
  bs <> [] -> r <> [] -> lfilter bs num1 (Row r) = Ok (fir_fila bs r).
Proof.
  intros Hb Hr. unfold lfilter, convolve.
  destruct bs as [|b0 bs]; [congruence|].
  destruct r as [|x0 r]; [congruence|].
  cbn [map mbind res_bind]. f_equal.
  rewrite !length_map, length_seq. cbn [length].
  rewrite firstn_map, take_seq. unfold fir_fila. cbn [length map].
  f_equal. f_equal. lia.
Qed.

Lemma getitem_row (c : nat) (rows : list (list T)) (i : nat) (r : list T) :
  rows !! i = Some r -> getitem (Arr2 c rows) (Z.of_nat i) = Ok (Row r).
Proof.
  intros Hi. unfold getitem.
  rewrite norm_index_nat by (apply lookup_lt_Some in Hi; exact Hi).
  simpl. rewrite Hi. reflexivity.
Qed.

Lemma getitem_out (c : nat) (rows : list (list T)) (i : Z) :
  Z.of_nat (length rows) <= i -> getitem (Arr2 c rows) i = Raise IndexError.
Proof. intros Hi. unfold getitem. rewrite norm_index_out by exact Hi. reflexivity. Qed.

Lemma map_indices_take {A B : Type} (h : A -> B) (d : A) (l : list A) (k : nat) :
  (k <= length l)%nat ->
  map (fun i : Z => h (nth (Z.to_nat i) l d)) (map Z.of_nat (seq 0 k)) = map h (take k l).
Proof.
  intros Hk. rewrite map_map. apply list_eq. intros i.
  rewrite !list_lookup_fmap.
  destruct (Nat.lt_ge_cases i k) as [Hi|Hi].
  - rewrite (proj2 (lookup_seq 0 k i i)) by (split; [reflexivity|exact Hi]).
    rewrite lookup_take_lt by exact Hi.
    destruct (l !! i) as [v|] eqn:E.
    + simpl. rewrite Nat2Z.id. f_equal.
      apply nth_lookup_Some with (d := d) in E. rewrite E. reflexivity.
    + apply lookup_ge_None in E. lia.
  - rewrite (proj2 (lookup_ge_None (seq 0 k) i)) by (rewrite length_seq; exact Hi).
    rewrite lookup_take_ge by exact Hi. reflexivity.
Qed.

Lemma map_indices {A B : Type} (h : A -> B) (d : A) (l : list A) :
  map (fun i : Z => h (nth (Z.to_nat i) l d)) (map Z.of_nat (seq 0 (length l))) = map h l.
Proof.
  rewrite (map_indices_take h d l (length l)) by reflexivity.
  rewrite firstn_all. reflexivity.
Qed.

(** The comprehension of line 30 on an ensemble with as many rows as
    [n_realizaciones] says: every row is filtered. *)
Lemma filas_filtradas (c : nat) (rows : list (list T)) (bs : list T) :
  bs <> [] -> Forall (fun r => r <> []) rows ->
  traverse (fun i => xi ← getitem (Arr2 c rows) i; lfilter bs num1 xi)
           (py_range 0 (Z.of_nat (length rows)) 1)
  = Ok (map (fir_fila bs) rows).
Proof.
  intros Hb Hne. rewrite py_range_unit.
  rewrite <- (map_indices (fir_fila bs) [] rows).
  apply traverse_map. intros v Hv.
  apply in_map_iff in Hv as [i [<- Hi]]. apply in_seq in Hi.
  destruct (rows !! i) as [r|] eqn:E.
  - rewrite (getitem_row c rows i r E). simpl.
    rewrite Nat2Z.id, (nth_lookup_Some _ _ [] _ E).
    apply lfilter_row; [exact Hb|].
    rewrite List.Forall_forall in Hne. apply Hne.
    apply list_elem_of_In, list_elem_of_lookup. exists i. exact E.
  - apply lookup_ge_None in E. lia.
Qed.

Lemma np_array_uniform (c : nat) (rows : list (list T)) :
  rows <> [] -> Forall (fun r => length r = c) rows -> np_array rows = Ok (Arr2 c rows).
Proof.
  intros Hne Hw. destruct rows as [|r rows]; [congruence|].
  unfold np_array.
  assert (Hr : length r = c) by (inversion Hw; assumption).
  replace (forallb (fun r' => Nat.eqb (length r') (length r)) (r :: rows)) with true.
  - rewrite Hr. reflexivity.
  - symmetry. apply forallb_forall. intros r' Hr'.
    rewrite List.Forall_forall in Hw. rewrite (Hw r' Hr'), Hr. apply Nat.eqb_refl.
Qed.

Lemma y_fir_filas (c : nat) (rows : list (list T)) (a : T) :
  is_zero a = false -> (0 < c)%nat -> Forall (fun r => length r = c) rows ->
  y_fir (Arr2 c rows) (Z.of_nat (length rows)) a
  = np_array (map (fir_fila (coeficientes a)) rows).
Proof.
  intros Ha Hc Hw. unfold y_fir. rewrite (b_ok a Ha). cbn [mbind res_bind].
  rewrite filas_filtradas; [reflexivity|discriminate|].
  eapply Forall_impl; [exact Hw|]. simpl. intros r Hr ->. simpl in Hr. lia.
Qed.

Lemma y_fir_shape (c : nat) (rows : list (list T)) (a : T) :
  is_zero a = false -> (0 < c)%nat -> rows <> [] ->
  Forall (fun r => length r = c) rows ->
  y_fir (Arr2 c rows) (Z.of_nat (length rows)) a
  = Ok (Arr2 c (map (fir_fila (coeficientes a)) rows)).
Proof.
  intros Ha Hc Hne Hw. rewrite (y_fir_filas c rows a Ha Hc Hw).
  apply np_array_uniform.
  - destruct rows; [congruence|discriminate].
  - apply Forall_map. eapply Forall_impl; [exact Hw|].
    simpl. intros r Hr. rewrite fir_fila_length. exact Hr.
Qed.

Lemma y_fir_empty (c : nat) (a : T) :
  is_zero a = false -> y_fir (Arr2 c []) 0 a = Ok (Arr1 []).
Proof. intros Ha. unfold y_fir. rewrite (b_ok a Ha). reflexivity. Qed.

Lemma power2_shape (y : ndarray T) : shape (power2 y) = shape y.
Proof. destruct y; simpl; rewrite length_map; reflexivity. Qed.

Lemma power2_wf (y : ndarray T) : wf y -> wf (power2 y).
Proof.
  destruct y as [v|c rows]; simpl; [trivial|]. intros Hw.
  apply Forall_map. eapply Forall_impl; [exact Hw|].
  simpl. intros r Hr. rewrite length_map. exact Hr.
Qed.

Lemma entry_power2 (y : ndarray T) (i n : nat) :
  entry (power2 y) i n = square <$> entry y i n.
Proof.
  destruct y as [v|c rows]; simpl; [reflexivity|].
  rewrite list_lookup_fmap. destruct (rows !! i) as [r|]; simpl; [|reflexivity].
  apply list_lookup_fmap.
Qed.

End Processing_facts.

(** ** The FIR difference equation, on exact rationals *)

Section FIR_exact.
Local Open Scope Q_scope.

Lemma is_zero_Q (a : Q) : ~ a == 0 -> is_zero a = false.
Proof.
  intros Ha. simpl. destruct (Qeq_bool a 0) eqn:E; [|reflexivity].
  apply Qeq_bool_eq in E. contradiction.
Qed.

Lemma conv_at_fir (a : Q) (r : list Q) (k : nat) :
  ~ a == 0 ->
  conv_at (map (fun c => ndiv c num1) (coeficientes a)) r k
  == atras r k 0 - atras r k 1 / a + atras r k 2 / (2 * a).
Proof.
  intros Ha. unfold coeficientes, atras. cbn [map conv_at].
  change (@num0 Q Q_Num) with 0. change (@num1 Q Q_Num) with 1.
  cbn [ndiv nmul nadd num_of_Z Q_Num].
  change (inject_Z 2) with 2. change (inject_Z (-1)) with (-1 # 1).
  destruct k as [|[|k]]; cbn [Nat.ltb Nat.leb Nat.sub].
  - field. exact Ha.
  - field. exact Ha.
  - rewrite !Nat.sub_0_r. destruct k; field; exact Ha.
Qed.

Lemma muestra_atras (c : nat) (rows : list (list Q)) (i : nat) (r : list Q) (k d : nat) :
  rows !! i = Some r ->
  muestra (Arr2 c rows) i (Z.of_nat k - Z.of_nat d) = atras r k d.
Proof.
  intros Hi. unfold muestra, atras, entry. rewrite Hi. cbn [mbind option_bind].
  destruct (Nat.ltb_spec k d).
  - destruct (Z.ltb_spec (Z.of_nat k - Z.of_nat d) 0); [reflexivity|lia].
  - destruct (Z.ltb_spec (Z.of_nat k - Z.of_nat d) 0); [lia|].
    replace (Z.to_nat (Z.of_nat k - Z.of_nat d)) with (k - d)%nat by lia.
    rewrite nth_lookup. reflexivity.
Qed.

End FIR_exact.

(** ** The store *)

Section Store_facts.
Context {T : Type} `{Num T}.

Lemma preserva_ret {A : Type} (v : A) : preserva T (mret v).
Proof. intros w. reflexivity. Qed.

Lemma preserva_lift {A : Type} (r : res A) : preserva T (lift r).
Proof. intros w. reflexivity. Qed.

Lemma preserva_read (l : loc) : preserva T (read l).
Proof. intros w. unfold read. destruct (heap w !! l); reflexivity. Qed.

Lemma preserva_get_fig : preserva T get_fig.
Proof. intros w. reflexivity. Qed.

Lemma preserva_set_fig (g : figure T) : preserva T (set_fig g).
Proof. intros w. reflexivity. Qed.

Lemma fresh_unused (w : world T) : heap w !! fresh (dom (heap w)) = None.
Proof. apply not_elem_of_dom. apply is_fresh. Qed.

Lemma preserva_alloc (y : ndarray T) : preserva T (alloc y).
Proof. intros w. simpl. apply insert_subseteq. apply fresh_unused. Qed.

Lemma preserva_bind {A B : Type} (m : M A) (k : A -> M B) :
  preserva T m -> (forall v, preserva T (k v)) -> preserva T (m ≫= k).
Proof.
  intros Hm Hk w. unfold mbind, M_bind.
  specialize (Hm w). destruct (m w) as [[v|e] w']; simpl in *.
  - etransitivity; [exact Hm|]. apply Hk.
  - exact Hm.
Qed.

Lemma preserva_for_each {A : Type} (body : A -> M (list artist)) (l : list A) :
  (forall v, preserva T (body v)) -> preserva T (for_each body l).
Proof.
  intros Hb. induction l as [|v l IH]; simpl.
  - apply preserva_ret.
  - apply preserva_bind; [apply Hb|]. intros _. exact IH.
Qed.

Lemma preserva_procesar (x : loc) (n : Z) (a : T) : preserva T (procesar x n a).
Proof.
  unfold procesar.
  repeat (first [ apply preserva_ret | apply preserva_read | apply preserva_lift
                | apply preserva_alloc | apply preserva_bind | intro ]).
Qed.

Lemma preserva_crear_figura (ly_fir ly_nl : loc) (n : Z) :
  preserva T (crear_figura ly_fir ly_nl n).
Proof.
  unfold crear_figura.
  repeat (first [ apply preserva_set_fig | apply preserva_read | apply preserva_lift
                | apply preserva_bind | intro ]).
Qed.

Lemma preserva_update (ly_fir ly_nl : loc) (tau frame : Z) :
  preserva T (update ly_fir ly_nl tau frame).
Proof.
  unfold update. destruct (t2 frame tau >=? 1000); [apply preserva_ret|].
  repeat (first [ apply preserva_ret | apply preserva_set_fig | apply preserva_get_fig
                | apply preserva_read | apply preserva_lift
                | apply preserva_bind | intro ]).
Qed.

Lemma preserva_in_event_loop {A : Type} (m : M A) :
  preserva T m -> preserva T (in_event_loop m).
Proof.
  intros Hm w. specialize (Hm w). unfold in_event_loop.
  destruct (m w) as [[v|e] w']; exact Hm.
Qed.

(** The event loop stops at the first callback that raises. *)
Lemma for_each_in_event_loop {A : Type} (body : A -> M (list artist)) (l : list A)
    (w : world T) :
  for_each (fun v => in_event_loop (body v)) l w = in_event_loop (for_each body l) w.
Proof.
  revert w. induction l as [|v l IH]; intros w; [reflexivity|].
  cbn [for_each]. unfold mbind, M_bind. unfold in_event_loop at 1.
  destruct (body v w) as [[arts|e] w1] eqn:Hb.
  - rewrite IH. unfold in_event_loop. cbn [for_each]. unfold mbind, M_bind.
    rewrite Hb. reflexivity.
  - unfold in_event_loop. cbn [for_each]. unfold mbind, M_bind. rewrite Hb. reflexivity.
Qed.

Lemma preserva_show (ly_fir ly_nl : loc) (tau : Z) (ticks : nat) :
  preserva T (show (FuncAnimation ly_fir ly_nl tau) ticks).
Proof.
  unfold show. apply preserva_bind.
  - apply preserva_for_each. intros f. apply preserva_update.
  - intros _. apply preserva_for_each. intros f.
    apply preserva_in_event_loop, preserva_update.
Qed.

Lemma preserva_preparar (x : loc) (n : Z) (a : T) : preserva T (preparar x n a).
Proof.
  unfold preparar.
  apply preserva_bind; [apply preserva_procesar|]. intros [ly_fir ly_nl].
  apply preserva_bind; [apply preserva_crear_figura|]. intros _.
  apply preserva_ret.
Qed.

Lemma preserva_animar (x : loc) (n : Z) (a : T) (tau : Z) (ticks : nat) :
  preserva T (animar_medias_tiempo x n a tau ticks).
Proof.
  unfold animar_medias_tiempo.
  apply preserva_bind; [apply preserva_preparar|]. intros [ly_fir ly_nl].
  apply preserva_show.
Qed.

Lemma procesar_ok (w : world T) (lx : loc) (x yf : ndarray T) (n : Z) (a : T) :
  heap w !! lx = Some x -> y_fir x n a = Ok yf ->
  procesar lx n a w = (Ok (ref_fir w, ref_nl w yf), procesado w yf (y_nl x)).
Proof.
  intros Hx Hy. unfold procesar, mbind, M_bind, read, lift, alloc.
  rewrite Hx, Hy. cbn [heap fig].
  rewrite lookup_insert_ne.
  - rewrite Hx. reflexivity.
  - intros E. pose proof (fresh_unused w) as Hf. rewrite E, Hx in Hf. discriminate.
Qed.

Lemma procesar_raise (w : world T) (lx : loc) (x : ndarray T) (n : Z) (a : T) (e : exn) :
  heap w !! lx = Some x -> y_fir x n a = Raise e ->
  procesar lx n a w = (Raise e, w).
Proof.
  intros Hx Hy. unfold procesar, mbind, M_bind, read, lift.
  rewrite Hx, Hy. reflexivity.
Qed.

Lemma ref_fir_fresh (w : world T) : heap w !! ref_fir w = None.
Proof. apply fresh_unused. Qed.

Lemma ref_nl_fresh (w : world T) (yf : ndarray T) :
  heap w !! ref_nl w yf = None /\ ref_nl w yf <> ref_fir w.
Proof.
  pose proof (fresh_unused (World (<[ref_fir w := yf]> (heap w)) (fig w))) as Hf.
  cbn [heap] in Hf. fold (ref_nl w yf) in Hf.
  apply lookup_insert_None in Hf as [Hf Hne]. split; [exact Hf|]. congruence.
Qed.

Lemma procesado_fir (w : world T) (yf yn : ndarray T) :
  heap (procesado w yf yn) !! ref_fir w = Some yf.
Proof.
  unfold procesado. cbn [heap].
  rewrite lookup_insert_ne by (apply (ref_nl_fresh w yf)).
  apply lookup_insert_eq.
Qed.

Lemma procesado_nl (w : world T) (yf yn : ndarray T) :
  heap (procesado w yf yn) !! ref_nl w yf = Some yn.
Proof. unfold procesado. cbn [heap]. apply lookup_insert_eq. Qed.

End Store_facts.

(** ** The figure and its frames *)

Section Figure_facts.
Context {T : Type} `{Num T}.

Lemma trazas_ok (c : nat) (rows : list (list T)) (n : Z) :
  Forall (fun r => length r = 1000%nat) rows -> n <= Z.of_nat (length rows) ->
  traverse (fun i => r ← getitem (Arr2 c rows) i; plot r) (py_range 0 n 1)
  = Ok (take (Z.to_nat n) rows).
Proof.
  intros Hw Hn. destruct (Z.le_gt_cases n 0) as [Hle|Hgt].
  - rewrite py_range_nonpos by exact Hle.
    replace (Z.to_nat n) with O by lia. reflexivity.
  - replace n with (Z.of_nat (Z.to_nat n)) at 1 by lia. rewrite py_range_unit.
    rewrite <- (map_id (take (Z.to_nat n) rows)).
    rewrite <- (map_indices_take (fun r => r) [] rows (Z.to_nat n)) by lia.
    apply traverse_map. intros v Hv.
    apply in_map_iff in Hv as [i [<- Hi]]. apply in_seq in Hi.
    destruct (rows !! i) as [r|] eqn:E.
    + rewrite (getitem_row c rows i r E). cbn [mbind res_bind].
      rewrite Nat2Z.id, (nth_lookup_Some _ _ [] _ E). unfold plot.
      rewrite List.Forall_forall in Hw.
      rewrite (Hw r) by (apply list_elem_of_In, list_elem_of_lookup; exists i; exact E).
      reflexivity.
    + apply lookup_ge_None in E. lia.
Qed.

Lemma crear_figura_ok (w : world T) (lf ln : loc) (frows nrows : list (list T)) (n : Z) :
  heap w !! lf = Some (Arr2 1000 frows) -> heap w !! ln = Some (Arr2 1000 nrows) ->
  Forall (fun r => length r = 1000%nat) frows ->
  Forall (fun r => length r = 1000%nat) nrows ->
  n <= Z.of_nat (length frows) -> n <= Z.of_nat (length nrows) ->
  crear_figura lf ln n w = (Ok tt, World (heap w) (lienzo frows nrows n)).
Proof.
  intros Hf Hn Hwf Hwn Hlf Hln.
  pose proof (trazas_ok 1000 frows (Z.min n 10) Hwf ltac:(lia)) as Ef.
  pose proof (trazas_ok 1000 nrows (Z.min n 10) Hwn ltac:(lia)) as En.
  unfold crear_figura, mbind, M_bind, read, lift, set_fig in *.
  rewrite Hf, Ef, Hn, En. reflexivity.
Qed.

Lemma column_ok (rows : list (list T)) (t : Z) :
  -1000 <= t < 1000 ->
  column (Arr2 1000 rows) t = Ok (columna (Arr2 1000 rows) (Z.to_nat (t mod 1000))).
Proof.
  intros Ht. unfold column. rewrite norm_index_mod by lia. reflexivity.
Qed.

Lemma column_out (c : nat) (rows : list (list T)) (t : Z) :
  Z.of_nat c <= t -> column (Arr2 c rows) t = Raise IndexError.
Proof. intros Ht. unfold column. rewrite norm_index_out by exact Ht. reflexivity. Qed.

Lemma update_skip (w : world T) (lf ln : loc) (tau frame : Z) :
  1000 <= frame + tau -> update lf ln tau frame w = (Ok [], w).
Proof.
  intros Ht. unfold update, t2.
  destruct (Z.geb_spec (frame + tau) 1000); [reflexivity|lia].
Qed.

Lemma update_draw (w : world T) (lf ln : loc) (frows nrows : list (list T)) (tau frame : Z) :
  heap w !! lf = Some (Arr2 1000 frows) -> heap w !! ln = Some (Arr2 1000 nrows) ->
  -1000 <= frame < 1000 -> -1000 <= frame + tau < 1000 ->
  let g := dibujo (fig w) (Arr2 1000 frows) (Arr2 1000 nrows) tau frame in
  update lf ln tau frame w = (Ok (artistas g), World (heap w) g).
Proof.
  intros Hf Hn Ht1 Ht2 g. unfold update.
  destruct (Z.geb_spec (t2 frame tau) 1000) as [Hge|_]; [unfold t2 in Hge; lia|].
  unfold mbind, M_bind, read, lift, get_fig, set_fig.
  rewrite Hf, !column_ok by (unfold t1, t2; lia).
  rewrite Hn, !column_ok by (unfold t1, t2; lia).
  reflexivity.
Qed.

(** With a 1-D array in the top panel no column can be taken. *)
Lemma update_vec (w : world T) (lf ln : loc) (v : list T) (tau frame : Z) :
  heap w !! lf = Some (Arr1 v) -> frame + tau < 1000 ->
  update lf ln tau frame w = (Raise IndexError, w).
Proof.
  intros Hf Ht. unfold update.
  destruct (Z.geb_spec (t2 frame tau) 1000) as [Hge|_]; [unfold t2 in Hge; lia|].
  unfold mbind, M_bind, read, lift. rewrite Hf. reflexivity.
Qed.

Lemma update_t1_out (w : world T) (lf ln : loc) (rows : list (list T)) (tau frame : Z) :
  heap w !! lf = Some (Arr2 1000 rows) -> frame + tau < 1000 -> 1000 <= frame ->
  update lf ln tau frame w = (Raise IndexError, w).
Proof.
  intros Hf Ht Hfr. unfold update.
  destruct (Z.geb_spec (t2 frame tau) 1000) as [Hge|_]; [unfold t2 in Hge; lia|].
  unfold mbind, M_bind, read, lift. rewrite Hf.
  rewrite column_out by (unfold t1; simpl; lia). reflexivity.
Qed.

End Figure_facts.

(** * The claims *)

Section FIR_samples.
Context {T : Type} `{Num T}.

Lemma muestra_nth (c : nat) (rows : list (list T)) (i : nat) (r : list T) (n : Z) :
  rows !! i = Some r -> 0 <= n ->
  muestra (Arr2 c rows) i n = nth (Z.to_nat n) r num0.
Proof.
  intros Hi Hn. unfold muestra, entry. rewrite Hi. cbn [mbind option_bind].
  destruct (Z.ltb_spec n 0); [lia|]. rewrite nth_lookup. reflexivity.
Qed.

Lemma conv_at_sample (a : T) (c : nat) (rows : list (list T)) (i : nat) (r : list T)
    (n : Z) :
  rows !! i = Some r -> 0 <= n ->
  conv_at (map (fun v => ndiv v num1) (coeficientes a)) r (Z.to_nat n)
  = fir_sample a (Arr2 c rows) i n.
Proof.
  intros Hi Hn. unfold fir_sample.
  destruct (Z.eqb_spec n 0) as [->|H0].
  { rewrite (muestra_nth c rows i r 0 Hi) by lia. reflexivity. }
  destruct (Z.eqb_spec n 1) as [->|H1].
  { rewrite (muestra_nth c rows i r 1 Hi), (muestra_nth c rows i r (1 - 1) Hi) by lia.
    reflexivity. }
  rewrite (muestra_nth c rows i r n Hi), (muestra_nth c rows i r (n - 1) Hi),
    (muestra_nth c rows i r (n - 2) Hi) by lia.
  replace (Z.to_nat n) with (S (S (Z.to_nat (n - 2)))) by lia.
  replace (Z.to_nat (n - 1)) with (S (Z.to_nat (n - 2))) by lia.
  cbn [coeficientes map conv_at]. destruct (Z.to_nat (n - 2)); reflexivity.
Qed.

Lemma entry_fir (a : T) (rows : list (list T)) (i : nat) (r : list T) (n : Z) :
  rows !! i = Some r -> 0 <= n < Z.of_nat (length r) ->
  entry (Arr2 1000 (map (fir_fila (coeficientes a)) rows)) i (Z.to_nat n)
  = Some (conv_at (map (fun v => ndiv v num1) (coeficientes a)) r (Z.to_nat n)).
Proof.
  intros Hi Hn. unfold entry. rewrite list_lookup_fmap, Hi.
  cbn [fmap option_fmap option_map mbind option_bind].
  unfold fir_fila. rewrite list_lookup_fmap.
  rewrite (proj2 (lookup_seq 0 (length r) (Z.to_nat n) (Z.to_nat n)))
    by (split; [reflexivity|lia]).
  reflexivity.
Qed.

End FIR_samples.

(** C1 as stated fails on binary64, the numbers of the program: the output
    is a sum of rounded products by rounded coefficients, not the value of
    the formula.  On the row [1, 2, 3, 4, ...] with [a = 3] the output at
    [n = 3] is 3.333333333333333 (7505999378950826 * 2^-51), while
    [4 - 3/3 + 2/(2*3)] evaluates to 3.3333333333333335
    (7505999378950827 * 2^-51) in binary64.  On the row [4, -2^54, 1, 0, ...]
    with [a = 2] the formula is worth [2^53 + 2] at [n = 2], a number of
    binary64, and the output is [2^53]. *)
Lemma fir_output_is_rounded :
  (exists (yf : ndarray float) (v : float),
      has_shape (rampa (T := float)) 1 1000
      /\ y_fir rampa 1 3%float = Ok yf
      /\ entry yf 0 3 = Some v
      /\ Prim2SF v = S754_finite false 7505999378950826 (-51)
      /\ Prim2SF (4 - 3 / 3 + 2 / (2 * 3))%float
         = S754_finite false 7505999378950827 (-51)
      /\ PrimFloat.eqb v (4 - 3 / 3 + 2 / (2 * 3))%float = false)
  /\ (exists (yf : ndarray float) (yq : ndarray Q) (v : float) (q : Q),
        has_shape (cancelacion (T := float)) 1 1000
        /\ y_fir cancelacion 1 2%float = Ok yf
        /\ y_fir cancelacion 1 2%Q = Ok yq
        /\ entry yf 0 2 = Some v /\ entry yq 0 2 = Some q
        /\ (q == inject_Z 9007199254740994)%Q
        /\ v = float_of_Z 9007199254740992
        /\ Prim2SF (float_of_Z 9007199254740992) = S754_finite false 4503599627370496 1
        /\ Prim2SF (float_of_Z 9007199254740994) = S754_finite false 4503599627370497 1
        /\ PrimFloat.eqb v (float_of_Z 9007199254740994) = false).
Proof.
  split.
  - eexists _, _. split; [split; [reflexivity|repeat constructor]|].
    split; [vm_compute; reflexivity|]. split; [vm_compute; reflexivity|].
    vm_compute. repeat split.
  - eexists _, _, _, _. split; [split; [reflexivity|repeat constructor]|].
    split; [vm_compute; reflexivity|]. split; [vm_compute; reflexivity|].
    split; [vm_compute; reflexivity|]. split; [vm_compute; reflexivity|].
    vm_compute. repeat split.
Qed.

(** C1 (amended).  For an ensemble [x] of shape (R, 1000), filtered with as
    many realizations as it has rows and a parameter [a] that is not 0, the
    FIR step succeeds.  Over any number type, binary64 included, its entry
    at row [i < R] and sample [n] in [0, 1000) is [fir_sample a x i n]:
    the products of the samples [x[i][n-2]], [x[i][n-1]] and [x[i][n]] by
    the coefficients [1/(2a)], [-1/a] and [1], added to 0 in that order,
    every operation rounded.  In exact arithmetic (on rationals) that
    entry is [x[i][n] - x[i][n-1]/a + x[i][n-2]/(2a)], samples before
    the first one read as 0.  On the row [1, 2, 3, 4, ...] with [a = 2]
    the first three outputs are 1, 1.5 and 2.25, on rationals and on
    binary64 floats alike. *)
Theorem fir_difference_equation :
  (forall (T : Type) (N : Num T) (x : ndarray T) (R : nat) (a : T),
      has_shape x R 1000 -> is_zero a = false ->
      exists yf : ndarray T,
        y_fir x (Z.of_nat R) a = Ok yf /\
        forall (i : nat) (n : Z), (i < R)%nat -> 0 <= n < 1000 ->
          entry yf i (Z.to_nat n) = Some (fir_sample a x i n))
  /\ (forall (x : ndarray Q) (R : nat) (a : Q),
        has_shape x R 1000 -> ~ (a == 0)%Q ->
        exists yf : ndarray Q,
          y_fir x (Z.of_nat R) a = Ok yf /\
          forall (i : nat) (n : Z), (i < R)%nat -> 0 <= n < 1000 ->
            exists v : Q,
              entry yf i (Z.to_nat n) = Some v /\
              (v == muestra x i n - muestra x i (n - 1) / a
                    + muestra x i (n - 2) / (2 * a))%Q)
  /\ (exists r : list Q,
        y_fir rampa 1 2%Q = Ok (Arr2 1000 [r]) /\
        Forall2 Qeq (take 3 r) [1; 3 # 2; 9 # 4]%Q)
  /\ (exists r : list float,
        y_fir rampa 1 2%float = Ok (Arr2 1000 [r]) /\
        take 3 r = [1; 1.5; 2.25]%float).
Proof.
  split; [|split; [|split]].
  - intros T N x R a Hx Ha.
    apply has_shape_inv in Hx as [rows [-> [HR Hw]]]. subst R.
    destruct rows as [|r0 rows'] eqn:Erows.
    { exists (Arr1 []). split; [apply y_fir_empty, Ha|].
      intros i n Hi. simpl in Hi. lia. }
    rewrite <- Erows in *.
    exists (Arr2 1000 (map (fir_fila (coeficientes a)) rows)). split.
    { apply y_fir_shape; [exact Ha|lia|subst rows; discriminate|exact Hw]. }
    intros i n Hi Hn.
    destruct (rows !! i) as [r|] eqn:Ei; [|apply lookup_ge_None in Ei; lia].
    assert (Hr : length r = 1000%nat).
    { rewrite List.Forall_forall in Hw. apply Hw.
      apply list_elem_of_In, list_elem_of_lookup. exists i. exact Ei. }
    rewrite (entry_fir a rows i r n Ei) by lia.
    rewrite (conv_at_sample a 1000 rows i r n Ei) by lia. reflexivity.
  - intros x R a Hx Ha.
    apply has_shape_inv in Hx as [rows [-> [HR Hw]]]. subst R.
    destruct rows as [|r0 rows'] eqn:Erows.
    { exists (Arr1 []). split; [apply y_fir_empty, is_zero_Q, Ha|].
      intros i n Hi. simpl in Hi. lia. }
    rewrite <- Erows in *.
    exists (Arr2 1000 (map (fir_fila (coeficientes a)) rows)). split.
    { apply y_fir_shape; [apply is_zero_Q, Ha|lia|subst rows; discriminate|exact Hw]. }
    intros i n Hi Hn.
    destruct (rows !! i) as [r|] eqn:Ei; [|apply lookup_ge_None in Ei; lia].
    assert (Hr : length r = 1000%nat).
    { rewrite List.Forall_forall in Hw. apply Hw.
      apply list_elem_of_In, list_elem_of_lookup. exists i. exact Ei. }
    exists (conv_at (map (fun c => ndiv c num1) (coeficientes a)) r (Z.to_nat n)).
    split; [apply entry_fir; [exact Ei|lia]|].
    rewrite (conv_at_fir a r (Z.to_nat n) Ha).
    rewrite <- (muestra_atras 1000 rows i r (Z.to_nat n) 0 Ei).
    rewrite <- (muestra_atras 1000 rows i r (Z.to_nat n) 1 Ei).
    rewrite <- (muestra_atras 1000 rows i r (Z.to_nat n) 2 Ei).
    replace (Z.of_nat (Z.to_nat n) - Z.of_nat 0) with n by lia.
    replace (Z.of_nat (Z.to_nat n) - Z.of_nat 1) with (n - 1) by lia.
    replace (Z.of_nat (Z.to_nat n) - Z.of_nat 2) with (n - 2) by lia.
    reflexivity.
  - eexists. split; [vm_compute; reflexivity|].
    vm_compute. repeat constructor.
  - eexists. split; [vm_compute; reflexivity|].
    vm_compute. reflexivity.
Qed.

Lemma fir_difference_equation_witness :
  (exists yf : ndarray float,
      y_fir (T := float) cancelacion (Z.of_nat 1) 2%float = Ok yf /\
      forall (i : nat) (n : Z), (i < 1)%nat -> 0 <= n < 1000 ->
        entry yf i (Z.to_nat n) = Some (fir_sample 2%float cancelacion i n))
  /\ (exists yf : ndarray Q,
        y_fir (T := Q) dos_rampas (Z.of_nat 2) (2 # 1) = Ok yf /\
        forall (i : nat) (n : Z), (i < 2)%nat -> 0 <= n < 1000 ->
          exists v : Q,
            entry yf i (Z.to_nat n) = Some v /\
            (v == muestra dos_rampas i n - muestra dos_rampas i (n - 1) / (2 # 1)
                  + muestra dos_rampas i (n - 2) / (2 * (2 # 1)))%Q).
Proof.
  split.
  - apply (proj1 fir_difference_equation float float_Num cancelacion 1%nat 2%float).
    + split; [reflexivity|]. repeat constructor.
    + reflexivity.
  - apply (proj1 (proj2 fir_difference_equation) dos_rampas 2%nat (2 # 1)%Q).
    + split; [reflexivity|]. repeat constructor.
    + discriminate.
Defined.

(** C2.  The nonlinear step is the entrywise square of its input, whatever
    the input: entry [(i, n)] of the output is [x[i][n] * x[i][n]], the
    shape is kept, and the row [-2, 0, 3] becomes [4, 0, 9] (on rationals
    and on binary64 floats). *)
Theorem nonlinear_is_elementwise_square :
  (forall (T : Type) (N : Num T) (x : ndarray T) (i n : nat),
      entry (y_nl x) i n = (fun v => nmul v v) <$> entry x i n)
  /\ (forall (T : Type) (N : Num T) (c : nat) (rows : list (list T)),
        y_nl (Arr2 c rows) = Arr2 c (map (map (fun v => nmul v v)) rows))
  /\ (forall (T : Type) (N : Num T) (v : list T),
        y_nl (Arr1 v) = Arr1 (map (fun e => nmul e e) v))
  /\ (forall (T : Type) (N : Num T) (x : ndarray T), shape (y_nl x) = shape x)
  /\ y_nl (Arr2 3 [[-2; 0; 3]%Q]) = Arr2 3 [[4; 0; 9]%Q]
  /\ y_nl (Arr2 3 [[-2; 0; 3]%float]) = Arr2 3 [[4; 0; 9]%float].
Proof.
  split; [|split; [|split; [|split; [|split]]]].
  - intros T N x i n. apply entry_power2.
  - reflexivity.
  - reflexivity.
  - intros T N x. apply power2_shape.
  - reflexivity.
  - vm_compute. reflexivity.
Qed.

(** ** The frame sequence *)

Lemma first_frame_from (fs : list Z) (f : Z) : In f (take 1 fs) -> In f fs.
Proof.
  destruct fs as [|f0 fs]; simpl; [contradiction|].
  intros [<-|[]]. left. reflexivity.
Qed.

Lemma on_ticks_from (fs : list Z) (ticks : nat) (f : Z) :
  In f (on_ticks fs ticks) -> In f fs.
Proof.
  unfold on_ticks. intros Hin. apply list_elem_of_In in Hin.
  apply (subseteq_take ticks) in Hin.
  apply list_elem_of_In, in_concat in Hin as [l [Hl Hf]].
  apply repeat_spec in Hl. subst l.
  apply in_app_or in Hf as [Hf|Hf]; [exact Hf|apply first_frame_from, Hf].
Qed.

Lemma delivered_from (fs : list Z) (ticks : nat) (f : Z) :
  In f (delivered fs ticks) -> In f fs.
Proof.
  unfold delivered. intros Hin. apply in_app_or in Hin as [Hin|Hin].
  - apply first_frame_from, Hin.
  - eapply on_ticks_from, Hin.
Qed.

(** C4.  A frame with [frame + tau >= 1000] changes nothing: [update]
    returns the empty list of artists and leaves markers, annotations and
    the rest of the state as they were, so repeating it has no effect, and
    the animation goes on with the frames that follow. *)
Theorem late_frame_is_noop :
  forall (T : Type) (N : Num T) (w : world T) (ly_fir ly_nl : loc) (tau frame : Z),
    frame + tau >= 1000 ->
    update ly_fir ly_nl tau frame w = (Ok [], w)
    /\ (forall rest : list Z,
          for_each (update ly_fir ly_nl tau) (frame :: rest) w
          = for_each (update ly_fir ly_nl tau) rest w)
    /\ (forall k : nat,
          for_each (update ly_fir ly_nl tau) (repeat frame k) w = (Ok tt, w)).
Proof.
  intros T N w lf ln tau frame Ht.
  assert (Hskip : forall w', update lf ln tau frame w' = (Ok [], w')).
  { intros w'. apply update_skip. lia. }
  split; [apply Hskip|]. split.
  - intros rest. cbn [for_each]. unfold mbind, M_bind. rewrite Hskip. reflexivity.
  - intros k. induction k as [|k IH]; [reflexivity|].
    cbn [repeat for_each]. unfold mbind, M_bind. rewrite Hskip. exact IH.
Qed.

Lemma late_frame_is_noop_witness :
  update (T := Q) 1%positive 2%positive 100 950 (World ∅ blank) = (Ok [], World ∅ blank)
  /\ (forall rest : list Z,
        for_each (update (T := Q) 1%positive 2%positive 100) (950 :: rest) (World ∅ blank)
        = for_each (update 1%positive 2%positive 100) rest (World ∅ blank))
  /\ (forall k : nat,
        for_each (update (T := Q) 1%positive 2%positive 100) (repeat 950 k) (World ∅ blank)
        = (Ok tt, World ∅ blank)).
Proof.
  apply (late_frame_is_noop Q Q_Num (World ∅ blank) 1%positive 2%positive 100 950).
  lia.
Defined.

(** C5.  The frames of the animation are [range(0, 1000 - tau, 10)]: the
    multiples of 10 in [0, 1000 - tau), each once, in increasing order, the
    last one being the largest multiple of 10 below [1000 - tau] (no frame
    when [tau >= 1000]); the interval between frames is 200. *)
Theorem frame_sequence :
  forall (T : Type) (N : Num T) (ly_fir ly_nl : loc) (tau : Z),
    (forall f : Z,
        In f (frames (FuncAnimation ly_fir ly_nl tau))
        <-> (0 <= f < 1000 - tau /\ (10 | f)))
    /\ StronglySorted Z.lt (frames (FuncAnimation ly_fir ly_nl tau))
    /\ Z.of_nat (length (frames (FuncAnimation ly_fir ly_nl tau)))
       = Z.max 0 ((1000 - tau + 9) / 10)
    /\ (forall k : nat,
          (k < length (frames (FuncAnimation ly_fir ly_nl tau)))%nat ->
          frames (FuncAnimation ly_fir ly_nl tau) !! k = Some (10 * Z.of_nat k))
    /\ (tau < 1000 ->
        last (frames (FuncAnimation ly_fir ly_nl tau))
        = Some (10 * ((1000 - tau - 1) / 10)))
    /\ interval (FuncAnimation ly_fir ly_nl tau) = 200.
Proof.
  intros T N lf ln tau. cbn [frames interval FuncAnimation].
  split; [|split; [|split; [|split; [|split]]]].
  - intros f. apply (py_range_elem (1000 - tau) 10 f).
  - apply py_range_sorted.
  - rewrite py_range_length.
    replace (1000 - tau + Z.pos 10 - 1) with (1000 - tau + 9) by lia. reflexivity.
  - intros k Hk. unfold py_range in *. rewrite length_map, length_seq in Hk.
    rewrite list_lookup_fmap.
    rewrite (proj2 (lookup_seq 0 _ k k)) by (split; [reflexivity|exact Hk]).
    simpl. f_equal. lia.
  - intros Htau. apply py_range_last. lia.
  - reflexivity.
Qed.

Lemma frame_sequence_witness :
  (forall f : Z,
      In f (frames (FuncAnimation (T := Q) 1%positive 2%positive 100))
      <-> (0 <= f < 1000 - 100 /\ (10 | f)))
  /\ StronglySorted Z.lt (frames (FuncAnimation (T := Q) 1%positive 2%positive 100))
  /\ Z.of_nat (length (frames (FuncAnimation (T := Q) 1%positive 2%positive 100)))
     = Z.max 0 ((1000 - 100 + 9) / 10)
  /\ (forall k : nat,
        (k < length (frames (FuncAnimation (T := Q) 1%positive 2%positive 100)))%nat ->
        frames (FuncAnimation (T := Q) 1%positive 2%positive 100) !! k
        = Some (10 * Z.of_nat k))
  /\ (100 < 1000 ->
      last (frames (FuncAnimation (T := Q) 1%positive 2%positive 100))
      = Some (10 * ((1000 - 100 - 1) / 10)))
  /\ interval (FuncAnimation (T := Q) 1%positive 2%positive 100) = 200.
Proof. exact (frame_sequence Q Q_Num 1%positive 2%positive 100). Defined.

(** C10.  For a lag with [0 < tau < 1000] every frame of the animation's
    own sequence, and so every frame the animation hands to [update],
    satisfies [frame + tau < 1000]: the test [t2 >= 1000] of [update] is
    false on each of them, the early exit is never taken. *)
Theorem early_exit_unreachable :
  forall (T : Type) (N : Num T) (ly_fir ly_nl : loc) (tau : Z) (ticks : nat),
    0 < tau < 1000 ->
    Forall (fun f => f + tau < 1000 /\ (t2 f tau >=? 1000) = false)
           (frames (FuncAnimation ly_fir ly_nl tau))
    /\ Forall (fun f => f + tau < 1000 /\ (t2 f tau >=? 1000) = false)
              (delivered (frames (FuncAnimation ly_fir ly_nl tau)) ticks).
Proof.
  intros T N lf ln tau ticks Htau. cbn [frames FuncAnimation].
  assert (Hin : forall f, In f (py_range 0 (1000 - tau) 10) ->
                          f + tau < 1000 /\ (t2 f tau >=? 1000) = false).
  { intros f Hf. apply py_range_elem in Hf as [[H0 Hlt] _].
    split; [lia|]. unfold t2. destruct (Z.geb_spec (f + tau) 1000); [lia|reflexivity]. }
  split; apply List.Forall_forall; intros f Hf.
  - apply Hin, Hf.
  - apply Hin. eapply delivered_from. exact Hf.
Qed.

Lemma early_exit_unreachable_witness :
  Forall (fun f => f + 100 < 1000 /\ (t2 f 100 >=? 1000) = false)
         (frames (FuncAnimation (T := Q) 1%positive 2%positive 100))
  /\ Forall (fun f => f + 100 < 1000 /\ (t2 f 100 >=? 1000) = false)
            (delivered (frames (FuncAnimation (T := Q) 1%positive 2%positive 100)) 200).
Proof.
  apply (early_exit_unreachable Q Q_Num 1%positive 2%positive 100 200). lia.
Defined.

(** ** The two time indices *)

Section Markers.
Context {T : Type} `{Num T}.

(** What a call of [update] can do: nothing (the early exit, or an
    exception), or redraw markers and annotations for its frame. *)
Lemma update_cases (w w' : world T) (lf ln : loc) (tau frame : Z) (r : res (list artist)) :
  update lf ln tau frame w = (r, w') ->
  (w' = w /\ (r = Ok [] \/ exists e, r = Raise e))
  \/ (t2 frame tau < 1000 /\ heap w' = heap w
      /\ fir_lines (fig w') = fir_lines (fig w) /\ nl_lines (fig w') = nl_lines (fig w)
      /\ marcados tau (t1 frame) (fig w') /\ r = Ok (artistas (fig w'))).
Proof.
  unfold update. destruct (Z.geb_spec (t2 frame tau) 1000) as [Hge|Hlt].
  { intros [= <- <-]. left. split; [reflexivity|left; reflexivity]. }
  unfold mbind, M_bind, read, lift, get_fig, set_fig.
  destruct (heap w !! lf) as [yf|]; [|intros [= <- <-]; left; eauto].
  destruct (column yf (t1 frame)); [|intros [= <- <-]; left; eauto].
  destruct (column yf (t2 frame tau)); [|intros [= <- <-]; left; eauto].
  destruct (heap w !! ln) as [yn|]; [|intros [= <- <-]; left; eauto].
  destruct (column yn (t1 frame)); [|intros [= <- <-]; left; eauto].
  destruct (column yn (t2 frame tau)); [|intros [= <- <-]; left; eauto].
  intros [= <- <-]. right. cbn [heap fig fir_lines nl_lines].
  repeat split; try reflexivity. exact Hlt.
Qed.

Lemma marcadores_update (w w' : world T) (lf ln : loc) (tau frame : Z) (r : res (list artist)) :
  sin_mover (fig w) \/ (exists t, marcados tau t (fig w)) ->
  update lf ln tau frame w = (r, w') ->
  sin_mover (fig w') \/ (exists t, marcados tau t (fig w')).
Proof.
  intros Hinv Hu. apply update_cases in Hu as [[-> _]|[_ [_ [_ [_ [Hm _]]]]]].
  - exact Hinv.
  - right. exists (t1 frame). exact Hm.
Qed.

Lemma marcadores_for_each (lf ln : loc) (tau : Z) (fs : list Z) :
  forall (w w' : world T) (r : res unit),
    sin_mover (fig w) \/ (exists t, marcados tau t (fig w)) ->
    for_each (update lf ln tau) fs w = (r, w') ->
    sin_mover (fig w') \/ (exists t, marcados tau t (fig w')).
Proof.
  induction fs as [|f fs IH]; intros w w' r Hinv.
  - intros [= <- <-]. exact Hinv.
  - cbn [for_each]. unfold mbind, M_bind.
    destruct (update lf ln tau f w) as [[arts|e] w1] eqn:Hu.
    + apply IH. eapply marcadores_update; [exact Hinv|exact Hu].
    + intros [= <- <-]. eapply marcadores_update; [exact Hinv|exact Hu].
Qed.

Lemma marcadores_show (lf ln : loc) (tau : Z) (ticks : nat) (w w' : world T) (r : res unit) :
  sin_mover (fig w) \/ (exists t, marcados tau t (fig w)) ->
  show (FuncAnimation lf ln tau) ticks w = (r, w') ->
  sin_mover (fig w') \/ (exists t, marcados tau t (fig w')).
Proof.
  intros Hinv. unfold show. cbn [func frames FuncAnimation]. unfold mbind, M_bind.
  destruct (for_each (update lf ln tau) (take 1 (py_range 0 (1000 - tau) 10)) w)
    as [[u|e] w1] eqn:Hfirst.
  - pose proof (marcadores_for_each lf ln tau _ w w1 (Ok u) Hinv Hfirst) as Hinv1.
    rewrite for_each_in_event_loop. unfold in_event_loop.
    destruct (for_each (update lf ln tau) (on_ticks (py_range 0 (1000 - tau) 10) ticks) w1)
      as [[u2|e2] w2] eqn:Hloop; intros [= <- <-];
      eapply marcadores_for_each; [exact Hinv1|exact Hloop|exact Hinv1|exact Hloop].
  - intros [= <- <-]. eapply marcadores_for_each; [exact Hinv|exact Hfirst].
Qed.

End Markers.

(** C6.  In [update], [t2 = t1 + tau]; from one frame to the next both
    indices advance by the frame step.  A frame that is drawn puts the
    markers of both panels at [t1] and [t1 + tau]; along a whole run of the
    animation the markers are either still where they were created or at
    [t] and [t + tau] for one [t]. *)
Theorem t2_is_t1_plus_tau :
  forall (T : Type) (N : Num T) (ly_fir ly_nl : loc) (tau frame : Z),
    t2 frame tau = t1 frame + tau
    /\ (t1 (frame + 10) = t1 frame + 10 /\ t2 (frame + 10) tau = t2 frame tau + 10)
    /\ (forall (w w' : world T) (arts : list artist),
          update ly_fir ly_nl tau frame w = (Ok arts, w') -> arts <> [] ->
          marcados tau (t1 frame) (fig w'))
    /\ (forall (w w' : world T) (ticks : nat) (r : res unit),
          sin_mover (fig w) ->
          show (FuncAnimation ly_fir ly_nl tau) ticks w = (r, w') ->
          sin_mover (fig w') \/ (exists t, marcados tau t (fig w'))).
Proof.
  intros T N lf ln tau frame.
  split; [reflexivity|]. split; [unfold t1, t2; lia|]. split.
  - intros w w' arts Hu Harts.
    apply update_cases in Hu as [[_ [Hr|[e Hr]]]|[_ [_ [_ [_ [Hm _]]]]]].
    + congruence.
    + discriminate.
    + exact Hm.
  - intros w w' ticks r Hw Hrun.
    eapply marcadores_show; [left; exact Hw|exact Hrun].
Qed.

Lemma t2_is_t1_plus_tau_witness :
  marcados 100 (t1 10)
    (fig (snd (update (T := Q) 2%positive 3%positive 100 10
                 (snd (preparar 1%positive 1 (2 # 1)%Q (World {[1%positive := rampa]} blank)))))).
Proof.
  apply (proj1 (proj2 (proj2 (t2_is_t1_plus_tau Q Q_Num 2%positive 3%positive 100 10)))
           (snd (preparar 1%positive 1 (2 # 1)%Q (World {[1%positive := rampa]} blank)))
           _
           [FirLine 0; NlLine 0; VLine1Fir; VLine2Fir; VLine1Nl; VLine2Nl; Txt1; Txt2]).
  - vm_compute. reflexivity.
  - discriminate.
Defined.

(** ** The whole routine *)

Section Routine_facts.
Context {T : Type} `{Num T}.

Lemma preparar_ok (w : world T) (lx : loc) (rows : list (list T)) (a : T) :
  heap w !! lx = Some (Arr2 1000 rows) ->
  Forall (fun r => length r = 1000%nat) rows -> rows <> [] -> is_zero a = false ->
  let yf := Arr2 1000 (map (fir_fila (coeficientes a)) rows) in
  let yn := y_nl (Arr2 1000 rows) in
  y_fir (Arr2 1000 rows) (Z.of_nat (length rows)) a = Ok yf
  /\ preparar lx (Z.of_nat (length rows)) a w
     = (Ok (ref_fir w, ref_nl w yf), preparado w yf yn (Z.of_nat (length rows))).
Proof.
  intros Hx Hw Hne Ha yf yn.
  assert (Hy : y_fir (Arr2 1000 rows) (Z.of_nat (length rows)) a = Ok yf).
  { apply y_fir_shape; [exact Ha|lia|exact Hne|exact Hw]. }
  split; [exact Hy|].
  unfold preparar. unfold mbind at 1. unfold M_bind at 1.
  rewrite (procesar_ok w lx _ yf _ a Hx Hy).
  unfold mbind at 1. unfold M_bind at 1.
  rewrite (crear_figura_ok (procesado w yf (y_nl (Arr2 1000 rows))) (ref_fir w) (ref_nl w yf)
             (map (fir_fila (coeficientes a)) rows) (map (map square) rows)).
  - reflexivity.
  - apply procesado_fir.
  - apply procesado_nl.
  - apply Forall_map. eapply Forall_impl; [exact Hw|].
    simpl. intros r Hr. rewrite fir_fila_length. exact Hr.
  - apply Forall_map. eapply Forall_impl; [exact Hw|].
    simpl. intros r Hr. rewrite length_map. exact Hr.
  - rewrite length_map. lia.
  - rewrite length_map. lia.
Qed.

End Routine_facts.

(** C8 as stated fails on an ensemble without realizations: the squared
    ensemble keeps the shape (0, 1000), the filtered one is the 1-D array
    of shape (0,). *)
Lemma fir_of_empty_ensemble_is_1d :
  has_shape (Arr2 1000 ([] : list (list Q))) 0 1000
  /\ (exists yf : ndarray Q,
        y_fir (Arr2 1000 []) 0 (2 # 1)%Q = Ok yf /\ shape yf = [0%nat]
        /\ shape yf <> [0%nat; 1000%nat])
  /\ shape (y_nl (Arr2 1000 ([] : list (list Q)))) = [0%nat; 1000%nat].
Proof.
  split; [split; [reflexivity|constructor]|]. split; [|reflexivity].
  exists (Arr1 []). split; [reflexivity|]. split; [reflexivity|discriminate].
Qed.

(** C8 (amended).  The squared ensemble has the shape of its input.  For an
    ensemble of shape (R, 1000) with one realization at least, processed
    with [n_realizaciones = R] and [a] not 0, the filtered ensemble has
    shape (R, 1000) too, and both arrays are still in the store, unchanged,
    when the call ends, however long the animation ran. *)
Theorem processed_shapes :
  forall (T : Type) (N : Num T) (x : ndarray T) (R : nat),
    has_shape x R 1000 ->
    has_shape (y_nl x) R 1000
    /\ forall a : T, (0 < R)%nat -> is_zero a = false ->
       exists yf : ndarray T,
         y_fir x (Z.of_nat R) a = Ok yf
         /\ has_shape yf R 1000
         /\ forall (w w' : world T) (lx : loc) (tau : Z) (ticks : nat) (r : res unit),
              heap w !! lx = Some x ->
              animar_medias_tiempo lx (Z.of_nat R) a tau ticks w = (r, w') ->
              heap w' !! ref_fir w = Some yf
              /\ heap w' !! ref_nl w yf = Some (y_nl x).
Proof.
  intros T N x R Hx. split.
  { destruct Hx as [Hs Hw]. split; [|apply power2_wf, Hw].
    unfold y_nl. rewrite power2_shape. exact Hs. }
  intros a HR Ha.
  apply has_shape_inv in Hx as [rows [-> [HRl Hw]]]. subst R.
  assert (Hne : rows <> []) by (destruct rows; [simpl in HR; lia|discriminate]).
  exists (Arr2 1000 (map (fir_fila (coeficientes a)) rows)).
  split; [apply y_fir_shape; [exact Ha|lia|exact Hne|exact Hw]|]. split.
  { split; [simpl; rewrite length_map; reflexivity|].
    apply Forall_map. eapply Forall_impl; [exact Hw|].
    simpl. intros r Hr. rewrite fir_fila_length. exact Hr. }
  intros w w' lx tau ticks r Hlx Hrun.
  destruct (preparar_ok w lx rows a Hlx Hw Hne Ha) as [_ Hprep].
  unfold animar_medias_tiempo in Hrun. unfold mbind at 1 in Hrun. unfold M_bind at 1 in Hrun.
  rewrite Hprep in Hrun.
  pose proof (preserva_show (ref_fir w) (ref_nl w (Arr2 1000 (map (fir_fila (coeficientes a)) rows)))
                tau ticks
                (preparado w (Arr2 1000 (map (fir_fila (coeficientes a)) rows))
                           (y_nl (Arr2 1000 rows)) (Z.of_nat (length rows)))) as Hsub.
  rewrite Hrun in Hsub. cbn [snd preparado y_nl power2 heap] in Hsub.
  split; (eapply lookup_weaken; [|exact Hsub]).
  - apply procesado_fir.
  - apply procesado_nl.
Qed.

Lemma processed_shapes_witness :
  has_shape (y_nl (T := Q) rampa) 1 1000
  /\ forall a : Q, (0 < 1)%nat -> is_zero a = false ->
     exists yf : ndarray Q,
       y_fir rampa (Z.of_nat 1) a = Ok yf
       /\ has_shape yf 1 1000
       /\ forall (w w' : world Q) (lx : loc) (tau : Z) (ticks : nat) (r : res unit),
            heap w !! lx = Some rampa ->
            animar_medias_tiempo lx (Z.of_nat 1) a tau ticks w = (r, w') ->
            heap w' !! ref_fir w = Some yf
            /\ heap w' !! ref_nl w yf = Some (y_nl rampa).
Proof.
  apply (processed_shapes Q Q_Num rampa 1%nat).
  split; [reflexivity|]. repeat constructor.
Defined.

(** C7.  A call of the routine leaves the ensemble it was given (and every
    other array that was in the store) exactly as it was, whether the call
    ends normally or with an exception; the filtered and the squared
    ensemble are new arrays, at references that were not in use and differ
    from the ensemble's. *)
Theorem ensemble_is_read_only :
  forall (T : Type) (N : Num T) (w w' : world T) (lx : loc) (x : ndarray T)
         (n : Z) (a : T) (tau : Z) (ticks : nat) (r : res unit),
    heap w !! lx = Some x ->
    animar_medias_tiempo lx n a tau ticks w = (r, w') ->
    heap w' !! lx = Some x
    /\ (forall (l : loc) (y : ndarray T), heap w !! l = Some y -> heap w' !! l = Some y)
    /\ (forall (ly_fir ly_nl : loc) (w1 : world T),
          procesar lx n a w = (Ok (ly_fir, ly_nl), w1) ->
          ly_fir <> lx /\ ly_nl <> lx /\ ly_fir <> ly_nl
          /\ heap w !! ly_fir = None /\ heap w !! ly_nl = None
          /\ heap w1 !! lx = Some x
          /\ heap w1 !! ly_nl = Some (y_nl x)
          /\ exists yf, y_fir x n a = Ok yf /\ heap w1 !! ly_fir = Some yf).
Proof.
  intros T N w w' lx x n a tau ticks r Hx Hrun.
  pose proof (preserva_animar lx n a tau ticks w) as Hsub.
  rewrite Hrun in Hsub. cbn [snd] in Hsub.
  split; [eapply lookup_weaken; [exact Hx|exact Hsub]|]. split.
  { intros l y Hl. eapply lookup_weaken; [exact Hl|exact Hsub]. }
  intros lf ln w1 Hp.
  destruct (y_fir x n a) as [yf|e] eqn:Hy.
  - rewrite (procesar_ok w lx x yf n a Hx Hy) in Hp.
    injection Hp as <- <- <-.
    destruct (ref_nl_fresh w yf) as [Hnl Hne].
    pose proof (ref_fir_fresh w) as Hfir.
    repeat split.
    + intros E. rewrite E, Hx in Hfir. discriminate.
    + intros E. rewrite E, Hx in Hnl. discriminate.
    + apply not_eq_sym, Hne.
    + exact Hfir.
    + exact Hnl.
    + unfold procesado. cbn [heap].
      rewrite !lookup_insert_ne; [exact Hx| |]; intros E.
      * rewrite E, Hx in Hfir. discriminate.
      * rewrite E, Hx in Hnl. discriminate.
    + apply procesado_nl.
    + exists yf. split; [reflexivity|apply procesado_fir].
  - rewrite (procesar_raise w lx x n a e Hx Hy) in Hp. discriminate.
Qed.

Lemma ensemble_is_read_only_witness :
  heap (snd (animar_medias_tiempo (T := Q) 1%positive 1 (2 # 1)%Q 100 3
               (World {[1%positive := rampa]} blank))) !! 1%positive
  = Some rampa.
Proof.
  refine (proj1 (ensemble_is_read_only Q Q_Num
                   (World {[1%positive := rampa]} blank)
                   (snd (animar_medias_tiempo 1%positive 1 (2 # 1)%Q 100 3
                           (World {[1%positive := rampa]} blank)))
                   1%positive (rampa (T := Q)) 1 (2 # 1)%Q 100 3 (Ok tt) _ _)).
  - vm_compute. reflexivity.
  - vm_compute. reflexivity.
Defined.

(** C3 as stated fails on two kinds of input.  With a negative lag the
    frame sequence reaches frames past the last sample: for [tau = -100]
    the frame 1000 passes the test ([t2 = 900]), and [update] ends with an
    [IndexError] at column [t1 = 1000].  And with an ensemble of shape
    (0, 1000) the filtered ensemble is 1-D, so that the first frame already
    ends with an [IndexError]; nothing is drawn in either case. *)
Lemma update_raises_outside_the_axis :
  (In 1000 (frames (FuncAnimation (T := Q) 2%positive 3%positive (-100)))
   /\ 1000 + -100 < 1000
   /\ exists w1 : world Q,
        preparar 1%positive 1 (2 # 1)%Q (World {[1%positive := rampa]} blank)
        = (Ok (2%positive, 3%positive), w1)
        /\ update 2%positive 3%positive (-100) 1000 w1 = (Raise IndexError, w1))
  /\ (has_shape (Arr2 1000 ([] : list (list Q))) 0 1000
      /\ 0 + 100 < 1000
      /\ exists w1 : world Q,
           preparar 1%positive 0 (2 # 1)%Q (World {[1%positive := Arr2 1000 []]} blank)
           = (Ok (2%positive, 3%positive), w1)
           /\ update 2%positive 3%positive 100 0 w1 = (Raise IndexError, w1)).
Proof.
  split.
  - split; [apply py_range_elem; split; [lia|exists 100; lia]|]. split; [lia|].
    eexists. split; [vm_compute; reflexivity|]. vm_compute. reflexivity.
  - split; [split; [reflexivity|constructor]|]. split; [lia|].
    eexists. split; [vm_compute; reflexivity|]. vm_compute. reflexivity.
Qed.

(** C3 (amended).  Take an ensemble of shape (R, 1000) with one realization
    at least, processed with [n_realizaciones = R] and [a] not 0, and a
    frame such that [t1 = frame] and [t2 = frame + tau] both index the
    1000-sample axis (from -1000 up to 999, a negative index counting from
    the end).  Then [update] on that frame succeeds, changes nothing in the
    store, keeps the traces, puts the markers of both panels at [t1] and
    [t2], and writes on the top panel the ensemble means of the filtered
    ensemble at columns [t1] and [t2] with the absolute value of their
    difference, and on the bottom panel the same for the squared ensemble,
    every number printed with [:.3f].  The means are those of [np.mean]:
    the sum of the column, additions in numpy's order, over the number
    of realizations; on rationals that is the arithmetic mean, and [:.3f]
    prints the sign, the integer part and exactly three digits of the
    multiple of 0.001 nearest to the number. *)
Theorem update_draws_the_frame :
  (forall (T : Type) (N : Num T) (w : world T) (lx : loc) (x : ndarray T) (R : nat)
          (a : T) (tau frame : Z),
      has_shape x R 1000 -> (0 < R)%nat -> is_zero a = false ->
      heap w !! lx = Some x ->
      -1000 <= frame < 1000 -> -1000 <= frame + tau < 1000 ->
      exists (yf : ndarray T) (ly_fir ly_nl : loc) (w1 : world T),
        y_fir x (Z.of_nat R) a = Ok yf
        /\ preparar lx (Z.of_nat R) a w = (Ok (ly_fir, ly_nl), w1)
        /\ t1 frame = frame /\ t2 frame tau = frame + tau
        /\ update ly_fir ly_nl tau frame w1
           = (Ok (artistas (fig w1)),
              World (heap w1)
                (Figure (fir_lines (fig w1)) (nl_lines (fig w1))
                   [frame; frame] [frame + tau; frame + tau]
                   [frame; frame] [frame + tau; frame + tau]
                   (texto "Media FIR" frame (frame + tau)
                      (media_conjunto yf frame) (media_conjunto yf (frame + tau)))
                   (texto "Media x²" frame (frame + tau)
                      (media_conjunto (y_nl x) frame)
                      (media_conjunto (y_nl x) (frame + tau))))))
  /\ (forall (y : ndarray Q) (t : Z),
        (media_conjunto y t
         == suma (columna y (Z.to_nat (t mod 1000)))
            / inject_Z (Z.of_nat (length (columna y (Z.to_nat (t mod 1000))))))%Q)
  /\ (forall q : Q,
        exists m : Z,
          0 <= m /\ cerca m (Qmult (Qabs q) (1000 # 1))
          /\ String.length (pad3 (m mod 1000)) = 3%nat
          /\ fmt3f q = (if Qnum q <? 0 then "-"%string else ""%string)
                         +:+ pretty (m / 1000) +:+ "."%string +:+ pad3 (m mod 1000)).
Proof.
  split; [|split; [|exact fmt3f_Q_decimals]].
  2: { intros y t. unfold media_conjunto, np_mean. cbn [ndiv num_of_Z Q_Num].
       rewrite np_sum_suma. reflexivity. }
  intros T N w lx x R a tau frame Hx HR Ha Hlx Hf Ht.
  apply has_shape_inv in Hx as [rows [-> [HRl Hw]]]. subst R.
  assert (Hne : rows <> []) by (destruct rows; [simpl in HR; lia|discriminate]).
  destruct (preparar_ok w lx rows a Hlx Hw Hne Ha) as [Hy Hprep].
  eexists _, _, _, _. split; [exact Hy|]. split; [exact Hprep|].
  split; [reflexivity|]. split; [reflexivity|].
  cbn [preparado y_nl power2].
  rewrite (update_draw _ _ _ (map (fir_fila (coeficientes a)) rows) (map (map square) rows)
             tau frame); [reflexivity| | |exact Hf|exact Ht].
  - cbn [heap]. apply procesado_fir.
  - cbn [heap]. apply procesado_nl.
Qed.

Lemma update_draws_the_frame_witness :
  exists (yf : ndarray Q) (ly_fir ly_nl : loc) (w1 : world Q),
    y_fir dos_rampas (Z.of_nat 2) (2 # 1)%Q = Ok yf
    /\ preparar 1%positive (Z.of_nat 2) (2 # 1)%Q (World {[1%positive := dos_rampas]} blank)
       = (Ok (ly_fir, ly_nl), w1)
    /\ t1 10 = 10 /\ t2 10 100 = 10 + 100
    /\ update ly_fir ly_nl 100 10 w1
       = (Ok (artistas (fig w1)),
          World (heap w1)
            (Figure (fir_lines (fig w1)) (nl_lines (fig w1))
               [10; 10] [10 + 100; 10 + 100] [10; 10] [10 + 100; 10 + 100]
               (texto "Media FIR" 10 (10 + 100)
                  (media_conjunto yf 10) (media_conjunto yf (10 + 100)))
               (texto "Media x²" 10 (10 + 100)
                  (media_conjunto (y_nl dos_rampas) 10)
                  (media_conjunto (y_nl dos_rampas) (10 + 100))))).
Proof.
  refine (proj1 update_draws_the_frame Q Q_Num (World {[1%positive := dos_rampas]} blank)
            1%positive (dos_rampas (T := Q)) 2%nat (2 # 1)%Q 100 10 _ _ _ _ _ _).
  - split; [reflexivity|]. repeat constructor.
  - lia.
  - reflexivity.
  - vm_compute. reflexivity.
  - lia.
  - lia.
Defined.

(** The annotations of frame 10 for the two realizations [1, 2, 3, ...] and
    [2, 3, 4, ...] with [a = 2] and [tau = 100], on rationals and on
    binary64 floats: at column 10 the filtered rows are worth 8.25 and 9,
    the squared rows 121 and 144. *)
Example update_dos_rampas_textos :
  (let w1 := snd (preparar (T := Q) 1%positive 2 (2 # 1)%Q
                    (World {[1%positive := dos_rampas]} blank)) in
   let w2 := snd (update 2%positive 3%positive 100 10 w1) in
   txt1 (fig w2)
   = ("Media FIR" +:+ newline
        +:+ "μ(t1=10)=8.625, μ(t2=110)=83.625, diferencia=75.000")%string
   /\ txt2 (fig w2)
      = ("Media x²" +:+ newline
           +:+ "μ(t1=10)=132.500, μ(t2=110)=12432.500, diferencia=12300.000")%string)
  /\ (let w1 := snd (preparar (T := float) 1%positive 2 2%float
                       (World {[1%positive := dos_rampas]} blank)) in
      let w2 := snd (update 2%positive 3%positive 100 10 w1) in
      txt1 (fig w2)
      = ("Media FIR" +:+ newline
           +:+ "μ(t1=10)=8.625, μ(t2=110)=83.625, diferencia=75.000")%string
      /\ txt2 (fig w2)
         = ("Media x²" +:+ newline
              +:+ "μ(t1=10)=132.500, μ(t2=110)=12432.500, diferencia=12300.000")%string
      /\ vline1_fir (fig w2) = [10; 10] /\ vline2_nl (fig w2) = [110; 110]).
Proof. vm_compute. repeat split. Qed.

(** The order of the additions shows on binary64.  The three realizations
    of [tres_filas] are worth 1, [2^60] and [-2^60] at column 0, and the
    filtered ensemble too.  [np.mean] adds them from the first: the sum
    [1 + 2^60] is rounded to [2^60], the total is 0 and the annotation
    reads 0.000, where exact arithmetic gives 1/3 and 0.333. *)
Example update_tres_filas_textos :
  (let w1 := snd (preparar (T := float) 1%positive 3 2%float
                    (World {[1%positive := tres_filas]} blank)) in
   let w2 := snd (update 2%positive 3%positive 100 0 w1) in
   txt1 (fig w2)
   = ("Media FIR" +:+ newline
        +:+ "μ(t1=0)=0.000, μ(t2=100)=0.000, diferencia=0.000")%string)
  /\ (let w1 := snd (preparar (T := Q) 1%positive 3 (2 # 1)%Q
                       (World {[1%positive := tres_filas]} blank)) in
      let w2 := snd (update 2%positive 3%positive 100 0 w1) in
      txt1 (fig w2)
      = ("Media FIR" +:+ newline
           +:+ "μ(t1=0)=0.333, μ(t2=100)=0.000, diferencia=0.333")%string).
Proof. vm_compute. repeat split. Qed.

(** The same on sums alone.  Three entries are added from the first; 16
    entries are added on 8 running sums, so that [2^60] and [-2^60], 8
    places apart, cancel before the 1 is added, where a sum from the first
    entry to the last would lose the 1. *)
Example np_sum_order :
  np_sum [1; 1152921504606846976; -1152921504606846976]%float = 0%float
  /\ np_sum [1152921504606846976; 1; 0; 0; 0; 0; 0; 0;
             -1152921504606846976; 0; 0; 0; 0; 0; 0; 0]%float = 1%float
  /\ fold_left PrimFloat.add
       [1152921504606846976; 1; 0; 0; 0; 0; 0; 0;
        -1152921504606846976; 0; 0; 0; 0; 0; 0; 0]%float 0%float = 0%float
  /\ (np_sum [1; 1152921504606846976; -1152921504606846976]%Q == 1)%Q.
Proof. vm_compute. repeat split. Qed.

(** ** The non-stationary channel *)

Section Variante_facts.
Context {T : Type} `{Num T}.
Variable gauss : N -> T.

Lemma fila_normal_length (s : T) (c : N) : length (fila_normal gauss s c) = 1000%nat.
Proof. unfold fila_normal. rewrite length_map, length_seq. reflexivity. Qed.

Lemma filas_desde_length (ts : list Z) (c : N) : length (filas_desde gauss ts c) = length ts.
Proof.
  revert c. induction ts as [|t ts IH]; intros c; simpl; [reflexivity|].
  rewrite IH. reflexivity.
Qed.


Lemma filas_desde_wf (ts : list Z) (c : N) :
  Forall (fun r => length r = 1000%nat) (filas_desde gauss ts c).
Proof.
  revert c. induction ts as [|t ts IH]; intros c; simpl; constructor.
  - apply fila_normal_length.
  - apply IH.
Qed.

Lemma normal_ok (s : T) (c : N) :
  is_neg s = false -> normal gauss num0 s 1000 c = (Ok (fila_normal gauss s c), (c + 1000)%N).
Proof. intros Hs. unfold normal. rewrite Hs. reflexivity. Qed.

Lemma filas_variante_ok (ts : list Z) (c : N) :
  Forall (fun t => is_neg (escala t) = false) ts ->
  filas_variante gauss ts c
  = (Ok (filas_desde gauss ts c), (c + 1000 * N.of_nat (length ts))%N).
Proof.
  revert c. induction ts as [|t ts IH]; intros c Hts.
  - cbn [filas_variante filas_desde length]. f_equal. lia.
  - inversion Hts as [|? ? Ht Hts']; subst. cbn [filas_variante].
    rewrite (normal_ok (escala t) c Ht), (IH (c + 1000)%N Hts').
    cbn [filas_desde length]. f_equal. lia.
Qed.

End Variante_facts.

(** [np.random.normal] looks at the sign bit of [scale]: [-0.0] is refused
    as [-1.0] is, and [0.0] is not. *)
Example normal_refuses_the_sign_bit :
  fst (normal (fun _ => 1%float) 0%float (-0)%float 2 0) = Raise ValueError
  /\ fst (normal (fun _ => 1%float) 0%float (-1)%float 2 0) = Raise ValueError
  /\ fst (normal (fun _ => 1%float) 0%float 0%float 2 0) = Ok [0%float; 0%float]
  /\ fst (normal (fun _ => 1%float) 0%float 0.5%float 2 0) = Ok [0.5%float; 0.5%float].
Proof. vm_compute. repeat split. Qed.

Section Variante_exact.
Local Open Scope Q_scope.


Lemma escala_nonneg (t : Z) : (0 <= t)%Z -> is_neg (escala (T := Q) t) = false.
Proof.
  intros Ht. unfold escala. cbn [is_neg Q_Num].
  apply Z.ltb_ge. simpl. lia.
Qed.


Lemma rango_realizaciones :
  py_range 0 n_realizaciones 1 = map Z.of_nat (seq 0 3000).
Proof. exact (py_range_unit 3000). Qed.

Lemma x_variante_filas (gauss : N -> Q) (cursor : N) :
  x_variante gauss cursor
  = (Ok (Arr2 1000 (filas_desde gauss (py_range 0 n_realizaciones 1) cursor)),
     (cursor + 1000 * 3000)%N).
Proof.
  unfold x_variante. rewrite filas_variante_ok.
  - rewrite np_array_uniform with (c := 1000%nat).
    + f_equal.
    + rewrite rango_realizaciones. discriminate.
    + apply filas_desde_wf.
  - apply List.Forall_forall. intros t Ht.
    apply py_range_elem in Ht as [[H0 _] _]. apply escala_nonneg, H0.
Qed.


End Variante_exact.

Section Variante_claims.
Local Open Scope Q_scope.

Lemma Forall2_map_Qeq {A : Type} (f g : A -> Q) (l : list A) :
  (forall k, f k == g k) -> Forall2 Qeq (map f l) (map g l).
Proof.
  intros Hfg. induction l as [|k l IH]; simpl; constructor; [apply Hfg|exact IH].
Qed.


Lemma fila_normal_lookup (gauss : N -> Q) (s : Q) (c : N) (n : nat) :
  (n < 1000)%nat ->
  fila_normal gauss s c !! n = Some (0 + s * gauss (c + N.of_nat n)%N).
Proof.
  intros Hn. unfold fila_normal. rewrite list_lookup_fmap.
  rewrite (proj2 (lookup_seq 0 1000 n n)) by (split; [reflexivity|exact Hn]).
  reflexivity.
Qed.

End Variante_claims.




(** * Further properties of the code *)

(** ** The FIR step as a filter *)

Section Filter_facts.
Context {T : Type} `{Num T}.

Lemma lfilter_ok (bs : list T) (a0 : T) (r : list T) :
  bs <> [] -> r <> [] ->
  lfilter bs a0 (Row r)
  = Ok (map (conv_at (map (fun c => ndiv c a0) bs) r) (seq 0 (length r))).
Proof.
  intros Hb Hr. unfold lfilter, convolve.
  destruct bs as [|b0 bs]; [congruence|].
  destruct r as [|x0 r]; [congruence|].
  cbn [map mbind res_bind]. f_equal.
  rewrite !length_map, length_seq. cbn [length].
  rewrite firstn_map, take_seq. f_equal. f_equal. lia.
Qed.

Lemma lfilter_empty_row (bs : list T) (a0 : T) :
  lfilter bs a0 (Row []) = Raise ValueError.
Proof. unfold lfilter, convolve. destruct (map _ bs); reflexivity. Qed.

(** A sample of the convolution looks at no later sample of the input. *)
Lemma conv_at_causal (bs x x' : list T) (k : nat) :
  (forall j, (j <= k)%nat -> nth j x num0 = nth j x' num0) ->
  conv_at bs x k = conv_at bs x' k.
Proof.
  revert k. induction bs as [|bj bs IH]; intros k Hx; [reflexivity|].
  cbn [conv_at]. rewrite (Hx k) by lia. f_equal.
  destruct k as [|k]; [reflexivity|]. apply IH. intros j Hj. apply Hx. lia.
Qed.

Lemma take_nth_eq (x x' : list T) (k j : nat) :
  take k x = take k x' -> (j < k)%nat -> nth j x num0 = nth j x' num0.
Proof.
  intros Hk Hj. rewrite !nth_lookup.
  rewrite <- (lookup_take_lt x k j Hj), <- (lookup_take_lt x' k j Hj), Hk.
  reflexivity.
Qed.

End Filter_facts.

(** The filtered row has the length of the input row, and its first [k]
    samples are fixed by the first [k] samples of the input: two rows that
    agree up to sample [k] are filtered alike up to sample [k], whatever
    comes later (over any number type). *)
Theorem lfilter_is_causal :
  forall (T : Type) (N : Num T) (bs : list T) (a0 : T) (r r' : list T) (k : nat),
    bs <> [] -> r <> [] -> r' <> [] ->
    take k r = take k r' ->
    exists o o' : list T,
      lfilter bs a0 (Row r) = Ok o /\ lfilter bs a0 (Row r') = Ok o'
      /\ length o = length r /\ length o' = length r'
      /\ take k o = take k o'.
Proof.
  intros T N bs a0 r r' k Hb Hr Hr' Hk.
  eexists _, _. split; [apply lfilter_ok; assumption|].
  split; [apply lfilter_ok; assumption|].
  split; [rewrite length_map, length_seq; reflexivity|].
  split; [rewrite length_map, length_seq; reflexivity|].
  assert (Hlen : Nat.min k (length r) = Nat.min k (length r')).
  { rewrite <- !length_take, Hk. reflexivity. }
  rewrite !firstn_map, !take_seq, <- Hlen.
  apply map_ext_in. intros j Hj. apply in_seq in Hj.
  apply conv_at_causal. intros i Hi. apply take_nth_eq with (k := k); [exact Hk|lia].
Qed.

Lemma lfilter_is_causal_witness :
  exists o o' : list Q,
    lfilter [1; -1 # 2; 1 # 4]%Q 1%Q (Row [1; 2; 3; 4]%Q) = Ok o
    /\ lfilter [1; -1 # 2; 1 # 4]%Q 1%Q (Row [1; 2; 9; 9; 9]%Q) = Ok o'
    /\ length o = length [1; 2; 3; 4]%Q /\ length o' = length [1; 2; 9; 9; 9]%Q
    /\ take 2 o = take 2 o'.
Proof.
  apply (lfilter_is_causal Q Q_Num [1; -1 # 2; 1 # 4]%Q 1%Q
           [1; 2; 3; 4]%Q [1; 2; 9; 9; 9]%Q 2%nat);
    try discriminate. reflexivity.
Defined.


Section Filter_exact.
Local Open Scope Q_scope.

Lemma nth_map_seq (f : nat -> Q) (L k : nat) :
  nth k (map f (seq 0 L)) 0 = if (k <? L)%nat then f k else 0.
Proof.
  rewrite nth_lookup, list_lookup_fmap.
  destruct (Nat.ltb_spec k L) as [Hk|Hk].
  - rewrite (proj2 (lookup_seq 0 L k k)) by (split; [reflexivity|exact Hk]). reflexivity.
  - rewrite (proj2 (lookup_ge_None (seq 0 L) k)) by (rewrite length_seq; exact Hk).
    reflexivity.
Qed.

Lemma nth_combination (alpha beta : Q) (u v : list Q) (k : nat) :
  length u = length v ->
  nth k (zip_with (fun x y => alpha * x + beta * y) u v) 0
  == alpha * nth k u 0 + beta * nth k v 0.
Proof.
  revert v k. induction u as [|x u IH]; intros [|y v] k Hlen; try discriminate.
  - destruct k; simpl; ring.
  - destruct k as [|k]; simpl; [reflexivity|]. apply IH. simpl in Hlen. lia.
Qed.

Lemma conv_at_linear (bs u v : list Q) (alpha beta : Q) (k : nat) :
  length u = length v ->
  conv_at bs (zip_with (fun x y => alpha * x + beta * y) u v) k
  == alpha * conv_at bs u k + beta * conv_at bs v k.
Proof.
  intros Hlen. revert k. induction bs as [|bj bs IH]; intros k.
  - cbn [conv_at]. change (@num0 Q Q_Num) with 0. ring.
  - cbn [conv_at]. change (@num0 Q Q_Num) with 0. cbn [nadd nmul Q_Num].
    rewrite (nth_combination alpha beta u v k Hlen).
    destruct k as [|k]; [ring|]. rewrite IH. ring.
Qed.

Lemma conv_at_before (bs x : list Q) (d k : nat) :
  (k < d)%nat -> conv_at bs (repeat 0 d ++ x) k == 0.
Proof.
  revert k. induction bs as [|bj bs IH]; intros k Hk.
  - reflexivity.
  - cbn [conv_at]. change (@num0 Q Q_Num) with 0. cbn [nadd nmul Q_Num].
    rewrite app_nth1 by (rewrite repeat_length; exact Hk).
    rewrite nth_repeat.
    destruct k as [|k]; [ring|]. rewrite IH by lia. ring.
Qed.

Lemma conv_at_shift (bs x : list Q) (d k : nat) :
  conv_at bs (repeat 0 d ++ x) (d + k) == conv_at bs x k.
Proof.
  revert k. induction bs as [|bj bs IH]; intros k.
  - reflexivity.
  - cbn [conv_at]. change (@num0 Q Q_Num) with 0. cbn [nadd nmul Q_Num].
    rewrite app_nth2 by (rewrite repeat_length; lia).
    rewrite repeat_length. replace (d + k - d)%nat with k by lia.
    destruct k as [|k].
    + destruct d as [|d]; [reflexivity|].
      replace (S d + 0)%nat with (S d) by lia.
      rewrite conv_at_before by lia. reflexivity.
    + replace (d + S k)%nat with (S (d + k)) by lia. rewrite IH. reflexivity.
Qed.

End Filter_exact.

(** On exact rationals the filter is linear: the filtered combination
    [alpha * u + beta * v] of two rows of equal length is the same
    combination of the filtered rows, sample by sample. *)
Theorem lfilter_is_linear :
  forall (bs : list Q) (a0 : Q) (u v : list Q) (alpha beta : Q),
    bs <> [] -> u <> [] -> length u = length v ->
    exists ou ov ow : list Q,
      lfilter bs a0 (Row u) = Ok ou /\ lfilter bs a0 (Row v) = Ok ov
      /\ lfilter bs a0 (Row (zip_with (fun x y => alpha * x + beta * y)%Q u v)) = Ok ow
      /\ length ow = length u
      /\ forall k : nat,
           (nth k ow 0 == alpha * nth k ou 0 + beta * nth k ov 0)%Q.
Proof.
  intros bs a0 u v alpha beta Hb Hu Hlen.
  assert (Hv : v <> []) by (destruct v; [destruct u; [congruence|discriminate]|discriminate]).
  assert (Hz : length (zip_with (fun x y => alpha * x + beta * y)%Q u v) = length u).
  { rewrite length_zip_with. lia. }
  assert (Hw : zip_with (fun x y => alpha * x + beta * y)%Q u v <> []).
  { intros E. rewrite E in Hz. destruct u; [congruence|discriminate]. }
  eexists _, _, _. split; [apply lfilter_ok; assumption|].
  split; [apply lfilter_ok; assumption|].
  split; [apply lfilter_ok; assumption|].
  split; [rewrite length_map, length_seq; exact Hz|].
  intros k. rewrite !nth_map_seq, Hz, <- Hlen.
  destruct (k <? length u)%nat.
  - apply conv_at_linear, Hlen.
  - ring.
Qed.

Lemma lfilter_is_linear_witness :
  exists ou ov ow : list Q,
    lfilter [1; -1 # 2; 1 # 4]%Q 1%Q (Row [1; 2; 3]%Q) = Ok ou
    /\ lfilter [1; -1 # 2; 1 # 4]%Q 1%Q (Row [0; 5; -1]%Q) = Ok ov
    /\ lfilter [1; -1 # 2; 1 # 4]%Q 1%Q
         (Row (zip_with (fun x y => 2 * x + 3 * y)%Q [1; 2; 3]%Q [0; 5; -1]%Q)) = Ok ow
    /\ length ow = length [1; 2; 3]%Q
    /\ forall k : nat, (nth k ow 0 == 2 * nth k ou 0 + 3 * nth k ov 0)%Q.
Proof.
  apply (lfilter_is_linear [1; -1 # 2; 1 # 4]%Q 1%Q [1; 2; 3]%Q [0; 5; -1]%Q 2%Q 3%Q);
    try discriminate. reflexivity.
Defined.

(** On exact rationals the filter is time invariant: when a row is delayed
    by [d] samples (zeros put in front), its filtered row is delayed by
    [d] samples too, and starts with [d] zeros. *)
Theorem lfilter_is_time_invariant :
  forall (bs : list Q) (a0 : Q) (r : list Q) (d : nat),
    bs <> [] -> r <> [] ->
    exists o o' : list Q,
      lfilter bs a0 (Row r) = Ok o
      /\ lfilter bs a0 (Row (repeat 0%Q d ++ r)) = Ok o'
      /\ length o' = (d + length r)%nat
      /\ (forall k : nat, (k < d)%nat -> (nth k o' 0 == 0)%Q)
      /\ (forall k : nat, (nth (d + k) o' 0 == nth k o 0)%Q).
Proof.
  intros bs a0 r d Hb Hr.
  assert (Hr' : repeat 0%Q d ++ r <> []).
  { destruct d; [exact Hr|discriminate]. }
  assert (Hlen : length (repeat 0%Q d ++ r) = (d + length r)%nat).
  { rewrite length_app, repeat_length. reflexivity. }
  eexists _, _. split; [apply lfilter_ok; assumption|].
  split; [apply lfilter_ok; assumption|].
  split; [rewrite length_map, length_seq; exact Hlen|]. split.
  - intros k Hk. rewrite nth_map_seq, Hlen.
    destruct (Nat.ltb_spec k (d + length r)); [|reflexivity].
    apply conv_at_before, Hk.
  - intros k. rewrite !nth_map_seq, Hlen.
    destruct (Nat.ltb_spec (d + k) (d + length r)); destruct (Nat.ltb_spec k (length r));
      try lia; [apply conv_at_shift|reflexivity].
Qed.

Lemma lfilter_is_time_invariant_witness :
  exists o o' : list Q,
    lfilter [1; -1 # 2; 1 # 4]%Q 1%Q (Row [1; 2; 3]%Q) = Ok o
    /\ lfilter [1; -1 # 2; 1 # 4]%Q 1%Q (Row (repeat 0%Q 2 ++ [1; 2; 3]%Q)) = Ok o'
    /\ length o' = (2 + length [1; 2; 3]%Q)%nat
    /\ (forall k : nat, (k < 2)%nat -> (nth k o' 0 == 0)%Q)
    /\ (forall k : nat, (nth (2 + k) o' 0 == nth k o 0)%Q).
Proof.
  apply (lfilter_is_time_invariant [1; -1 # 2; 1 # 4]%Q 1%Q [1; 2; 3]%Q 2%nat);
    discriminate.
Defined.


(** ** Runs of the routine *)

Section Run_facts.
Context {T : Type} `{Num T}.

Lemma traverse_raise {A B : Type} (f : A -> res B) (g : A -> B) (l1 l2 : list A)
    (v : A) (e : exn) :
  (forall u, In u l1 -> f u = Ok (g u)) -> f v = Raise e ->
  traverse f (l1 ++ v :: l2) = Raise e.
Proof.
  intros Hl Hv. induction l1 as [|u l1 IH]; simpl.
  - rewrite Hv. reflexivity.
  - rewrite (Hl u) by (left; reflexivity). simpl.
    rewrite IH by (intros u' Hu'; apply Hl; right; exact Hu'). reflexivity.
Qed.

Lemma filas_filtradas_n (c : nat) (rows : list (list T)) (bs : list T) (n : nat) :
  bs <> [] -> Forall (fun r => r <> []) rows -> (n <= length rows)%nat ->
  traverse (fun i => xi ← getitem (Arr2 c rows) i; lfilter bs num1 xi)
           (py_range 0 (Z.of_nat n) 1)
  = Ok (map (fir_fila bs) (take n rows)).
Proof.
  intros Hb Hne Hn. rewrite py_range_unit.
  rewrite <- (map_indices_take (fir_fila bs) [] rows n Hn).
  apply traverse_map. intros v Hv.
  apply in_map_iff in Hv as [i [<- Hi]]. apply in_seq in Hi.
  destruct (rows !! i) as [r|] eqn:E.
  - rewrite (getitem_row c rows i r E). simpl.
    rewrite Nat2Z.id, (nth_lookup_Some _ _ [] _ E).
    apply lfilter_row; [exact Hb|].
    rewrite List.Forall_forall in Hne. apply Hne.
    apply list_elem_of_In, list_elem_of_lookup. exists i. exact E.
  - apply lookup_ge_None in E. lia.
Qed.

Lemma rows_nonempty (c : nat) (rows : list (list T)) :
  (0 < c)%nat -> Forall (fun r => length r = c) rows -> Forall (fun r => r <> []) rows.
Proof.
  intros Hc Hw. eapply Forall_impl; [exact Hw|].
  simpl. intros r Hr ->. simpl in Hr. lia.
Qed.

Lemma y_fir_n (c : nat) (rows : list (list T)) (a : T) (n : nat) :
  is_zero a = false -> (0 < c)%nat -> Forall (fun r => length r = c) rows ->
  (1 <= n <= length rows)%nat ->
  y_fir (Arr2 c rows) (Z.of_nat n) a
  = Ok (Arr2 c (map (fir_fila (coeficientes a)) (take n rows))).
Proof.
  intros Ha Hc Hw Hn. unfold y_fir. rewrite (b_ok a Ha). cbn [mbind res_bind].
  rewrite filas_filtradas_n; [|discriminate|apply (rows_nonempty c); assumption|lia].
  apply np_array_uniform.
  - destruct rows as [|r rows]; [simpl in Hn; lia|].
    destruct n; [lia|discriminate].
  - apply Forall_map, Forall_take. eapply Forall_impl; [exact Hw|].
    simpl. intros r Hr. rewrite fir_fila_length. exact Hr.
Qed.

Lemma y_fir_too_many (c : nat) (rows : list (list T)) (a : T) (n : Z) :
  is_zero a = false -> (0 < c)%nat -> Forall (fun r => length r = c) rows ->
  Z.of_nat (length rows) < n ->
  y_fir (Arr2 c rows) n a = Raise IndexError.
Proof.
  intros Ha Hc Hw Hn. unfold y_fir. rewrite (b_ok a Ha). cbn [mbind res_bind].
  replace n with (Z.of_nat (Z.to_nat n)) by lia. rewrite py_range_unit.
  replace (Z.to_nat n) with (length rows + S (Z.to_nat n - length rows - 1))%nat by lia.
  rewrite seq_app, map_app. cbn [seq map].
  rewrite (traverse_raise _ (fun i => fir_fila (coeficientes a) (nth (Z.to_nat i) rows []))
             _ _ _ IndexError); [reflexivity| |].
  - intros u Hu. apply in_map_iff in Hu as [i [<- Hi]]. apply in_seq in Hi.
    destruct (rows !! i) as [r|] eqn:E; [|apply lookup_ge_None in E; lia].
    rewrite (getitem_row c rows i r E). cbn [mbind res_bind].
    rewrite Nat2Z.id, (nth_lookup_Some _ _ [] _ E).
    apply lfilter_row; [discriminate|].
    pose proof (rows_nonempty c rows Hc Hw) as Hne.
    rewrite List.Forall_forall in Hne. apply Hne.
    apply list_elem_of_In, list_elem_of_lookup. exists i. exact E.
  - rewrite getitem_out by lia. reflexivity.
Qed.

Lemma y_fir_none (x : ndarray T) (a : T) (n : Z) :
  is_zero a = false -> n <= 0 -> y_fir x n a = Ok (Arr1 []).
Proof.
  intros Ha Hn. unfold y_fir. rewrite (b_ok a Ha). cbn [mbind res_bind].
  rewrite py_range_nonpos by exact Hn. reflexivity.
Qed.


Lemma preparar_raise (w : world T) (lx : loc) (x : ndarray T) (n : Z) (a : T) (e : exn) :
  heap w !! lx = Some x -> y_fir x n a = Raise e ->
  preparar lx n a w = (Raise e, w).
Proof.
  intros Hx Hy. unfold preparar. unfold mbind at 1. unfold M_bind at 1.
  rewrite (procesar_raise w lx x n a e Hx Hy). reflexivity.
Qed.

Lemma animar_raise (w : world T) (lx : loc) (x : ndarray T) (n : Z) (a : T) (tau : Z)
    (ticks : nat) (e : exn) :
  heap w !! lx = Some x -> y_fir x n a = Raise e ->
  animar_medias_tiempo lx n a tau ticks w = (Raise e, w).
Proof.
  intros Hx Hy. unfold animar_medias_tiempo. unfold mbind at 1. unfold M_bind at 1.
  rewrite (preparar_raise w lx x n a e Hx Hy). reflexivity.
Qed.

Lemma preparar_ok_n (w : world T) (lx : loc) (rows : list (list T)) (a : T) (n : nat) :
  heap w !! lx = Some (Arr2 1000 rows) ->
  Forall (fun r => length r = 1000%nat) rows -> (1 <= n <= length rows)%nat ->
  is_zero a = false ->
  let yf := Arr2 1000 (map (fir_fila (coeficientes a)) (take n rows)) in
  let yn := y_nl (Arr2 1000 rows) in
  y_fir (Arr2 1000 rows) (Z.of_nat n) a = Ok yf
  /\ preparar lx (Z.of_nat n) a w
     = (Ok (ref_fir w, ref_nl w yf), preparado w yf yn (Z.of_nat n)).
Proof.
  intros Hx Hw Hn Ha yf yn.
  assert (Hy : y_fir (Arr2 1000 rows) (Z.of_nat n) a = Ok yf).
  { apply y_fir_n; [exact Ha|lia|exact Hw|exact Hn]. }
  split; [exact Hy|].
  unfold preparar. unfold mbind at 1. unfold M_bind at 1.
  rewrite (procesar_ok w lx _ yf _ a Hx Hy).
  unfold mbind at 1. unfold M_bind at 1.
  rewrite (crear_figura_ok (procesado w yf (y_nl (Arr2 1000 rows))) (ref_fir w) (ref_nl w yf)
             (map (fir_fila (coeficientes a)) (take n rows)) (map (map square) rows)).
  - reflexivity.
  - apply procesado_fir.
  - apply procesado_nl.
  - apply Forall_map, Forall_take. eapply Forall_impl; [exact Hw|].
    simpl. intros r Hr. rewrite fir_fila_length. exact Hr.
  - apply Forall_map. eapply Forall_impl; [exact Hw|].
    simpl. intros r Hr. rewrite length_map. exact Hr.
  - rewrite length_map, length_take. lia.
  - rewrite length_map. lia.
Qed.

Lemma for_each_app {A : Type} (body : A -> M (list artist)) (l1 l2 : list A) (w : world T) :
  for_each body (l1 ++ l2) w
  = match for_each body l1 w with
    | (Ok _, w1) => for_each body l2 w1
    | (Raise e, w1) => (Raise e, w1)
    end.
Proof.
  revert w. induction l1 as [|v l1 IH]; intros w; [reflexivity|].
  cbn [app for_each]. unfold mbind, M_bind.
  destruct (body v w) as [[arts|e] w1]; [apply IH|reflexivity].
Qed.

(** Frames inside the axis are drawn one after the other; the figure ends
    up as the last of them leaves it. *)
Lemma for_each_draw (lf ln : loc) (frows nrows : list (list T)) (tau : Z) (fs : list Z) :
  forall w : world T,
    heap w !! lf = Some (Arr2 1000 frows) -> heap w !! ln = Some (Arr2 1000 nrows) ->
    Forall (fun f => -1000 <= f < 1000 /\ -1000 <= f + tau < 1000) fs ->
    for_each (update lf ln tau) fs w
    = (Ok tt,
       World (heap w)
         (match last fs with
          | None => fig w
          | Some f => dibujo (fig w) (Arr2 1000 frows) (Arr2 1000 nrows) tau f
          end)).
Proof.
  induction fs as [|f fs IH]; intros w Hf Hn Hfs.
  - destruct w. reflexivity.
  - inversion Hfs as [|? ? [Hf1 Hf2] Hfs']; subst.
    cbn [for_each]. unfold mbind, M_bind.
    rewrite (update_draw w lf ln frows nrows tau f Hf Hn Hf1 Hf2).
    rewrite IH by assumption. cbn [heap fig]. f_equal. f_equal.
    rewrite last_cons. destruct (last fs); reflexivity.
Qed.

Lemma take_concat_repeat {A : Type} (l : list A) (k n : nat) :
  (k <= length l)%nat -> (k <= n)%nat ->
  take n (concat (repeat l n)) = take k l ++ take (n - k) (drop k (concat (repeat l n))).
Proof.
  intros Hk Hn.
  assert (Hpre : take k (concat (repeat l n)) = take k l).
  { destruct n as [|n]; [replace k with O by lia; reflexivity|].
    cbn [repeat concat]. apply take_app_le. exact Hk. }
  rewrite <- Hpre, take_take_drop. f_equal. lia.
Qed.

End Run_facts.


Section Run_facts_2.
Context {T : Type} `{Num T}.

Lemma py_range_empty (stop : Z) (step : positive) :
  stop <= 0 -> py_range 0 stop step = [].
Proof.
  intros Hs. unfold py_range.
  replace (Z.to_nat ((stop - 0 + Z.pos step - 1) / Z.pos step)) with O; [reflexivity|].
  assert ((stop - 0 + Z.pos step - 1) / Z.pos step <= 0); [|lia].
  assert ((stop - 0 + Z.pos step - 1) / Z.pos step < 1); [|lia].
  apply Z.div_lt_upper_bound; lia.
Qed.

Lemma py_range_head (stop : Z) (step : positive) :
  0 < stop -> exists rest, py_range 0 stop step = 0 :: rest.
Proof.
  intros Hs. unfold py_range.
  assert (Hq : 1 <= (stop - 0 + Z.pos step - 1) / Z.pos step).
  { apply Z.div_le_lower_bound; lia. }
  destruct (Z.to_nat ((stop - 0 + Z.pos step - 1) / Z.pos step)) as [|k] eqn:E; [lia|].
  cbn [seq map]. eexists. reflexivity.
Qed.

Lemma on_ticks_nil (ticks : nat) : on_ticks [] ticks = [].
Proof.
  unfold on_ticks. cbn [firstn app].
  replace (concat (repeat ([] : list Z) ticks)) with ([] : list Z); [apply firstn_nil|].
  induction ticks as [|k IH]; [reflexivity|]. cbn [repeat concat app]. exact IH.
Qed.

Lemma delivered_nil (ticks : nat) : delivered [] ticks = [].
Proof. unfold delivered. rewrite on_ticks_nil. reflexivity. Qed.

(** An exception of the first frame is raised when the animation is
    created, before any tick. *)
Lemma show_raises_at_once (w : world T) (lf ln : loc) (tau : Z) (ticks : nat) (e : exn) :
  tau < 1000 ->
  update lf ln tau 0 w = (Raise e, w) ->
  show (FuncAnimation lf ln tau) ticks w = (Raise e, w).
Proof.
  intros Htau Hu. unfold show. cbn [func frames FuncAnimation].
  destruct (py_range_head (1000 - tau) 10 ltac:(lia)) as [rest ->].
  cbn [firstn for_each]. unfold mbind at 1. unfold M_bind at 1.
  unfold mbind at 1. unfold M_bind at 1. rewrite Hu. reflexivity.
Qed.

Lemma show_nothing (w : world T) (lf ln : loc) (tau : Z) (ticks : nat) :
  1000 <= tau -> show (FuncAnimation lf ln tau) ticks w = (Ok tt, w).
Proof.
  intros Htau. unfold show. cbn [func frames FuncAnimation].
  rewrite py_range_empty by lia. rewrite on_ticks_nil. reflexivity.
Qed.

(** The animation as a whole, when no frame raises: the frames of
    [delivered] one after the other. *)
Lemma show_for_each (ani : animation T) (ticks : nat) (w w' : world T) :
  for_each (func ani) (delivered (frames ani) ticks) w = (Ok tt, w') ->
  show ani ticks w = (Ok tt, w').
Proof.
  unfold show, delivered. rewrite for_each_app.
  unfold mbind at 1. unfold M_bind at 1.
  destruct (for_each (func ani) (take 1 (frames ani)) w) as [[[]|e] w1]; [|discriminate].
  intros Hloop. rewrite for_each_in_event_loop. unfold in_event_loop.
  rewrite Hloop. reflexivity.
Qed.

Lemma delivered_bounds (tau : Z) (ticks : nat) :
  0 <= tau ->
  Forall (fun f => -1000 <= f < 1000 /\ -1000 <= f + tau < 1000)
         (delivered (py_range 0 (1000 - tau) 10) ticks).
Proof.
  intros Htau. apply List.Forall_forall. intros f Hf.
  apply delivered_from, py_range_elem in Hf as [[H0 Hlt] _]. lia.
Qed.

(** A window on a well-formed pair of processed ensembles, with a lag that
    is not negative, draws every frame it is handed. *)
Lemma show_draws (w1 : world T) (lf ln : loc) (frows nrows : list (list T)) (tau : Z)
    (ticks : nat) :
  heap w1 !! lf = Some (Arr2 1000 frows) -> heap w1 !! ln = Some (Arr2 1000 nrows) ->
  0 <= tau ->
  show (FuncAnimation lf ln tau) ticks w1
  = (Ok tt,
     World (heap w1)
       (match last (delivered (py_range 0 (1000 - tau) 10) ticks) with
        | None => fig w1
        | Some f => dibujo (fig w1) (Arr2 1000 frows) (Arr2 1000 nrows) tau f
        end)).
Proof.
  intros Hf Hn Htau. apply show_for_each. cbn [func frames FuncAnimation].
  apply (for_each_draw lf ln frows nrows); [exact Hf|exact Hn|].
  apply delivered_bounds, Htau.
Qed.

Lemma crear_figura_sin_trazas (w : world T) (lf ln : loc) (yf yn : ndarray T) (n : Z) :
  heap w !! lf = Some yf -> heap w !! ln = Some yn -> n <= 0 ->
  crear_figura lf ln n w
  = (Ok tt, World (heap w) (Figure [] [] [0; 0] [0; 0] [0; 0] [0; 0] "" "")).
Proof.
  intros Hf Hn Hle. unfold crear_figura, mbind, M_bind, read, lift, set_fig.
  rewrite Hf, Hn, py_range_nonpos by lia. reflexivity.
Qed.

Lemma crear_figura_mal (w : world T) (lf ln : loc) (c : nat) (rows : list (list T))
    (yn : ndarray T) (n : Z) :
  heap w !! lf = Some (Arr2 c rows) -> Forall (fun r => length r = c) rows ->
  rows <> [] -> 1 <= n -> c <> 1000%nat ->
  crear_figura lf ln n w = (Raise ValueError, w).
Proof.
  intros Hf Hw Hne Hn Hc. unfold crear_figura.
  unfold mbind at 1. unfold M_bind at 1. unfold read at 1. rewrite Hf.
  unfold mbind at 1. unfold M_bind at 1. unfold lift at 1.
  replace (traverse (fun i => r ← getitem (Arr2 c rows) i; plot r)
                    (py_range 0 (Z.min n 10) 1))
    with (Raise (A := list (list T)) ValueError); [reflexivity|].
  symmetry. destruct (py_range_head (Z.min n 10) 1 ltac:(lia)) as [rest ->].
  destruct rows as [|r rows]; [congruence|].
  apply (traverse_raise _ (fun _ => r) [] rest 0 ValueError); [intros u []|].
  change 0 with (Z.of_nat 0).
  rewrite (getitem_row c (r :: rows) 0 r eq_refl). cbn [mbind res_bind plot].
  inversion Hw as [|? ? Hr _]; subst.
  destruct (Nat.eqb_spec (length r) 1000); [congruence|reflexivity].
Qed.

End Run_facts_2.


(** ** Errors of the routine *)



(** When more realizations are asked for than the ensemble has rows, the
    comprehension of line 30 runs past the last row and the call ends with
    an [IndexError]; no array is created and the figure is untouched. *)
Theorem too_many_realizations_raise :
  forall (T : Type) (N : Num T) (w : world T) (lx : loc) (x : ndarray T)
         (R C : nat) (n : Z) (a : T) (tau : Z) (ticks : nat),
    heap w !! lx = Some x -> has_shape x R C -> (0 < C)%nat ->
    is_zero a = false -> Z.of_nat R < n ->
    animar_medias_tiempo lx n a tau ticks w = (Raise IndexError, w).
Proof.
  intros T N w lx x R C n a tau ticks Hx Hs HC Ha Hn.
  apply has_shape_inv in Hs as [rows [-> [HR Hw]]]. subst R.
  apply (animar_raise w lx _ n a tau ticks IndexError Hx).
  apply y_fir_too_many; assumption.
Qed.

Lemma too_many_realizations_raise_witness :
  animar_medias_tiempo (T := Q) 1%positive 2 (2 # 1)%Q 100 3
    (World {[1%positive := rampa]} blank)
  = (Raise IndexError, World {[1%positive := rampa]} blank).
Proof.
  refine (too_many_realizations_raise Q Q_Num (World {[1%positive := rampa]} blank)
            1%positive (rampa (T := Q)) 1%nat 1000%nat 2 (2 # 1)%Q 100 3%nat _ _ _ _ _).
  - vm_compute. reflexivity.
  - split; [reflexivity|]. repeat constructor.
  - lia.
  - reflexivity.
  - lia.
Defined.

(** An ensemble whose rows do not have 1000 samples makes the call end
    with a [ValueError]: rows without samples are refused by the filter,
    rows of another length by [plot], whose time axis has 1000 points.  The
    arrays that were in the store are unchanged, and so is the figure. *)
Theorem wrong_row_length_raises :
  forall (T : Type) (N : Num T) (w : world T) (lx : loc) (x : ndarray T)
         (R C : nat) (a : T) (tau : Z) (ticks : nat),
    heap w !! lx = Some x -> has_shape x R C -> (0 < R)%nat -> C <> 1000%nat ->
    is_zero a = false ->
    exists w' : world T,
      animar_medias_tiempo lx (Z.of_nat R) a tau ticks w = (Raise ValueError, w')
      /\ fig w' = fig w
      /\ heap w ⊆ heap w'.
Proof.
  intros T N w lx x R C a tau ticks Hx Hs HR HC Ha.
  apply has_shape_inv in Hs as [rows [-> [HRl Hw]]]. subst R.
  assert (Hne : rows <> []) by (destruct rows; [simpl in HR; lia|discriminate]).
  destruct C as [|C].
  - exists w. split; [|split; reflexivity].
    apply (animar_raise w lx _ _ a tau ticks ValueError Hx).
    unfold y_fir. rewrite (b_ok a Ha). cbn [mbind res_bind].
    destruct rows as [|r rows]; [congruence|].
    inversion Hw as [|? ? Hr _]; subst. destruct r; [|discriminate].
    rewrite (py_range_unit (length ([] :: rows))). cbn [length seq map].
    change (Z.of_nat 0 :: map Z.of_nat (seq 1 (length rows)))
      with ([] ++ Z.of_nat 0 :: map Z.of_nat (seq 1 (length rows))).
    rewrite (traverse_raise _ (fun _ => []) [] _ _ ValueError); [reflexivity|intros u []|].
    rewrite (getitem_row 0 ([] :: rows) 0 [] eq_refl). cbn [mbind res_bind].
    apply lfilter_empty_row.
  - set (yf := Arr2 (S C) (map (fir_fila (coeficientes a)) rows)).
    assert (Hy : y_fir (Arr2 (S C) rows) (Z.of_nat (length rows)) a = Ok yf).
    { apply y_fir_shape; [exact Ha|lia|exact Hne|exact Hw]. }
    exists (procesado w yf (y_nl (Arr2 (S C) rows))).
    split; [|split].
    + unfold animar_medias_tiempo. unfold mbind at 1. unfold M_bind at 1.
      unfold preparar. unfold mbind at 1. unfold M_bind at 1.
      rewrite (procesar_ok w lx _ yf _ a Hx Hy).
      unfold mbind at 1. unfold M_bind at 1.
      rewrite (crear_figura_mal _ (ref_fir w) (ref_nl w yf) (S C)
                 (map (fir_fila (coeficientes a)) rows) (y_nl (Arr2 (S C) rows))).
      * reflexivity.
      * apply procesado_fir.
      * apply Forall_map. eapply Forall_impl; [exact Hw|].
        simpl. intros r Hr. rewrite fir_fila_length. exact Hr.
      * destruct rows; [congruence|discriminate].
      * lia.
      * exact HC.
    + reflexivity.
    + pose proof (preserva_procesar lx (Z.of_nat (length rows)) a w) as Hsub.
      rewrite (procesar_ok w lx _ yf _ a Hx Hy) in Hsub. exact Hsub.
Qed.

Lemma wrong_row_length_raises_witness :
  exists w' : world Q,
    animar_medias_tiempo 1%positive (Z.of_nat 1) (2 # 1)%Q 100 3
      (World {[1%positive := Arr2 3 [[1; 2; 3]%Q]]} blank)
    = (Raise ValueError, w')
    /\ fig w' = fig (World {[1%positive := Arr2 3 [[1; 2; 3]%Q]]} blank)
    /\ heap (World {[1%positive := Arr2 3 [[1; 2; 3]%Q]]} blank) ⊆ heap w'.
Proof.
  refine (wrong_row_length_raises Q Q_Num
            (World {[1%positive := Arr2 3 [[1; 2; 3]%Q]]} blank)
            1%positive (Arr2 3 [[1; 2; 3]%Q]) 1%nat 3%nat (2 # 1)%Q 100 3%nat _ _ _ _ _).
  - vm_compute. reflexivity.
  - split; [reflexivity|]. repeat constructor.
  - lia.
  - lia.
  - reflexivity.
Defined.

(** With no realization asked for ([n_realizaciones <= 0]) the filtered
    ensemble is the empty 1-D array, whatever the ensemble; the figure is
    set up without traces, and then the first frame ends with an
    [IndexError], however long the window stays open.  Only a lag of
    1000 or more, which leaves no frame at all, lets the call return. *)
Theorem no_realizations :
  forall (T : Type) (N : Num T) (w : world T) (lx : loc) (x : ndarray T)
         (n : Z) (a : T) (tau : Z) (ticks : nat),
    heap w !! lx = Some x -> n <= 0 -> is_zero a = false ->
    y_fir x n a = Ok (Arr1 [])
    /\ preparar lx n a w
       = (Ok (ref_fir w, ref_nl w (Arr1 [])),
          World (heap (procesado w (Arr1 []) (y_nl x)))
                (Figure [] [] [0; 0] [0; 0] [0; 0] [0; 0] "" ""))
    /\ animar_medias_tiempo lx n a tau ticks w
       = (if tau <? 1000 then Raise IndexError else Ok tt,
          World (heap (procesado w (Arr1 []) (y_nl x)))
                (Figure [] [] [0; 0] [0; 0] [0; 0] [0; 0] "" "")).
Proof.
  intros T N w lx x n a tau ticks Hx Hn Ha.
  assert (Hy : y_fir x n a = Ok (Arr1 [])) by (apply y_fir_none; assumption).
  assert (Hp : preparar lx n a w
               = (Ok (ref_fir w, ref_nl w (Arr1 [])),
                  World (heap (procesado w (Arr1 []) (y_nl x)))
                        (Figure [] [] [0; 0] [0; 0] [0; 0] [0; 0] "" ""))).
  { unfold preparar. unfold mbind at 1. unfold M_bind at 1.
    rewrite (procesar_ok w lx x (Arr1 []) n a Hx Hy).
    unfold mbind at 1. unfold M_bind at 1.
    rewrite (crear_figura_sin_trazas _ _ _ (Arr1 []) (y_nl x));
      [reflexivity|apply procesado_fir|apply procesado_nl|exact Hn]. }
  split; [exact Hy|]. split; [exact Hp|].
  unfold animar_medias_tiempo. unfold mbind at 1. unfold M_bind at 1. rewrite Hp.
  destruct (Z.ltb_spec tau 1000) as [Htau|Htau].
  - apply show_raises_at_once; [exact Htau|].
    apply update_vec with (v := []); [cbn [heap]; apply procesado_fir|lia].
  - apply show_nothing, Htau.
Qed.

Lemma no_realizations_witness :
  y_fir (T := Q) rampa 0 (2 # 1)%Q = Ok (Arr1 [])
  /\ preparar 1%positive 0 (2 # 1)%Q (World {[1%positive := rampa]} blank)
     = (Ok (ref_fir (World {[1%positive := rampa]} blank),
            ref_nl (World {[1%positive := rampa]} blank) (Arr1 [])),
        World (heap (procesado (World {[1%positive := rampa]} blank) (Arr1 []) (y_nl rampa)))
              (Figure [] [] [0; 0] [0; 0] [0; 0] [0; 0] "" ""))
  /\ animar_medias_tiempo 1%positive 0 (2 # 1)%Q 100 3 (World {[1%positive := rampa]} blank)
     = (Raise IndexError,
        World (heap (procesado (World {[1%positive := rampa]} blank) (Arr1 []) (y_nl rampa)))
              (Figure [] [] [0; 0] [0; 0] [0; 0] [0; 0] "" "")).
Proof.
  refine (no_realizations Q Q_Num (World {[1%positive := rampa]} blank)
            1%positive (rampa (T := Q)) 0 (2 # 1)%Q 100 3%nat _ _ _).
  - vm_compute. reflexivity.
  - lia.
  - reflexivity.
Defined.


(** ** Fewer realizations than rows *)

(** When fewer realizations are asked for than the ensemble has rows
    ([1 <= n <= R]), the filtered ensemble is made of the first [n] rows
    only, each filtered as in the full ensemble, while the squared
    ensemble keeps all [R] rows: at a column the top panel averages [n]
    values and the bottom panel [R]. *)
Theorem fewer_realizations_than_rows :
  forall (T : Type) (N : Num T) (x : ndarray T) (R n : nat) (a : T),
    has_shape x R 1000 -> (1 <= n <= R)%nat -> is_zero a = false ->
    exists yf yfull : ndarray T,
      y_fir x (Z.of_nat n) a = Ok yf
      /\ y_fir x (Z.of_nat R) a = Ok yfull
      /\ has_shape yf n 1000
      /\ filas yf = take n (filas yfull)
      /\ has_shape (y_nl x) R 1000
      /\ forall k : nat,
           length (columna yf k) = n /\ length (columna (y_nl x) k) = R.
Proof.
  intros T N x R n a Hx Hn Ha.
  assert (Hnl : has_shape (y_nl x) R 1000).
  { destruct Hx as [Hs Hw]. split; [|apply power2_wf, Hw].
    unfold y_nl. rewrite power2_shape. exact Hs. }
  apply has_shape_inv in Hx as [rows [-> [HRl Hw]]]. subst R.
  exists (Arr2 1000 (map (fir_fila (coeficientes a)) (take n rows))).
  exists (Arr2 1000 (map (fir_fila (coeficientes a)) rows)).
  split; [apply y_fir_n; [exact Ha|lia|exact Hw|exact Hn]|].
  split; [apply y_fir_shape; [exact Ha|lia| |exact Hw]|].
  { destruct rows; [simpl in Hn; lia|discriminate]. }
  split; [|split; [|split]].
  - split; [simpl; rewrite length_map, length_take; f_equal; lia|].
    apply Forall_map, Forall_take. eapply Forall_impl; [exact Hw|].
    simpl. intros r Hr. rewrite fir_fila_length. exact Hr.
  - cbn [filas]. rewrite firstn_map. reflexivity.
  - exact Hnl.
  - intros k. cbn [columna y_nl power2]. rewrite !length_map, length_take. lia.
Qed.

Lemma fewer_realizations_than_rows_witness :
  exists yf yfull : ndarray Q,
    y_fir dos_rampas (Z.of_nat 1) (2 # 1)%Q = Ok yf
    /\ y_fir dos_rampas (Z.of_nat 2) (2 # 1)%Q = Ok yfull
    /\ has_shape yf 1 1000
    /\ filas yf = take 1 (filas yfull)
    /\ has_shape (y_nl (T := Q) dos_rampas) 2 1000
    /\ forall k : nat,
         length (columna yf k) = 1%nat
         /\ length (columna (y_nl (T := Q) dos_rampas) k) = 2%nat.
Proof.
  refine (fewer_realizations_than_rows Q Q_Num dos_rampas 2%nat 1%nat (2 # 1)%Q _ _ _).
  - split; [reflexivity|]. repeat constructor.
  - lia.
  - reflexivity.
Defined.

(** ** The figure before the first frame *)

(** For an ensemble of shape (R, 1000) and [1 <= n <= R] realizations, the
    lines up to the animation succeed: the store gains the two processed
    ensembles and nothing else changes in it; each panel shows the first
    [min(n, 10)] rows of its ensemble as traces; the four markers are at 0
    and both annotations are empty. *)
Theorem figure_before_the_first_frame :
  forall (T : Type) (N : Num T) (w : world T) (lx : loc) (x : ndarray T)
         (R n : nat) (a : T),
    heap w !! lx = Some x -> has_shape x R 1000 -> (1 <= n <= R)%nat ->
    is_zero a = false ->
    exists (yf : ndarray T) (w1 : world T),
      y_fir x (Z.of_nat n) a = Ok yf
      /\ preparar lx (Z.of_nat n) a w = (Ok (ref_fir w, ref_nl w yf), w1)
      /\ heap w1 = <[ref_nl w yf := y_nl x]> (<[ref_fir w := yf]> (heap w))
      /\ fir_lines (fig w1) = take (Nat.min n 10) (filas yf)
      /\ nl_lines (fig w1) = take (Nat.min n 10) (filas (y_nl x))
      /\ length (fir_lines (fig w1)) = Nat.min n 10
      /\ length (nl_lines (fig w1)) = Nat.min n 10
      /\ sin_mover (fig w1)
      /\ txt1 (fig w1) = ""%string /\ txt2 (fig w1) = ""%string.
Proof.
  intros T N w lx x R n a Hx Hs Hn Ha.
  apply has_shape_inv in Hs as [rows [-> [HRl Hw]]]. subst R.
  destruct (preparar_ok_n w lx rows a n Hx Hw Hn Ha) as [Hy Hp].
  eexists _, _. split; [exact Hy|]. split; [exact Hp|].
  cbn [preparado y_nl power2 heap fig procesado lienzo fir_lines nl_lines filas
       txt1 txt2].
  replace (Z.to_nat (Z.min (Z.of_nat n) 10)) with (Nat.min n 10) by lia.
  split; [reflexivity|]. split; [reflexivity|]. split; [reflexivity|].
  split; [rewrite length_take, length_map, length_take; lia|].
  split; [rewrite length_take, length_map; lia|].
  split; [repeat split|]. split; reflexivity.
Qed.

Lemma figure_before_the_first_frame_witness :
  exists (yf : ndarray Q) (w1 : world Q),
    y_fir rampa (Z.of_nat 1) (2 # 1)%Q = Ok yf
    /\ preparar 1%positive (Z.of_nat 1) (2 # 1)%Q (World {[1%positive := rampa]} blank)
       = (Ok (ref_fir (World {[1%positive := rampa]} blank),
              ref_nl (World {[1%positive := rampa]} blank) yf), w1)
    /\ heap w1
       = <[ref_nl (World {[1%positive := rampa]} blank) yf := y_nl rampa]>
           (<[ref_fir (World {[1%positive := rampa]} blank) := yf]>
              (heap (World {[1%positive := rampa]} blank)))
    /\ fir_lines (fig w1) = take (Nat.min 1 10) (filas yf)
    /\ nl_lines (fig w1) = take (Nat.min 1 10) (filas (y_nl (T := Q) rampa))
    /\ length (fir_lines (fig w1)) = Nat.min 1 10
    /\ length (nl_lines (fig w1)) = Nat.min 1 10
    /\ sin_mover (fig w1)
    /\ txt1 (fig w1) = ""%string /\ txt2 (fig w1) = ""%string.
Proof.
  refine (figure_before_the_first_frame Q Q_Num (World {[1%positive := rampa]} blank)
            1%positive (rampa (T := Q)) 1%nat 1%nat (2 # 1)%Q _ _ _ _).
  - vm_compute. reflexivity.
  - split; [reflexivity|]. repeat constructor.
  - lia.
  - reflexivity.
Defined.

(** ** Whole runs *)

(** With a lag that is not negative the call never raises on an ensemble
    of shape (R, 1000) with [1 <= n <= R] and [a] not 0, however long the
    window stays open.  The store ends with the two processed ensembles
    added, the traces are those drawn at the start, and the figure is the
    one that the last frame handed to [update] leaves (the initial one
    when the lag is 1000 or more and there is no frame). *)
Theorem nonnegative_lag_never_raises :
  forall (T : Type) (N : Num T) (w : world T) (lx : loc) (x : ndarray T)
         (R n : nat) (a : T) (tau : Z) (ticks : nat),
    heap w !! lx = Some x -> has_shape x R 1000 -> (1 <= n <= R)%nat ->
    is_zero a = false -> 0 <= tau ->
    exists (yf : ndarray T) (w1 w' : world T),
      y_fir x (Z.of_nat n) a = Ok yf
      /\ preparar lx (Z.of_nat n) a w = (Ok (ref_fir w, ref_nl w yf), w1)
      /\ animar_medias_tiempo lx (Z.of_nat n) a tau ticks w = (Ok tt, w')
      /\ heap w' = <[ref_nl w yf := y_nl x]> (<[ref_fir w := yf]> (heap w))
      /\ fig w'
         = if 1000 <=? tau then fig w1
           else match last (delivered (frames (FuncAnimation (ref_fir w) (ref_nl w yf) tau))
                                      ticks) with
                | None => fig w1
                | Some f => dibujo (fig w1) yf (y_nl x) tau f
                end.
Proof.
  intros T N w lx x R n a tau ticks Hx Hs Hn Ha Htau.
  apply has_shape_inv in Hs as [rows [-> [HRl Hw]]]. subst R.
  destruct (preparar_ok_n w lx rows a n Hx Hw Hn Ha) as [Hy Hp].
  set (yf := Arr2 1000 (map (fir_fila (coeficientes a)) (take n rows))) in *.
  set (w1 := preparado w yf (y_nl (Arr2 1000 rows)) (Z.of_nat n)) in *.
  assert (Hrun : show (FuncAnimation (ref_fir w) (ref_nl w yf) tau) ticks w1
                 = (Ok tt,
                    World (heap w1)
                      (match last (delivered (py_range 0 (1000 - tau) 10) ticks) with
                       | None => fig w1
                       | Some f => dibujo (fig w1) yf (y_nl (Arr2 1000 rows)) tau f
                       end))).
  { apply (show_draws w1 (ref_fir w) (ref_nl w yf)
             (map (fir_fila (coeficientes a)) (take n rows)) (map (map square) rows)).
    - apply procesado_fir.
    - apply procesado_nl.
    - exact Htau. }
  eexists yf, w1, _. split; [exact Hy|]. split; [exact Hp|]. split.
  { unfold animar_medias_tiempo. unfold mbind at 1. unfold M_bind at 1.
    rewrite Hp. exact Hrun. }
  split; [reflexivity|]. cbn [fig frames FuncAnimation].
  destruct (Z.leb_spec 1000 tau) as [Hbig|Hsmall]; [|reflexivity].
  rewrite py_range_empty by lia. rewrite delivered_nil. reflexivity.
Qed.

Lemma nonnegative_lag_never_raises_witness :
  exists (yf : ndarray Q) (w1 w' : world Q),
    y_fir rampa (Z.of_nat 1) (2 # 1)%Q = Ok yf
    /\ preparar 1%positive (Z.of_nat 1) (2 # 1)%Q (World {[1%positive := rampa]} blank)
       = (Ok (ref_fir (World {[1%positive := rampa]} blank),
              ref_nl (World {[1%positive := rampa]} blank) yf), w1)
    /\ animar_medias_tiempo 1%positive (Z.of_nat 1) (2 # 1)%Q 100 92
         (World {[1%positive := rampa]} blank) = (Ok tt, w')
    /\ heap w'
       = <[ref_nl (World {[1%positive := rampa]} blank) yf := y_nl rampa]>
           (<[ref_fir (World {[1%positive := rampa]} blank) := yf]>
              (heap (World {[1%positive := rampa]} blank)))
    /\ fig w' = dibujo (fig w1) yf (y_nl rampa) 100 0.
Proof.
  refine (nonnegative_lag_never_raises Q Q_Num (World {[1%positive := rampa]} blank)
            1%positive (rampa (T := Q)) 1%nat 1%nat (2 # 1)%Q 100 92%nat _ _ _ _ _).
  - vm_compute. reflexivity.
  - split; [reflexivity|]. repeat constructor.
  - lia.
  - reflexivity.
  - lia.
Defined.


Section Negative_lag.
Context {T : Type} `{Num T}.

Lemma update_t2_out (w : world T) (lf ln : loc) (rows : list (list T)) (tau frame : Z) :
  heap w !! lf = Some (Arr2 1000 rows) ->
  -1000 <= frame < 1000 -> frame + tau < -1000 ->
  update lf ln tau frame w = (Raise IndexError, w).
Proof.
  intros Hf Hfr Ht. unfold update.
  destruct (Z.geb_spec (t2 frame tau) 1000) as [Hge|_]; [unfold t2 in Hge; lia|].
  unfold mbind, M_bind, read, lift. rewrite Hf.
  rewrite column_ok by (unfold t1; lia).
  replace (column (Arr2 1000 rows) (t2 frame tau)) with (Raise (A := list T) IndexError);
    [reflexivity|].
  unfold column, norm_index, t2.
  destruct (Z.leb_spec 0 (frame + tau)); [lia|].
  destruct (Z.leb_spec (- Z.of_nat 1000) (frame + tau)); [lia|reflexivity].
Qed.

Lemma frames_length_negative (tau : Z) :
  tau < 0 -> (101 <= length (py_range 0 (1000 - tau) 10))%nat.
Proof.
  intros Htau. pose proof (py_range_length (1000 - tau) 10) as Hl.
  assert (101 <= (1000 - tau + Z.pos 10 - 1) / Z.pos 10).
  { apply Z.div_le_lower_bound; lia. }
  lia.
Qed.

Lemma frames_lookup (stop : Z) (k : nat) :
  (k < length (py_range 0 stop 10))%nat ->
  py_range 0 stop 10 !! k = Some (10 * Z.of_nat k).
Proof.
  intros Hk. unfold py_range in *. rewrite length_map, length_seq in Hk.
  rewrite list_lookup_fmap.
  rewrite (proj2 (lookup_seq 0 _ k k)) by (split; [reflexivity|exact Hk]).
  simpl. f_equal. lia.
Qed.

Lemma primeros_frames (stop : Z) (k : nat) (f : Z) :
  (k <= 100)%nat -> In f (take k (py_range 0 stop 10)) -> 0 <= f < 1000.
Proof.
  intros Hk Hf. apply list_elem_of_In, list_elem_of_lookup in Hf as [j Hj].
  apply lookup_take_Some in Hj as [Hj Hlt].
  apply py_range_lookup in Hj as [-> _]. lia.
Qed.

End Negative_lag.

Lemma negative_lag_cases :
  forall (T : Type) (N : Num T) (w : world T) (lx : loc) (x : ndarray T)
         (R n : nat) (a : T) (tau : Z) (ticks : nat),
    heap w !! lx = Some x -> has_shape x R 1000 -> (1 <= n <= R)%nat ->
    is_zero a = false -> tau < 0 ->
    (tau < -1000 ->
     exists w', animar_medias_tiempo lx (Z.of_nat n) a tau ticks w = (Raise IndexError, w'))
    /\ (-1000 <= tau -> (101 <= ticks)%nat ->
        exists w', animar_medias_tiempo lx (Z.of_nat n) a tau ticks w
                   = (Raise (EventLoop IndexError), w'))
    /\ (-1000 <= tau -> (ticks <= 100)%nat ->
        exists w', animar_medias_tiempo lx (Z.of_nat n) a tau ticks w = (Ok tt, w')).
Proof.
  intros T N w lx x R n a tau ticks Hx Hs Hn Ha Htau.
  apply has_shape_inv in Hs as [rows [-> [HRl Hw]]]. subst R.
  destruct (preparar_ok_n w lx rows a n Hx Hw Hn Ha) as [Hy Hp].
  set (yf := Arr2 1000 (map (fir_fila (coeficientes a)) (take n rows))) in *.
  set (w1 := preparado w yf (y_nl (Arr2 1000 rows)) (Z.of_nat n)) in *.
  set (lf := ref_fir w) in *. set (ln := ref_nl w yf) in *.
  assert (Hlf : heap w1 !! lf = Some yf) by apply procesado_fir.
  assert (Hln : heap w1 !! ln = Some (Arr2 1000 (map (map square) rows)))
    by apply procesado_nl.
  assert (Hstart : forall r w',
             show (FuncAnimation lf ln tau) ticks w1 = (r, w') ->
             animar_medias_tiempo lx (Z.of_nat n) a tau ticks w = (r, w')).
  { intros r w' Hshow. unfold animar_medias_tiempo.
    unfold mbind at 1. unfold M_bind at 1. rewrite Hp. exact Hshow. }
  set (fs := py_range 0 (1000 - tau) 10).
  assert (Hdraw : forall (k : nat) (w2 : world T),
             (k <= 100)%nat -> -1000 <= tau ->
             heap w2 !! lf = Some yf ->
             heap w2 !! ln = Some (Arr2 1000 (map (map square) rows)) ->
             exists g, for_each (update lf ln tau) (take k fs) w2
                       = (Ok tt, World (heap w2) g)).
  { intros k w2 Hk Hlow H1 H2. eexists.
    apply (for_each_draw lf ln (map (fir_fila (coeficientes a)) (take n rows))
             (map (map square) rows)); [exact H1|exact H2|].
    apply List.Forall_forall. intros f Hf.
    apply (primeros_frames (1000 - tau) k f Hk) in Hf. lia. }
  pose proof (frames_length_negative tau Htau) as Hlen. fold fs in Hlen.
  split; [|split].
  - intros Hlow. exists w1. apply Hstart.
    apply show_raises_at_once; [lia|].
    apply (update_t2_out w1 lf ln (map (fir_fila (coeficientes a)) (take n rows)));
      [exact Hlf|lia|lia].
  - intros Hlow Hticks.
    assert (H100 : fs !! 100%nat = Some 1000).
    { unfold fs. rewrite frames_lookup by (fold fs; lia). reflexivity. }
    destruct (Hdraw 1%nat w1 ltac:(lia) Hlow Hlf Hln) as [g1 Hg1].
    destruct (Hdraw 100%nat (World (heap w1) g1) ltac:(lia) Hlow Hlf Hln) as [g2 Hg2].
    exists (World (heap w1) g2). apply Hstart.
    unfold show. cbn [func frames FuncAnimation]. fold fs.
    unfold mbind at 1. unfold M_bind at 1. rewrite Hg1.
    rewrite for_each_in_event_loop. unfold in_event_loop, on_ticks.
    rewrite (take_concat_repeat (fs ++ take 1 fs) 101 ticks)
      by (try rewrite length_app; lia).
    rewrite (take_app_le fs (take 1 fs) 101) by lia.
    rewrite (take_S_r fs 100 1000 H100).
    rewrite <- !app_assoc, for_each_app, Hg2.
    cbn [app for_each]. unfold mbind, M_bind.
    rewrite (update_t1_out _ lf ln (map (fir_fila (coeficientes a)) (take n rows)));
      [reflexivity|exact Hlf|lia|lia].
  - intros Hlow Hticks.
    destruct (Hdraw 1%nat w1 ltac:(lia) Hlow Hlf Hln) as [g1 Hg1].
    destruct (Hdraw ticks (World (heap w1) g1) Hticks Hlow Hlf Hln) as [g2 Hg2].
    exists (World (heap w1) g2). apply Hstart.
    unfold show. cbn [func frames FuncAnimation]. fold fs.
    unfold mbind at 1. unfold M_bind at 1. rewrite Hg1.
    rewrite for_each_in_event_loop. unfold in_event_loop, on_ticks.
    rewrite (take_concat_repeat (fs ++ take 1 fs) ticks ticks)
      by (try rewrite length_app; lia).
    rewrite Nat.sub_diag. cbn [take]. rewrite app_nil_r.
    rewrite (take_app_le fs (take 1 fs) ticks) by lia.
    rewrite Hg2. reflexivity.
Qed.

(** With a negative lag the frame sequence runs past the last sample.
    When the lag is below -1000 the call ends with an [IndexError] as the
    animation is created (column [t2] of the first frame does not exist).
    Otherwise the first 100 timer ticks draw their frames, and the 101st
    hands the frame 1000 to [update], which raises an [IndexError] inside
    the event loop; a window closed within 100 ticks sees no error. *)
Theorem negative_lag_raises :
  forall (T : Type) (N : Num T) (w : world T) (lx : loc) (x : ndarray T)
         (R n : nat) (a : T) (tau : Z) (ticks : nat),
    heap w !! lx = Some x -> has_shape x R 1000 -> (1 <= n <= R)%nat ->
    is_zero a = false -> tau < 0 ->
    exists w' : world T,
      animar_medias_tiempo lx (Z.of_nat n) a tau ticks w
      = (if tau <? -1000 then Raise IndexError
         else if (100 <? ticks)%nat then Raise (EventLoop IndexError)
         else Ok tt,
         w').
Proof.
  intros T N w lx x R n a tau ticks Hx Hs Hn Ha Htau.
  destruct (negative_lag_cases T N w lx x R n a tau ticks Hx Hs Hn Ha Htau)
    as [Hbelow [Hlate Hearly]].
  destruct (Z.ltb_spec tau (-1000)) as [Hlow|Hlow]; [exact (Hbelow Hlow)|].
  destruct (Nat.ltb_spec 100 ticks) as [Ht|Ht].
  - apply Hlate; [exact Hlow|lia].
  - apply Hearly; [exact Hlow|exact Ht].
Qed.

Lemma negative_lag_raises_witness :
  exists w' : world Q,
    animar_medias_tiempo 1%positive (Z.of_nat 1) (2 # 1)%Q (-100) 101
      (World {[1%positive := rampa]} blank) = (Raise (EventLoop IndexError), w').
Proof.
  refine (negative_lag_raises Q Q_Num (World {[1%positive := rampa]} blank)
            1%positive (rampa (T := Q)) 1%nat 1%nat (2 # 1)%Q (-100) 101%nat _ _ _ _ _).
  - vm_compute. reflexivity.
  - split; [reflexivity|]. repeat constructor.
  - lia.
  - reflexivity.
  - lia.
Defined.

(** ** Ensemble means through the two systems *)

Section Means_exact.
Local Open Scope Q_scope.

Lemma np_sum_ext {A : Type} (f g : A -> Q) (l : list A) :
  (forall v, In v l -> f v == g v) -> np_sum (map f l) == np_sum (map g l).
Proof.
  induction l as [|v l IH]; intros Hfg; [reflexivity|].
  cbn [map]. rewrite !np_sum_cons.
  rewrite (Hfg v) by (left; reflexivity).
  rewrite IH by (intros u Hu; apply Hfg; right; exact Hu). reflexivity.
Qed.

Lemma np_sum_combination {A : Type} (f0 f1 f2 : A -> Q) (c1 c2 : Q) (l : list A) :
  np_sum (map (fun v => f0 v - f1 v * c1 + f2 v * c2) l)
  == np_sum (map f0 l) - np_sum (map f1 l) * c1 + np_sum (map f2 l) * c2.
Proof.
  induction l as [|v l IH].
  - cbn [map]. rewrite !np_sum_nil. ring.
  - cbn [map]. rewrite !np_sum_cons, IH. ring.
Qed.

Lemma np_sum_zeros {A : Type} (l : list A) : np_sum (map (fun _ : A => 0) l) == 0.
Proof.
  induction l as [|v l IH]; [reflexivity|].
  cbn [map]. rewrite np_sum_cons, IH. ring.
Qed.

Lemma media_previa_atras (rows : list (list Q)) (k d : nat) :
  (k < 1000)%nat -> rows <> [] ->
  media_previa (Arr2 1000 rows) (Z.of_nat k - Z.of_nat d)
  == np_sum (map (fun r => atras r k d) rows) / inject_Z (Z.of_nat (length rows)).
Proof.
  intros Hk Hne. unfold media_previa, atras.
  destruct (Nat.ltb_spec k d).
  - destruct (Z.ltb_spec (Z.of_nat k - Z.of_nat d) 0); [|lia].
    rewrite np_sum_zeros. unfold Qdiv. ring.
  - destruct (Z.ltb_spec (Z.of_nat k - Z.of_nat d) 0); [lia|].
    unfold media_conjunto, columna, np_mean.
    rewrite Z.mod_small by lia.
    replace (Z.to_nat (Z.of_nat k - Z.of_nat d)) with (k - d)%nat by lia.
    rewrite length_map. reflexivity.
Qed.

End Means_exact.

Lemma media_filtrada (rows : list (list Q)) (a : Q) (t : Z) :
  Forall (fun r => length r = 1000%nat) rows -> rows <> [] -> ~ (a == 0)%Q ->
  0 <= t < 1000 ->
  (media_conjunto (Arr2 1000 (map (fir_fila (coeficientes a)) rows)) t
   == media_previa (Arr2 1000 rows) t
      - media_previa (Arr2 1000 rows) (t - 1) / a
      + media_previa (Arr2 1000 rows) (t - 2) / (2 * a))%Q.
Proof.
  intros Hw Hne Ha Ht.
  set (k := Z.to_nat t).
  replace t with (Z.of_nat k - Z.of_nat 0) at 2 by lia.
  replace (t - 1) with (Z.of_nat k - Z.of_nat 1) by lia.
  replace (t - 2) with (Z.of_nat k - Z.of_nat 2) by lia.
  rewrite !media_previa_atras by (try exact Hne; lia).
  unfold media_conjunto, columna, np_mean.
  rewrite Z.mod_small by lia. fold k. rewrite map_map, !length_map.
  cbn [ndiv Q_Num num_of_Z].
  assert (HR0 : ~ (inject_Z (Z.of_nat (length rows)) == 0)%Q).
  { intros E. apply (inject_Z_injective (Z.of_nat (length rows)) 0) in E.
    destruct rows; [congruence|simpl in E; lia]. }
  assert (Hsum : (np_sum (map (fun r => nth k (fir_fila (coeficientes a) r) num0) rows)
                  == np_sum (map (fun r => atras r k 0) rows)
                     - np_sum (map (fun r => atras r k 1) rows) * (/ a)
                     + np_sum (map (fun r => atras r k 2) rows) * (/ (2 * a)))%Q).
  { rewrite <- np_sum_combination. apply np_sum_ext. intros r Hr.
    assert (Hlen : length r = 1000%nat).
    { rewrite List.Forall_forall in Hw. apply Hw, Hr. }
    unfold fir_fila. change (@num0 Q Q_Num) with 0%Q.
    rewrite nth_map_seq, Hlen.
    destruct (Nat.ltb_spec k 1000); [|lia].
    rewrite (conv_at_fir a r k Ha). unfold Qdiv. reflexivity. }
  rewrite Hsum. field. split; [exact HR0|exact Ha].
Qed.

(** On exact rationals the ensemble mean goes through the filter: for an
    ensemble of shape (R, 1000) with one realization at least and [a] not
    0, the mean of the filtered ensemble at column [t] is
    [m[t] - m[t-1]/a + m[t-2]/(2a)], where [m] is the ensemble mean of the
    input (0 before the first sample). *)
Theorem filtered_mean_is_filter_of_mean :
  forall (x : ndarray Q) (R : nat) (a : Q) (t : Z),
    has_shape x R 1000 -> (0 < R)%nat -> ~ (a == 0)%Q -> 0 <= t < 1000 ->
    exists yf : ndarray Q,
      y_fir x (Z.of_nat R) a = Ok yf
      /\ (media_conjunto yf t
          == media_previa x t - media_previa x (t - 1) / a
             + media_previa x (t - 2) / (2 * a))%Q.
Proof.
  intros x R a t Hx HR Ha Ht.
  apply has_shape_inv in Hx as [rows [-> [HRl Hw]]]. subst R.
  assert (Hne : rows <> []) by (destruct rows; [simpl in HR; lia|discriminate]).
  exists (Arr2 1000 (map (fir_fila (coeficientes a)) rows)).
  split; [apply y_fir_shape; [apply is_zero_Q, Ha|lia|exact Hne|exact Hw]|].
  apply media_filtrada; assumption.
Qed.

Lemma filtered_mean_is_filter_of_mean_witness :
  exists yf : ndarray Q,
    y_fir dos_rampas (Z.of_nat 2) (2 # 1)%Q = Ok yf
    /\ (media_conjunto yf 10
        == media_previa dos_rampas 10 - media_previa dos_rampas (10 - 1) / (2 # 1)
           + media_previa dos_rampas (10 - 2) / (2 * (2 # 1)))%Q.
Proof.
  refine (filtered_mean_is_filter_of_mean dos_rampas 2%nat (2 # 1)%Q 10 _ _ _ _).
  - split; [reflexivity|]. repeat constructor.
  - lia.
  - discriminate.
  - lia.
Defined.

(** The numbers of that instance: the two realizations are worth 11 and 12
    at column 10, their filtered rows 8.25 and 9; the mean of the filtered
    ensemble is 8.625, which is [11.5 - 10.5/2 + 9.5/4]. *)
Example filtered_mean_dos_rampas :
  exists (yf : ndarray Q) (v0 v1 : Q),
    y_fir dos_rampas 2 (2 # 1)%Q = Ok yf
    /\ entry yf 0 10 = Some v0 /\ entry yf 1 10 = Some v1
    /\ (v0 == 33 # 4)%Q /\ (v1 == 9 # 1)%Q
    /\ (media_conjunto yf 10 == 69 # 8)%Q
    /\ (media_previa dos_rampas 10 == 23 # 2)%Q
    /\ (media_previa dos_rampas 9 == 21 # 2)%Q
    /\ (media_previa dos_rampas 8 == 19 # 2)%Q
    /\ ((23 # 2) - (21 # 2) / (2 # 1) + (19 # 2) / (2 * (2 # 1)) == 69 # 8)%Q.
Proof.
  eexists _, _, _. split; [vm_compute; reflexivity|].
  split; [vm_compute; reflexivity|]. split; [vm_compute; reflexivity|].
  vm_compute. repeat split.
Qed.

(** On exact rationals, where the ensemble mean of the input is the same
    [mu] at the columns [t], [t-1] and [t-2] (as it is at every column of a
    process that is stationary in the mean), the mean of the filtered
    ensemble at [t] is [mu * (1 - 1/(2a))]: three quarters of [mu] for the
    script's [a = 2]. *)
Theorem constant_mean_is_scaled :
  forall (x : ndarray Q) (R : nat) (a : Q) (t : Z) (mu : Q),
    has_shape x R 1000 -> (0 < R)%nat -> ~ (a == 0)%Q -> 2 <= t < 1000 ->
    (media_conjunto x t == mu)%Q -> (media_conjunto x (t - 1) == mu)%Q ->
    (media_conjunto x (t - 2) == mu)%Q ->
    exists yf : ndarray Q,
      y_fir x (Z.of_nat R) a = Ok yf
      /\ (media_conjunto yf t == mu * (1 - 1 / (2 * a)))%Q.
Proof.
  intros x R a t mu Hx HR Ha Ht H0 H1 H2.
  apply has_shape_inv in Hx as [rows [-> [HRl Hw]]]. subst R.
  assert (Hne : rows <> []) by (destruct rows; [simpl in HR; lia|discriminate]).
  exists (Arr2 1000 (map (fir_fila (coeficientes a)) rows)).
  split; [apply y_fir_shape; [apply is_zero_Q, Ha|lia|exact Hne|exact Hw]|].
  rewrite media_filtrada by (try assumption; lia).
  unfold media_previa.
  destruct (Z.ltb_spec t 0); [lia|].
  destruct (Z.ltb_spec (t - 1) 0); [lia|].
  destruct (Z.ltb_spec (t - 2) 0); [lia|].
  rewrite H0, H1, H2. field. exact Ha.
Qed.

Lemma constant_mean_is_scaled_witness :
  exists yf : ndarray Q,
    y_fir espejo (Z.of_nat 2) (2 # 1)%Q = Ok yf
    /\ (media_conjunto yf 10 == (1001 # 2) * (1 - 1 / (2 * (2 # 1))))%Q.
Proof.
  refine (constant_mean_is_scaled espejo 2%nat (2 # 1)%Q 10 (1001 # 2)%Q _ _ _ _ _ _ _).
  - split; [reflexivity|]. repeat constructor.
  - lia.
  - discriminate.
  - lia.
  - vm_compute. reflexivity.
  - vm_compute. reflexivity.
  - vm_compute. reflexivity.
Defined.


Section Second_moment.
Local Open Scope Q_scope.

Lemma count_succ (n : nat) :
  inject_Z (Z.of_nat (S n)) == inject_Z (Z.of_nat n) + 1.
Proof. rewrite Nat2Z.inj_succ, <- Z.add_1_r, inject_Z_plus. reflexivity. Qed.

Lemma count_nonneg (n : nat) : 0 <= inject_Z (Z.of_nat n).
Proof. change 0 with (inject_Z 0). rewrite <- Zle_Qle. lia. Qed.

Lemma sq_nonneg (y : Q) : 0 <= y * y.
Proof.
  destruct (Qlt_le_dec y 0) as [Hn|Hp].
  - assert (E : y * y == (- y) * (- y)) by ring.
    rewrite E. apply Qmult_le_0_compat; lra.
  - apply Qmult_le_0_compat; exact Hp.
Qed.

Lemma sum_cross (l : list Q) (x : Q) :
  2 * x * np_sum l
  <= np_sum (map (fun v => v * v) l) + inject_Z (Z.of_nat (length l)) * (x * x).
Proof.
  induction l as [|v l IH].
  - cbn [map length]. rewrite !np_sum_nil. change (inject_Z (Z.of_nat 0)) with 0. nra.
  - cbn [map length]. rewrite !np_sum_cons, count_succ.
    pose proof (sq_nonneg (v - x)) as Hsq. nra.
Qed.

Lemma sum_square_le (l : list Q) :
  np_sum l * np_sum l
  <= inject_Z (Z.of_nat (length l)) * np_sum (map (fun v => v * v) l).
Proof.
  induction l as [|v l IH].
  - cbn [map length]. rewrite !np_sum_nil. change (inject_Z (Z.of_nat 0)) with 0. nra.
  - cbn [map length]. rewrite !np_sum_cons, count_succ.
    pose proof (sum_cross l v) as Hc. nra.
Qed.

Lemma sum_squares_nonneg (l : list Q) : 0 <= np_sum (map (fun v => v * v) l).
Proof.
  induction l as [|v l IH]; [cbn [map]; rewrite np_sum_nil; lra|].
  cbn [map]. rewrite np_sum_cons. pose proof (sq_nonneg v). lra.
Qed.

Lemma mean_square_le (l : list Q) :
  l <> [] -> np_mean l * np_mean l <= np_mean (map (fun v => v * v) l).
Proof.
  intros Hne. unfold np_mean. rewrite length_map. cbn [ndiv num_of_Z Q_Num].
  set (n := inject_Z (Z.of_nat (length l))).
  assert (Hn : 0 < n).
  { unfold n. change 0 with (inject_Z 0). rewrite <- Zlt_Qlt.
    destruct l; [congruence|simpl; lia]. }
  pose proof (sum_square_le l) as Hs. fold n in Hs.
  set (s1 := np_sum l) in *. set (s2 := np_sum (map (fun v => v * v) l)) in *.
  apply Qle_shift_div_l; [exact Hn|].
  assert (E : s1 / n * (s1 / n) * n == s1 * s1 / n) by (field; lra).
  rewrite E. apply Qle_shift_div_r; [exact Hn|]. lra.
Qed.

End Second_moment.


(** The second moment.  On exact rationals the ensemble mean of the squared
    ensemble at a column is the mean of the squares of that column of the
    input; it is never negative and never below the square of the ensemble
    mean of the input. *)
Theorem squared_mean_dominates :
  forall (x : ndarray Q) (R : nat) (t : Z),
    has_shape x R 1000 -> (0 < R)%nat -> 0 <= t < 1000 ->
    media_conjunto (y_nl x) t
    = np_mean (map (fun v => v * v)%Q (columna x (Z.to_nat t)))
    /\ (0 <= media_conjunto (y_nl x) t)%Q
    /\ (media_conjunto x t * media_conjunto x t <= media_conjunto (y_nl x) t)%Q.
Proof.
  intros x R t Hx HR Ht.
  apply has_shape_inv in Hx as [rows [-> [HRl Hw]]]. subst R.
  assert (Hne : rows <> []) by (destruct rows; [simpl in HR; lia|discriminate]).
  assert (Hcol : media_conjunto (y_nl (Arr2 1000 rows)) t
                 = np_mean (map (fun v => v * v)%Q (columna (Arr2 1000 rows) (Z.to_nat t)))).
  { unfold media_conjunto. rewrite Z.mod_small by lia. f_equal.
    cbn [y_nl power2 columna]. rewrite !map_map. apply map_ext. intros r.
    change (@num0 Q Q_Num) with (square (T := Q) 0%Q) at 1.
    rewrite map_nth. reflexivity. }
  split; [exact Hcol|]. rewrite Hcol.
  assert (Hc : columna (Arr2 1000 rows) (Z.to_nat t) <> []).
  { cbn [columna]. destruct rows; [congruence|discriminate]. }
  split.
  - eapply Qle_trans; [|apply mean_square_le, Hc]. apply sq_nonneg.
  - unfold media_conjunto. rewrite Z.mod_small by lia. apply mean_square_le, Hc.
Qed.

Lemma squared_mean_dominates_witness :
  media_conjunto (y_nl (T := Q) dos_rampas) 10
  = np_mean (map (fun v => v * v)%Q (columna dos_rampas (Z.to_nat 10)))
  /\ (0 <= media_conjunto (y_nl (T := Q) dos_rampas) 10)%Q
  /\ (media_conjunto dos_rampas 10 * media_conjunto dos_rampas 10
      <= media_conjunto (y_nl (T := Q) dos_rampas) 10)%Q.
Proof.
  refine (squared_mean_dominates dos_rampas 2%nat 10 _ _ _).
  - split; [reflexivity|]. repeat constructor.
  - lia.
  - lia.
Defined.

(** The numbers of that instance: the two realizations are worth 11 and 12
    at column 10; the mean of their squares is 132.5, the square of their
    mean 132.25. *)
Example squared_mean_dos_rampas :
  columna (T := Q) dos_rampas 10 = [11 # 1; 12 # 1]%Q
  /\ (media_conjunto (y_nl (T := Q) dos_rampas) 10 == 265 # 2)%Q
  /\ (media_conjunto (T := Q) dos_rampas 10 == 23 # 2)%Q
  /\ ((23 # 2) * (23 # 2) == 529 # 4)%Q
  /\ (529 # 4 < 265 # 2)%Q.
Proof. vm_compute. repeat split. Qed.


(** ** The experiments of the script *)

Section Script_facts.
Context {T : Type} `{Num T}.
Variable gauss : N -> T.
Variable pi : T.
Variable sin : T -> T.
Variable cos : T -> T.

Lemma ewise_ok (op : T -> T -> T) (u v : list T) :
  length u = length v -> ewise op u v = Ok (zip_with op u v).
Proof. intros Hl. unfold ewise. rewrite Hl, Nat.eqb_refl. reflexivity. Qed.

Lemma t_unit : t = map Z.of_nat (seq 0 1000).
Proof. exact (py_range_unit 1000). Qed.

Lemma mensaje_length : length (mensaje pi sin) = 1000%nat.
Proof. unfold mensaje. rewrite t_unit, !length_map, length_seq. reflexivity. Qed.

Lemma portadora_length : length (portadora pi cos) = 1000%nat.
Proof. unfold portadora. rewrite t_unit, !length_map, length_seq. reflexivity. Qed.

Lemma senal_am_length : length (senal_am pi sin cos) = 1000%nat.
Proof.
  unfold senal_am. rewrite length_zip_with, length_map, mensaje_length, portadora_length.
  reflexivity.
Qed.

Lemma senal_am_lookup (k : nat) :
  (k < 1000)%nat ->
  senal_am pi sin cos !! k
  = Some (nmul (nadd num1
                  (nmul (ndiv num1 (num_of_Z 2))
                     (sin (nmul (nmul (nmul (num_of_Z 2) pi) (ndiv num1 (num_of_Z 100)))
                                (num_of_Z (Z.of_nat k))))))
               (cos (nmul (nmul (nmul (num_of_Z 2) pi) (ndiv num1 (num_of_Z 10)))
                          (num_of_Z (Z.of_nat k))))).
Proof.
  intros Hk. unfold senal_am, mensaje, portadora. rewrite t_unit.
  rewrite lookup_zip_with, !list_lookup_fmap.
  rewrite (proj2 (lookup_seq 0 1000 k k)) by (split; [reflexivity|exact Hk]).
  reflexivity.
Qed.

(** The row that one pass of the comprehension of line 116 returns. *)
Lemma fila_am_ok (c : N) :
  is_neg (ndiv num1 (num_of_Z 2)) = false ->
  fila_am gauss pi sin cos c
  = (Ok (zip_with nadd (senal_am pi sin cos)
                  (fila_normal gauss (ndiv num1 (num_of_Z 2)) c)),
     (c + 1000)%N).
Proof.
  intros Hs. unfold fila_am.
  rewrite ewise_ok by (rewrite length_map, mensaje_length, portadora_length; reflexivity).
  rewrite (normal_ok gauss _ c Hs).
  rewrite ewise_ok; [reflexivity|].
  fold (senal_am pi sin cos). rewrite senal_am_length, fila_normal_length. reflexivity.
Qed.

End Script_facts.


Section Script_facts_2.
Context {T : Type} `{Num T}.
Variable gauss : N -> T.
Variable pi : T.
Variable sin : T -> T.
Variable cos : T -> T.

Lemma filas_am_desde_length (k : nat) (c : N) :
  length (filas_am_desde gauss pi sin cos k c) = k.
Proof.
  revert c. induction k as [|k IH]; intros c; [reflexivity|].
  cbn [filas_am_desde length]. rewrite IH. reflexivity.
Qed.

Lemma filas_am_desde_wf (k : nat) (c : N) :
  Forall (fun r => length r = 1000%nat) (filas_am_desde gauss pi sin cos k c).
Proof.
  revert c. induction k as [|k IH]; intros c; cbn [filas_am_desde]; constructor.
  - rewrite length_zip_with, senal_am_length, fila_normal_length. reflexivity.
  - apply IH.
Qed.

Lemma filas_am_desde_lookup (k j : nat) (c : N) :
  (j < k)%nat ->
  filas_am_desde gauss pi sin cos k c !! j
  = Some (zip_with nadd (senal_am pi sin cos)
            (fila_normal gauss (ndiv num1 (num_of_Z 2)) (c + 1000 * N.of_nat j)%N)).
Proof.
  revert c j. induction k as [|k IH]; intros c j Hj; [lia|].
  cbn [filas_am_desde]. rewrite lookup_cons. destruct j as [|j].
  - do 3 f_equal. lia.
  - rewrite IH by lia. do 3 f_equal. lia.
Qed.

Lemma filas_am_ok (ts : list Z) (c : N) :
  is_neg (ndiv num1 (num_of_Z 2)) = false ->
  filas_am gauss pi sin cos ts c
  = (Ok (filas_am_desde gauss pi sin cos (length ts) c),
     (c + 1000 * N.of_nat (length ts))%N).
Proof.
  intros Hs. revert c. induction ts as [|u ts IH]; intros c.
  - cbn [filas_am filas_am_desde length]. f_equal. lia.
  - cbn [filas_am]. rewrite (fila_am_ok gauss pi sin cos c Hs), IH.
    cbn [filas_am_desde length]. f_equal. lia.
Qed.

Lemma x_am_ok (c : N) :
  is_neg (ndiv num1 (num_of_Z 2)) = false ->
  x_am gauss pi sin cos c
  = (Ok (Arr2 1000 (filas_am_desde gauss pi sin cos 3000 c)), (c + 3000000)%N).
Proof.
  intros Hs. unfold x_am. rewrite (filas_am_ok _ c Hs).
  replace (length (py_range 0 n_realizaciones 1)) with 3000%nat
    by (rewrite rango_realizaciones, length_map, length_seq; reflexivity).
  rewrite np_array_uniform with (c := 1000%nat).
  - f_equal.
  - discriminate.
  - apply filas_am_desde_wf.
Qed.

Lemma filas_ruido_wf (c : N) :
  Forall (fun r => length r = 1000%nat) (filas_ruido gauss c).
Proof.
  unfold filas_ruido. apply Forall_map, List.Forall_forall. intros i _. cbv beta.
  rewrite length_map, length_seq. reflexivity.
Qed.

Lemma x_ruido_ok (c : N) :
  is_neg (num_of_Z 4) = false ->
  x_ruido gauss c = (Ok (Arr2 1000 (filas_ruido gauss c)), (c + 3000000)%N).
Proof.
  intros Hs. unfold x_ruido, normal_2d. rewrite Hs. reflexivity.
Qed.

Lemma animar_ok (w : world T) (lx : loc) (rows : list (list T)) (a : T) (n : nat)
    (tau : Z) (ticks : nat) :
  heap w !! lx = Some (Arr2 1000 rows) ->
  Forall (fun r => length r = 1000%nat) rows -> (1 <= n <= length rows)%nat ->
  is_zero a = false -> 0 <= tau ->
  exists w', animar_medias_tiempo lx (Z.of_nat n) a tau ticks w = (Ok tt, w')
             /\ heap w ⊆ heap w'.
Proof.
  intros Hx Hw Hn Ha Htau.
  destruct (preparar_ok_n w lx rows a n Hx Hw Hn Ha) as [Hy Hp].
  eexists. split.
  - unfold animar_medias_tiempo. unfold mbind at 1. unfold M_bind at 1. rewrite Hp.
    apply (show_draws _ _ _ (map (fir_fila (coeficientes a)) (take n rows))
             (map (map square) rows)); [apply procesado_fir|apply procesado_nl|exact Htau].
  - cbn [heap]. pose proof (preserva_preparar lx (Z.of_nat n) a w) as Hsub.
    rewrite Hp in Hsub. exact Hsub.
Qed.

Lemma experimento_ok (ensemble : N -> res (ndarray T) * N) (ticks : nat) (c c' : N)
    (w : world T) (rows : list (list T)) :
  ensemble c = (Ok (Arr2 1000 rows), c') ->
  Forall (fun r => length r = 1000%nat) rows -> length rows = 3000%nat ->
  is_zero (num_of_Z 2) = false ->
  exists w', experimento ensemble ticks (c, w) = (Ok tt, (c', w'))
             /\ heap w ⊆ heap w'.
Proof.
  intros He Hw Hl Ha. unfold experimento. cbn [fst snd]. rewrite He.
  unfold mbind at 1. unfold M_bind at 1. unfold alloc at 1.
  set (wa := World (<[fresh (dom (heap w)) := Arr2 1000 rows]> (heap w)) (fig w)).
  destruct (animar_ok wa (fresh (dom (heap w))) rows (num_of_Z 2) 3000 100 ticks)
    as [w' [Hrun Hsub]].
  - apply lookup_insert_eq.
  - exact Hw.
  - lia.
  - exact Ha.
  - lia.
  - exists w'. change (Z.of_nat 3000) with n_realizaciones in Hrun. rewrite Hrun.
    split; [reflexivity|].
    etransitivity; [|exact Hsub]. apply insert_subseteq, fresh_unused.
Qed.

End Script_facts_2.


(** Line 116.  The AM ensemble has 3000 rows of 1000 samples; entry [n] of
    row [i] is the shared waveform
    [(1 + 0.5 * sin(2 * pi * 0.01 * n)) * cos(2 * pi * 0.1 * n)] plus 0.5
    times the variate of the generator at place [1000 * i + n] after the
    cursor.  Two realizations therefore differ at a sample by half the
    difference of their variates only, whatever the waveform. *)
Theorem x_am_rows :
  forall (gauss : N -> Q) (pi : Q) (sin cos : Q -> Q) (cursor : N),
    exists rows : list (list Q),
      x_am gauss pi sin cos cursor = (Ok (Arr2 1000 rows), (cursor + 3000000)%N)
      /\ has_shape (Arr2 1000 rows) 3000 1000
      /\ (forall i n : nat, (i < 3000)%nat -> (n < 1000)%nat ->
            entry (Arr2 1000 rows) i n
            = Some ((1 + (1 / 2) * sin (2 * pi * (1 / 100) * inject_Z (Z.of_nat n)))
                      * cos (2 * pi * (1 / 10) * inject_Z (Z.of_nat n))
                    + (0 + (1 / 2) * gauss (cursor + 1000 * N.of_nat i + N.of_nat n)%N))%Q)
      /\ (forall i j n : nat, (i < 3000)%nat -> (j < 3000)%nat -> (n < 1000)%nat ->
            (default 0 (entry (Arr2 1000 rows) i n) - default 0 (entry (Arr2 1000 rows) j n)
             == (1 # 2) * (gauss (cursor + 1000 * N.of_nat i + N.of_nat n)%N
                           - gauss (cursor + 1000 * N.of_nat j + N.of_nat n)%N))%Q).
Proof.
  intros gauss pi sin cos cursor.
  exists (filas_am_desde gauss pi sin cos 3000 cursor).
  split; [apply x_am_ok; reflexivity|]. split.
  { split; [|apply filas_am_desde_wf].
    cbn [shape]. rewrite filas_am_desde_length. reflexivity. }
  assert (Hentry : forall i n : nat, (i < 3000)%nat -> (n < 1000)%nat ->
            entry (Arr2 1000 (filas_am_desde gauss pi sin cos 3000 cursor)) i n
            = Some ((1 + (1 / 2) * sin (2 * pi * (1 / 100) * inject_Z (Z.of_nat n)))
                      * cos (2 * pi * (1 / 10) * inject_Z (Z.of_nat n))
                    + (0 + (1 / 2) * gauss (cursor + 1000 * N.of_nat i + N.of_nat n)%N))%Q).
  { intros i n Hi Hn. unfold entry.
    rewrite filas_am_desde_lookup by exact Hi. cbn [mbind option_bind].
    rewrite lookup_zip_with, (senal_am_lookup pi sin cos n Hn).
    rewrite fila_normal_lookup by exact Hn. reflexivity. }
  split; [exact Hentry|].
  intros i j n Hi Hj Hn. rewrite (Hentry i n Hi Hn), (Hentry j n Hj Hn).
  cbn [from_option id]. field.
Qed.

(** Line 105.  The thermal-noise ensemble has 3000 rows of 1000 samples,
    filled row by row: entry [n] of row [i] is 4 times the variate of the
    generator at place [1000 * i + n] after the cursor, so that every row
    is a zero-mean sample with the same standard deviation 4. *)
Theorem x_ruido_rows :
  forall (gauss : N -> Q) (cursor : N),
    exists rows : list (list Q),
      x_ruido gauss cursor = (Ok (Arr2 1000 rows), (cursor + 3000000)%N)
      /\ has_shape (Arr2 1000 rows) 3000 1000
      /\ forall i : nat, (i < 3000)%nat ->
           exists r : list Q,
             rows !! i = Some r
             /\ (forall n : nat, (n < 1000)%nat ->
                   r !! n = Some (0 + 4 * gauss (cursor + 1000 * N.of_nat i + N.of_nat n)%N)%Q)
             /\ muestra_normal gauss (cursor + 1000 * N.of_nat i)%N 0 4 r.
Proof.
  intros gauss cursor. exists (filas_ruido gauss cursor).
  split; [apply x_ruido_ok; reflexivity|]. split.
  { split; [|apply filas_ruido_wf].
    cbn [shape]. unfold filas_ruido. rewrite length_map, length_seq. reflexivity. }
  intros i Hi.
  exists (map (fun k : nat =>
                 (0 + 4 * gauss (cursor + 1000 * N.of_nat i + N.of_nat k)%N)%Q)
              (seq 0 1000)).
  split; [|split].
  - unfold filas_ruido. rewrite list_lookup_fmap.
    rewrite (proj2 (lookup_seq 0 3000 i i)) by (split; [reflexivity|exact Hi]).
    cbn [fmap option_fmap option_map]. f_equal. apply map_ext. intros k.
    change (@num0 Q Q_Num) with 0%Q. cbn [nadd nmul num_of_Z Q_Num].
    change (inject_Z 4) with 4%Q. do 3 f_equal. lia.
  - intros n Hn. rewrite list_lookup_fmap.
    rewrite (proj2 (lookup_seq 0 1000 n n)) by (split; [reflexivity|exact Hn]).
    reflexivity.
  - split; [discriminate|]. rewrite length_map, length_seq.
    apply Forall2_map_Qeq. intros k. reflexivity.
Qed.

(** Lines 104-126.  On exact rationals the script runs its three
    experiments to the end without an exception, whatever the generator
    hands out and however long each window stays open.  The ensembles are
    drawn one after the other from the same generator: the thermal noise
    takes the first 3 000 000 variates after the cursor, the AM ensemble the
    next 3 000 000 and the non-stationary channel the 3 000 000 after
    those.  Arrays that were in the store before are unchanged. *)
Theorem script_runs :
  forall (gauss : N -> Q) (pi : Q) (sin cos : Q -> Q) (ticks1 ticks2 ticks3 : nat)
         (cursor : N) (w : world Q),
    exists (xr xa xv : ndarray Q) (w' : world Q),
      x_ruido gauss cursor = (Ok xr, (cursor + 3000000)%N)
      /\ x_am gauss pi sin cos (cursor + 3000000)%N = (Ok xa, (cursor + 6000000)%N)
      /\ x_variante gauss (cursor + 6000000)%N = (Ok xv, (cursor + 9000000)%N)
      /\ has_shape xr 3000 1000 /\ has_shape xa 3000 1000 /\ has_shape xv 3000 1000
      /\ script gauss pi sin cos ticks1 ticks2 ticks3 (cursor, w)
         = (Ok tt, ((cursor + 9000000)%N, w'))
      /\ heap w ⊆ heap w'.
Proof.
  intros gauss pi sin cos ticks1 ticks2 ticks3 cursor w.
  assert (Hr : x_ruido gauss cursor
               = (Ok (Arr2 1000 (filas_ruido gauss cursor)), (cursor + 3000000)%N))
    by (apply x_ruido_ok; reflexivity).
  assert (Ha : x_am gauss pi sin cos (cursor + 3000000)%N
               = (Ok (Arr2 1000 (filas_am_desde gauss pi sin cos 3000 (cursor + 3000000)%N)),
                  (cursor + 6000000)%N)).
  { rewrite x_am_ok by reflexivity. f_equal. lia. }
  assert (Hv : x_variante gauss (cursor + 6000000)%N
               = (Ok (Arr2 1000 (filas_desde gauss (py_range 0 n_realizaciones 1)
                                   (cursor + 6000000)%N)),
                  (cursor + 9000000)%N)).
  { rewrite x_variante_filas. f_equal. lia. }
  assert (Hlr : length (filas_ruido gauss cursor) = 3000%nat).
  { unfold filas_ruido. rewrite length_map, length_seq. reflexivity. }
  assert (Hlv : length (filas_desde gauss (py_range 0 n_realizaciones 1)
                          (cursor + 6000000)%N) = 3000%nat).
  { rewrite filas_desde_length, rango_realizaciones, length_map, length_seq. reflexivity. }
  assert (Hz : is_zero (T := Q) (num_of_Z 2) = false) by reflexivity.
  destruct (experimento_ok (x_ruido gauss) ticks1 cursor _ w _ Hr
              (filas_ruido_wf gauss cursor) Hlr Hz) as [w1 [H1 S1]].
  destruct (experimento_ok (x_am gauss pi sin cos) ticks2 _ _ w1 _ Ha
              (filas_am_desde_wf gauss pi sin cos 3000 _)
              (filas_am_desde_length gauss pi sin cos 3000 _) Hz) as [w2 [H2 S2]].
  destruct (experimento_ok (x_variante gauss) ticks3 _ _ w2 _ Hv
              (filas_desde_wf gauss _ _) Hlv Hz) as [w3 [H3 S3]].
  eexists _, _, _, w3. split; [exact Hr|]. split; [exact Ha|]. split; [exact Hv|].
  split; [split; [cbn [shape]; rewrite Hlr; reflexivity|apply filas_ruido_wf]|].
  split; [split; [cbn [shape]; rewrite filas_am_desde_length; reflexivity
                 |apply filas_am_desde_wf]|].
  split; [split; [cbn [shape]; rewrite Hlv; reflexivity|apply filas_desde_wf]|].
  split.
  - unfold script. rewrite H1, H2. exact H3.
  - etransitivity; [exact S1|]. etransitivity; [exact S2|exact S3].
Qed.


(** ** The animation starts over *)

Section Loop_facts.
Context {T : Type} `{Num T}.

Lemma length_concat_repeat {A : Type} (l : list A) (n : nat) :
  length (concat (repeat l n)) = (n * length l)%nat.
Proof.
  induction n as [|n IH]; [reflexivity|].
  cbn [repeat concat]. rewrite length_app, IH. lia.
Qed.

Lemma lookup_concat_repeat {A : Type} (l : list A) (n i : nat) :
  (i < n * length l)%nat -> concat (repeat l n) !! i = l !! (i mod length l)%nat.
Proof.
  revert i. induction n as [|n IH]; intros i Hi; [lia|].
  cbn [repeat concat].
  destruct (Nat.lt_ge_cases i (length l)) as [Hlt|Hge].
  - rewrite lookup_app_l by exact Hlt. rewrite Nat.mod_small by exact Hlt. reflexivity.
  - rewrite lookup_app_r by exact Hge. rewrite IH by lia. f_equal.
    replace i with ((i - length l) + 1 * length l)%nat at 2 by lia.
    rewrite Nat.Div0.mod_add. reflexivity.
Qed.

(** After [ticks] timer ticks the frame on display is the one at place
    [(ticks - 1) mod (L + 1)] of the sequence followed by its first frame,
    [L] being the length of the sequence. *)
Lemma delivered_last (fs : list Z) (ticks : nat) :
  fs <> [] -> (1 <= ticks)%nat ->
  last (delivered fs ticks)
  = (fs ++ take 1 fs) !! ((ticks - 1) mod (length fs + 1))%nat.
Proof.
  intros Hfs Ht. unfold delivered, on_ticks.
  assert (HL : (1 <= length fs)%nat) by (destruct fs; [congruence|simpl; lia]).
  assert (Hl : length (fs ++ take 1 fs) = (length fs + 1)%nat).
  { rewrite length_app, length_take. lia. }
  assert (Hlen : (ticks <= length (concat (repeat (fs ++ take 1 fs) ticks)))%nat).
  { rewrite length_concat_repeat, Hl. nia. }
  assert (Hlast : last (take ticks (concat (repeat (fs ++ take 1 fs) ticks)))
                  = (fs ++ take 1 fs) !! ((ticks - 1) mod (length fs + 1))%nat).
  { rewrite last_lookup, length_take.
    replace (Init.Nat.pred (ticks `min` length (concat (repeat (fs ++ take 1 fs) ticks))))
      with (ticks - 1)%nat by lia.
    rewrite lookup_take_lt by lia.
    rewrite lookup_concat_repeat by (rewrite Hl; nia).
    rewrite Hl. reflexivity. }
  rewrite last_app, Hlast.
  destruct ((fs ++ take 1 fs) !! ((ticks - 1) mod (length fs + 1))%nat) as [f|] eqn:E;
    [reflexivity|].
  apply lookup_ge_None in E. rewrite Hl in E.
  pose proof (Nat.mod_upper_bound (ticks - 1) (length fs + 1)). lia.
Qed.

Lemma frames_length (tau : Z) :
  tau < 1000 ->
  Z.of_nat (length (py_range 0 (1000 - tau) 10)) = (1009 - tau) / 10
  /\ 1 <= (1009 - tau) / 10.
Proof.
  intros Htau. rewrite py_range_length.
  replace (1000 - tau + Z.pos 10 - 1) with (1009 - tau) by lia.
  assert (1 <= (1009 - tau) / 10) by (apply Z.div_le_lower_bound; lia).
  lia.
Qed.

Lemma frame_on_display (tau : Z) (ticks : nat) :
  tau < 1000 -> (1 <= ticks)%nat ->
  last (delivered (py_range 0 (1000 - tau) 10) ticks)
  = Some (let L := (1009 - tau) / 10 in
          let r := (Z.of_nat ticks - 1) mod (L + 1) in
          if r =? L then 0 else 10 * r).
Proof.
  intros Htau Ht. destruct (frames_length tau Htau) as [Hlen Hpos].
  set (fs := py_range 0 (1000 - tau) 10) in *.
  assert (Hne : fs <> []).
  { intros E. rewrite E in Hlen. simpl in Hlen. lia. }
  rewrite (delivered_last fs ticks Hne Ht).
  set (i := ((ticks - 1) mod (length fs + 1))%nat).
  assert (Hi : (i < length fs + 1)%nat) by (apply Nat.mod_upper_bound; lia).
  assert (Ei : Z.of_nat i = (Z.of_nat ticks - 1) mod ((1009 - tau) / 10 + 1)).
  { unfold i. rewrite Nat2Z.inj_mod, Nat2Z.inj_add, Hlen.
    replace (Z.of_nat (ticks - 1)) with (Z.of_nat ticks - 1) by lia. reflexivity. }
  cbv zeta. rewrite <- Ei, <- Hlen.
  destruct (Z.eqb_spec (Z.of_nat i) (Z.of_nat (length fs))) as [E|E].
  - apply Nat2Z.inj in E. rewrite E, lookup_app_r by lia.
    rewrite Nat.sub_diag. unfold fs.
    destruct (py_range_head (1000 - tau) 10 ltac:(lia)) as [rest ->]. reflexivity.
  - rewrite lookup_app_l by lia. unfold fs. apply frames_lookup. fold fs. lia.
Qed.

End Loop_facts.

(** With a lag [0 <= tau < 1000] the frame sequence has
    [L = (1009 - tau) / 10] frames and the animation comes round every
    [L + 1] timer ticks: ticks 1 to [L] draw the frames [0, 10, ...] in
    order, tick [L + 1] draws the initial picture again (frame 0), and the
    sequence starts over.  After [ticks >= 1] timer ticks, with
    [r = (ticks - 1) mod (L + 1)], the call returns with the figure of
    frame [10 * r] on display (frame 0 when [r = L]), the markers at that
    column and [tau] columns later, the frame being inside
    [0, 1000 - tau). *)
Theorem animation_starts_over :
  forall (T : Type) (N : Num T) (w : world T) (lx : loc) (x : ndarray T)
         (R n : nat) (a : T) (tau : Z) (ticks : nat),
    heap w !! lx = Some x -> has_shape x R 1000 -> (1 <= n <= R)%nat ->
    is_zero a = false -> 0 <= tau < 1000 -> (1 <= ticks)%nat ->
    exists (yf : ndarray T) (w1 w' : world T) (f : Z),
      f = (let L := (1009 - tau) / 10 in
           let r := (Z.of_nat ticks - 1) mod (L + 1) in
           if r =? L then 0 else 10 * r)
      /\ 0 <= f < 1000 - tau
      /\ y_fir x (Z.of_nat n) a = Ok yf
      /\ preparar lx (Z.of_nat n) a w = (Ok (ref_fir w, ref_nl w yf), w1)
      /\ animar_medias_tiempo lx (Z.of_nat n) a tau ticks w = (Ok tt, w')
      /\ fig w' = dibujo (fig w1) yf (y_nl x) tau f
      /\ marcados tau f (fig w').
Proof.
  intros T N w lx x R n a tau ticks Hx Hs Hn Ha Htau Ht.
  apply has_shape_inv in Hs as [rows [-> [HRl Hw]]]. subst R.
  destruct (preparar_ok_n w lx rows a n Hx Hw Hn Ha) as [Hy Hp].
  set (yf := Arr2 1000 (map (fir_fila (coeficientes a)) (take n rows))) in *.
  set (w1 := preparado w yf (y_nl (Arr2 1000 rows)) (Z.of_nat n)) in *.
  set (f := let L := (1009 - tau) / 10 in
            let r := (Z.of_nat ticks - 1) mod (L + 1) in
            if r =? L then 0 else 10 * r).
  assert (Hrun : show (FuncAnimation (ref_fir w) (ref_nl w yf) tau) ticks w1
                 = (Ok tt, World (heap w1)
                             (dibujo (fig w1) yf (y_nl (Arr2 1000 rows)) tau f))).
  { rewrite (show_draws w1 _ _ (map (fir_fila (coeficientes a)) (take n rows))
               (map (map square) rows));
      [|apply procesado_fir|apply procesado_nl|lia].
    rewrite frame_on_display by (try exact Ht; lia). reflexivity. }
  assert (Hf : 0 <= f < 1000 - tau).
  { destruct (frames_length tau ltac:(lia)) as [_ Hpos].
    pose proof (Z.mod_pos_bound (Z.of_nat ticks - 1) ((1009 - tau) / 10 + 1) ltac:(lia))
      as Hm.
    pose proof (Z.mul_div_le (1009 - tau) 10 ltac:(lia)).
    unfold f. cbv zeta.
    destruct (Z.eqb_spec ((Z.of_nat ticks - 1) mod ((1009 - tau) / 10 + 1))
                ((1009 - tau) / 10)); lia. }
  exists yf, w1, (World (heap w1) (dibujo (fig w1) yf (y_nl (Arr2 1000 rows)) tau f)), f.
  split; [reflexivity|]. split; [exact Hf|]. split; [exact Hy|]. split; [exact Hp|].
  split.
  { unfold animar_medias_tiempo. unfold mbind at 1. unfold M_bind at 1.
    rewrite Hp. exact Hrun. }
  split; [reflexivity|]. repeat split.
Qed.

Lemma animation_starts_over_witness :
  exists (yf : ndarray Q) (w1 w' : world Q) (f : Z),
    f = 10
    /\ 0 <= f < 1000 - 100
    /\ y_fir rampa (Z.of_nat 1) (2 # 1)%Q = Ok yf
    /\ preparar 1%positive (Z.of_nat 1) (2 # 1)%Q (World {[1%positive := rampa]} blank)
       = (Ok (ref_fir (World {[1%positive := rampa]} blank),
              ref_nl (World {[1%positive := rampa]} blank) yf), w1)
    /\ animar_medias_tiempo 1%positive (Z.of_nat 1) (2 # 1)%Q 100 93
         (World {[1%positive := rampa]} blank) = (Ok tt, w')
    /\ fig w' = dibujo (fig w1) yf (y_nl rampa) 100 f
    /\ marcados 100 f (fig w').
Proof.
  refine (animation_starts_over Q Q_Num (World {[1%positive := rampa]} blank)
            1%positive (rampa (T := Q)) 1%nat 1%nat (2 # 1)%Q 100 93%nat _ _ _ _ _ _).
  - vm_compute. reflexivity.
  - split; [reflexivity|]. repeat constructor.
  - lia.
  - reflexivity.
  - lia.
  - lia.
Defined.

(** With [tau = 100] the sequence has 90 frames: tick 90 draws the last
    frame 890, tick 91 the initial picture again, tick 92 the frame 0 and
    tick 93 the frame 10. *)
Example frames_round_the_restart :
  last (delivered (py_range 0 (1000 - 100) 10) 90) = Some 890
  /\ last (delivered (py_range 0 (1000 - 100) 10) 91) = Some 0
  /\ last (delivered (py_range 0 (1000 - 100) 10) 92) = Some 0
  /\ last (delivered (py_range 0 (1000 - 100) 10) 93) = Some 10
  /\ on_ticks [0; 10; 20] 9 = [0; 10; 20; 0; 0; 10; 20; 0; 0].
Proof. vm_compute. repeat split. Qed.
